(** * autobrowser: the curiosity core

    A shallow embedding of the four cooperating engines of the repository:

    - [Brain]    : brain.js    (class CuriosityEngine, the interest graph),
    - [Memory]   : memory.js   (class MemoryConsolidator),
    - [Dreamer]  : dreamer.js  (class DreamReplaySystem),
    - [Genetics] : genetics.js (class GeneticEvolution).

    Conventions of the embedding.

    - JavaScript numbers are exact rationals ([Q]); timestamps and counters
      are integers ([Z]).  Equalities between computed numbers are stated
      with [==].
    - [Date.now()] is an explicit argument [now] of every operation that
      reads the clock.
    - [Math.random()] is drawn from an explicit source [rnd : nat -> Q]
      threaded through the [Rand] state monad (the state is the number of
      draws made so far).
    - A JavaScript [Map] is an association list in insertion order
      ([JsMap]); objects stored in a map are referred to by their key, so
      a mutation through a reference is a [JsMap.modify] at that key.
    - The optional event callbacks ([onInterestAdded], [onDreamStart], ...)
      are [null], as the constructors leave them; [save()] and the other
      [localStorage] writers do not touch the modelled state.
    - Strings are sequences of 8-bit characters; case folding and the
      whitespace class are the ASCII ones. *)

From Stdlib Require Import List String Ascii Bool Arith ZArith QArith.
From Stdlib Require Import Qminmax Qround Lia Lqa Permutation Sorted.
Import ListNotations.

Local Open Scope Q_scope.

(* ================================================================== *)
(** * Part I: the program                                              *)
(* ================================================================== *)

(** ** Host-language primitives *)

Module Js.

(** [String.prototype.toLowerCase] on ASCII letters. *)
Definition lower_char (c : ascii) : ascii :=
  let n := nat_of_ascii c in
  if (65 <=? n)%nat && (n <=? 90)%nat then ascii_of_nat (n + 32) else c.

Fixpoint toLowerCase (s : string) : string :=
  match s with
  | EmptyString => EmptyString
  | String c s' => String (lower_char c) (toLowerCase s')
  end.

(** The class [\s] restricted to ASCII: TAB, LF, VT, FF, CR, SPACE. *)
Definition is_ws (c : ascii) : bool :=
  let n := nat_of_ascii c in
  ((9 <=? n)%nat && (n <=? 13)%nat) || (n =? 32)%nat.

Fixpoint trimStart (s : string) : string :=
  match s with
  | EmptyString => EmptyString
  | String c s' => if is_ws c then trimStart s' else s
  end.

Fixpoint rev_string (acc s : string) : string :=
  match s with
  | EmptyString => acc
  | String c s' => rev_string (String c acc) s'
  end.

(** [String.prototype.trim]. *)
Definition trim (s : string) : string :=
  rev_string EmptyString
    (trimStart (rev_string EmptyString (trimStart s))).

(** [s.split(/\s+/)]: the pieces between maximal runs of whitespace,
    including the empty pieces at either end.  [acc] is the piece being
    read and [in_ws] tells whether the previous character was a
    separator. *)
Fixpoint split_ws_from (acc : string) (in_ws : bool) (s : string)
  : list string :=
  match s with
  | EmptyString => [acc]
  | String c s' =>
      if is_ws c then
        if in_ws then split_ws_from EmptyString true s'
        else acc :: split_ws_from EmptyString true s'
      else split_ws_from (acc ++ String c EmptyString)%string false s'
  end.

Definition split_ws (s : string) : list string :=
  split_ws_from EmptyString false s.

(** [Array.prototype.includes] on strings. *)
Definition includes (x : string) (l : list string) : bool :=
  existsb (String.eqb x) l.

(** [new Set(array)]: the distinct elements, in order of first
    occurrence. *)
Fixpoint set_of (l : list string) : list string :=
  match l with
  | [] => []
  | x :: l' => x :: filter (fun y => negb (String.eqb y x)) (set_of l')
  end.

(** Integers and naturals as numbers. *)
Definition of_Z (z : Z) : Q := inject_Z z.
Definition of_nat (n : nat) : Q := inject_Z (Z.of_nat n).

(** Comparisons as the booleans JavaScript computes. *)
Definition ltb (x y : Q) : bool := negb (Qle_bool y x).
Definition geb (x y : Q) : bool := Qle_bool y x.
Definition leb (x y : Q) : bool := Qle_bool x y.
Definition gtb (x y : Q) : bool := negb (Qle_bool x y).

End Js.

(** ** Insertion-ordered maps with string keys *)

Module JsMap.
Section JsMap.
Context {V : Type}.

Definition t := list (string * V).

Definition empty : t := [].

Fixpoint get (k : string) (m : t) : option V :=
  match m with
  | [] => None
  | (k', v) :: m' => if String.eqb k' k then Some v else get k m'
  end.

Definition has (k : string) (m : t) : bool :=
  match get k m with Some _ => true | None => false end.

(** [m.set(k, v)]: replaces the value in place, or appends. *)
Fixpoint set (k : string) (v : V) (m : t) : t :=
  match m with
  | [] => [(k, v)]
  | (k', v') :: m' =>
      if String.eqb k' k then (k', v) :: m' else (k', v') :: set k v m'
  end.

(** [m.delete(k)].  The keys of a [Map] are distinct: there is at most
    one entry to remove, or to mutate below. *)
Definition delete (k : string) (m : t) : t :=
  filter (fun e => negb (String.eqb (fst e) k)) m.

(** A mutation of the object stored under [k] (nothing happens when
    [k] is absent). *)
Definition modify (k : string) (f : V -> V) (m : t) : t :=
  map (fun e => if String.eqb (fst e) k then (fst e, f (snd e)) else e) m.

Definition keys (m : t) : list string := map fst m.
Definition values (m : t) : list V := map snd m.
Definition size (m : t) : nat := List.length m.

(** [new Map(entries)]: the entries are set one after the other, a
    later entry replacing the value of an earlier one at its place. *)
Definition of_entries (l : list (string * V)) : t :=
  fold_left (fun m e => set (fst e) (snd e) m) l empty.

End JsMap.
Arguments t : clear implicits.
End JsMap.

(** ** brain.js: the interest graph *)

Module Brain.

Inductive MemoryType := ShortTerm | LongTerm | Core.

Definition MemoryType_eqb (a b : MemoryType) : bool :=
  match a, b with
  | ShortTerm, ShortTerm | LongTerm, LongTerm | Core, Core => true
  | _, _ => false
  end.

Record InterestNode := mkNode {
  topic : string;
  weight : Q;
  connections : list string;
  lastActive : Z;
  createdAt : Z;
  accessCount : Z;
  isCore : bool;
  memoryType : MemoryType;
  (** [keywords] is absent on nodes restored from data written without
      it; the dream engine then recomputes it. *)
  keywords : option (list string);
  (** set by the consolidator on promotion *)
  promotedAt : option Z;
  (** [dreamConnections], an absent field being the empty array *)
  dreamConnections : list (string * Z)
}.

Definition set_weight (w : Q) (n : InterestNode) : InterestNode :=
  mkNode (topic n) w (connections n) (lastActive n) (createdAt n)
    (accessCount n) (isCore n) (memoryType n) (keywords n) (promotedAt n)
    (dreamConnections n).

Definition set_connections (c : list string) (n : InterestNode)
  : InterestNode :=
  mkNode (topic n) (weight n) c (lastActive n) (createdAt n)
    (accessCount n) (isCore n) (memoryType n) (keywords n) (promotedAt n)
    (dreamConnections n).

Definition set_lastActive (t : Z) (n : InterestNode) : InterestNode :=
  mkNode (topic n) (weight n) (connections n) t (createdAt n)
    (accessCount n) (isCore n) (memoryType n) (keywords n) (promotedAt n)
    (dreamConnections n).

Definition set_accessCount (a : Z) (n : InterestNode) : InterestNode :=
  mkNode (topic n) (weight n) (connections n) (lastActive n) (createdAt n)
    a (isCore n) (memoryType n) (keywords n) (promotedAt n)
    (dreamConnections n).

Definition set_core (c : bool) (m : MemoryType) (n : InterestNode)
  : InterestNode :=
  mkNode (topic n) (weight n) (connections n) (lastActive n) (createdAt n)
    (accessCount n) c m (keywords n) (promotedAt n) (dreamConnections n).

Definition set_promoted (t : Z) (n : InterestNode) : InterestNode :=
  mkNode (topic n) (weight n) (connections n) (lastActive n) (createdAt n)
    (accessCount n) (isCore n) LongTerm (keywords n) (Some t)
    (dreamConnections n).

Definition set_dreamConnections (d : list (string * Z)) (n : InterestNode)
  : InterestNode :=
  mkNode (topic n) (weight n) (connections n) (lastActive n) (createdAt n)
    (accessCount n) (isCore n) (memoryType n) (keywords n) (promotedAt n) d.

(** An entry of [this.connections], the connection log. *)
Record Connection := mkConnection {
  from : string;
  to : string;
  strength : Q;
  conn_createdAt : Z
}.

Record Config := mkConfig {
  decayRate : Q;
  decayInterval : Z;
  reinforcementFactor : Q;
  connectionThreshold : Q;
  coreThreshold : Q;
  maxShortTermInterests : nat;
  initialWeight : Q;
  maxWeight : Q;
  minWeight : Q
}.

Definition default_config : Config :=
  {| decayRate := 1 # 10000;
     decayInterval := 60000;
     reinforcementFactor := 3 # 10;
     connectionThreshold := 2 # 10;
     coreThreshold := 7 # 10;
     maxShortTermInterests := 50;
     initialWeight := 5 # 10;
     maxWeight := 1;
     minWeight := 5 # 100 |}.

(** The mutable part of a [CuriosityEngine]. *)
Record Engine := mkEngine {
  interests : JsMap.t InterestNode;
  connectionLog : list Connection
}.

(** The engine as the constructor leaves it. *)
Definition new_engine : Engine := mkEngine JsMap.empty [].

Definition stopWords : list string :=
  ["the"; "a"; "an"; "and"; "or"; "but"; "in"; "on"; "at"; "to"; "for";
   "of"; "with"; "by"]%string.

Definition extractKeywords (topic : string) : list string :=
  filter (fun word => (2 <? String.length word)%nat
                      && negb (Js.includes word stopWords))
         (Js.split_ws (Js.toLowerCase topic)).

Definition createInterestNode (cfg : Config) (now : Z) (topic : string)
  : InterestNode :=
  {| topic := Js.trim (Js.toLowerCase topic);
     weight := initialWeight cfg;
     connections := [];
     lastActive := now;
     createdAt := now;
     accessCount := 1;
     isCore := false;
     memoryType := ShortTerm;
     keywords := Some (extractKeywords topic);
     promotedAt := None;
     dreamConnections := [] |}.

(** Jaccard index of two keyword sets given as arrays. *)
Definition jaccard (k1 k2 : list string) : Q :=
  let keywords1 := Js.set_of k1 in
  let keywords2 := Js.set_of k2 in
  if (List.length keywords1 =? 0)%nat || (List.length keywords2 =? 0)%nat
  then 0
  else
    let intersection :=
      List.length (filter (fun k => Js.includes k keywords2) keywords1) in
    let union := List.length (Js.set_of (keywords1 ++ keywords2)) in
    Js.of_nat intersection / Js.of_nat union.

Definition calculateSimilarity (topic1 topic2 : string) : Q :=
  jaccard (extractKeywords topic1) (extractKeywords topic2).

(** The three assignments of [reinforceInterest] to the node itself. *)
Definition bumped (cfg : Config) (now : Z) (strength : Q)
    (n : InterestNode) : InterestNode :=
  set_accessCount (accessCount n + 1)
    (set_lastActive now
       (set_weight (Qmin (weight n + strength) (maxWeight cfg)) n)).

(** The two assignments to a connected node. *)
Definition spread_to (cfg : Config) (now : Z) (strength : Q)
    (connected : InterestNode) : InterestNode :=
  set_lastActive now
    (set_weight (Qmin (weight connected + strength * reinforcementFactor cfg)
                      (maxWeight cfg)) connected).

Definition reinforceInterest (cfg : Config) (now : Z) (topic : string)
    (strength : Q) (b : Engine) : Engine :=
  match JsMap.get topic (interests b) with
  | None => b
  | Some node =>
      mkEngine
        (fold_left
           (fun m connectedTopic =>
              JsMap.modify connectedTopic (spread_to cfg now strength) m)
           (connections node)
           (JsMap.modify topic (bumped cfg now strength) (interests b)))
        (connectionLog b)
  end.

(** One visit of the [forEach] in [findAndCreateConnections]: [topic] is
    the node being linked, [e] the visited entry.  Returns the visited
    entry as mutated, and the topic pushed on the new node's adjacency
    and the log entry, when the pair is similar enough. *)
Definition link_visit (cfg : Config) (now : Z) (topic : string)
    (nodeConnections : list string) (e : string * InterestNode)
  : (string * InterestNode) * list string * list Connection :=
  let '(otherTopic, otherNode) := e in
  if String.eqb otherTopic topic then (e, nodeConnections, [])
  else
    let similarity := calculateSimilarity topic otherTopic in
    if Js.geb similarity (connectionThreshold cfg) then
      let nodeConnections' :=
        if Js.includes otherTopic nodeConnections then nodeConnections
        else nodeConnections ++ [otherTopic] in
      let otherConnections :=
        if Js.includes topic (connections otherNode)
        then connections otherNode
        else connections otherNode ++ [topic] in
      let otherNode' :=
        set_weight (Qmin (weight otherNode + (5 # 100)) (maxWeight cfg))
          (set_connections otherConnections otherNode) in
      ((otherTopic, otherNode'), nodeConnections',
       [mkConnection topic otherTopic similarity now])
    else (e, nodeConnections, []).

Fixpoint link_all (cfg : Config) (now : Z) (topic : string)
    (nodeConnections : list string) (m : JsMap.t InterestNode)
  : JsMap.t InterestNode * list string * list Connection :=
  match m with
  | [] => ([], nodeConnections, [])
  | e :: m' =>
      let '(e', nc, log1) := link_visit cfg now topic nodeConnections e in
      let '(m'', nc', log2) := link_all cfg now topic nc m' in
      (e' :: m'', nc', log1 ++ log2)
  end.

(** The visited entries never include the node being linked, so its
    adjacency, which the visits only append to, is written back once
    the traversal is over. *)
Definition findAndCreateConnections (cfg : Config) (now : Z)
    (topic : string) (b : Engine) : Engine :=
  match JsMap.get topic (interests b) with
  | None => b
  | Some node =>
      let '(m, nc, log) :=
        link_all cfg now topic (connections node) (interests b) in
      mkEngine (JsMap.modify topic (set_connections nc) m)
               (connectionLog b ++ log)
  end.

(** [connected.connections = connected.connections.filter(t => t !== topic)] *)
Definition unlinked (topic : string) (connected : InterestNode)
  : InterestNode :=
  set_connections
    (filter (fun t => negb (String.eqb t topic)) (connections connected))
    connected.

Definition removeInterest (topic : string) (b : Engine) : Engine :=
  match JsMap.get topic (interests b) with
  | None => b
  | Some node =>
      mkEngine
        (JsMap.delete topic
           (fold_left
              (fun m connectedTopic =>
                 JsMap.modify connectedTopic (unlinked topic) m)
              (connections node) (interests b)))
        (filter (fun c => negb (String.eqb (from c) topic)
                          && negb (String.eqb (to c) topic))
                (connectionLog b))
  end.

(** The scan of [removeWeakestInterest]: [best] is [(weakest, minWeight)],
    [None] standing for the initial [(null, Infinity)]. *)
Definition weakest_visit (best : option (string * Q))
    (e : string * InterestNode) : option (string * Q) :=
  let '(topic, node) := e in
  if negb (isCore node)
     && match best with
        | None => true
        | Some (_, minW) => Js.ltb (weight node) minW
        end
  then Some (topic, weight node)
  else best.

(** [if (weakest)] is a truthiness test: the empty topic is never
    evicted. *)
Definition removeWeakestInterest (b : Engine) : Engine :=
  match fold_left weakest_visit (interests b) None with
  | Some (weakest, _) =>
      if String.eqb weakest EmptyString then b else removeInterest weakest b
  | None => b
  end.

Definition core_visit (cfg : Config) (node : InterestNode) : InterestNode :=
  let wasCore := isCore node in
  let isCore' := Js.geb (weight node) (coreThreshold cfg) in
  if isCore' && negb wasCore then set_core isCore' Core node
  else if negb isCore' && MemoryType_eqb (memoryType node) Core
       then set_core isCore' LongTerm node
       else set_core isCore' (memoryType node) node.

Definition updateCoreStatus (cfg : Config) (b : Engine) : Engine :=
  mkEngine (map (fun e => (fst e, core_visit cfg (snd e))) (interests b))
           (connectionLog b).

Definition decay_visit (cfg : Config) (now : Z) (node : InterestNode)
  : InterestNode :=
  let decayMultiplier := if isCore node then 1 # 10 else 1 in
  let memoryMultiplier :=
    if MemoryType_eqb (memoryType node) LongTerm then 3 # 10 else 1 in
  let age := Js.of_Z (now - lastActive node) in
  let decayAmount :=
    decayRate cfg * age * decayMultiplier * memoryMultiplier in
  set_weight (Qmax (weight node - decayAmount) 0) node.

(** [toRemove.forEach(topic => this.removeInterest(topic))] *)
Definition remove_all (toRemove : list string) (b : Engine) : Engine :=
  fold_left (fun b' topic => removeInterest topic b') toRemove b.

Definition applyDecay (cfg : Config) (now : Z) (b : Engine) : Engine :=
  let decayed :=
    map (fun e => (fst e, decay_visit cfg now (snd e))) (interests b) in
  let toRemove :=
    map fst
      (filter (fun e => Js.ltb (weight (snd e)) (minWeight cfg)) decayed) in
  updateCoreStatus cfg
    (remove_all toRemove (mkEngine decayed (connectionLog b))).

Definition addInterest (cfg : Config) (now : Z) (topic : string)
    (strength : Q) (b : Engine) : Engine * option InterestNode :=
  let normalizedTopic := Js.trim (Js.toLowerCase topic) in
  let b1 :=
    if JsMap.has normalizedTopic (interests b) then
      reinforceInterest cfg now normalizedTopic strength b
    else
      let b0 :=
        if (maxShortTermInterests cfg <=? JsMap.size (interests b))%nat
        then removeWeakestInterest b else b in
      let node := createInterestNode cfg now topic in
      findAndCreateConnections cfg now normalizedTopic
        (mkEngine (JsMap.set normalizedTopic node (interests b0))
                  (connectionLog b0)) in
  let b2 := updateCoreStatus cfg b1 in
  (b2, JsMap.get normalizedTopic (interests b2)).


(** [sort((a, b) => b.weight - a.weight)]: a stable sort, heaviest
    first. *)
Fixpoint insert_by_weight (x : InterestNode) (l : list InterestNode)
  : list InterestNode :=
  match l with
  | [] => [x]
  | y :: l' =>
      if Js.ltb (weight x) (weight y) then y :: insert_by_weight x l'
      else x :: l
  end.

Definition getInterestsSorted (b : Engine) : list InterestNode :=
  fold_right insert_by_weight [] (JsMap.values (interests b)).

(** [getInterestsSorted().slice(0, count)], for a count that is a
    natural number. *)
Definition getTopInterests (count : nat) (b : Engine) : list InterestNode :=
  firstn count (getInterestsSorted b).

Record Stats := mkStats {
  stats_shortTerm : nat;
  stats_longTerm : nat;
  stats_core : nat;
  stats_total : nat;
  stats_connections : nat;
  stats_averageWeight : Q
}.

Definition getStats (b : Engine) : Stats :=
  let interests := JsMap.values (interests b) in
  {| stats_shortTerm :=
       List.length
         (filter (fun i => MemoryType_eqb (memoryType i) ShortTerm) interests);
     stats_longTerm :=
       List.length
         (filter (fun i => MemoryType_eqb (memoryType i) LongTerm) interests);
     stats_core := List.length (filter isCore interests);
     stats_total := List.length interests;
     stats_connections := List.length (connectionLog b);
     stats_averageWeight :=
       if (0 <? List.length interests)%nat
       then fold_left (fun sum i => sum + weight i) interests 0
            / Js.of_nat (List.length interests)
       else 0 |}.

(** The object written by [export()] and read by [import(data)].  The
    time of the export is kept as the clock value it is printed from;
    a field that [import] reads with a default is optional. *)
Record Snapshot := mkSnapshot {
  snap_version : Z;
  snap_exportedAt : Z;
  snap_interests : option (list (string * InterestNode));
  snap_connections : option (list Connection);
  snap_stats : option Stats
}.

Definition export (now : Z) (b : Engine) : Snapshot :=
  {| snap_version := 1;
     snap_exportedAt := now;
     snap_interests := Some (interests b);
     snap_connections := Some (connectionLog b);
     snap_stats := Some (getStats b) |}.

Inductive ImportResult :=
| Imported
| IncompatibleVersion.   (* Error('Incompatible brain state version') *)

Definition import (data : Snapshot) (b : Engine) : Engine * ImportResult :=
  if (snap_version data =? 1)%Z then
    (mkEngine
       (JsMap.of_entries
          (match snap_interests data with Some l => l | None => [] end))
       (match snap_connections data with Some c => c | None => [] end),
     Imported)
  else (b, IncompatibleVersion).

End Brain.

(** ** memory.js: the consolidator *)

Module Memory.
Import Brain.

Record Config := mkConfig {
  maxShortTermCapacity : nat;
  promotionThreshold : Q;
  consolidationInterval : Z;
  forgettingCurveBase : Q;
  clusterSimilarityThreshold : Q
}.

Definition default_config : Config :=
  {| maxShortTermCapacity := 50;
     promotionThreshold := 6 # 10;
     consolidationInterval := 6 * 60 * 60 * 1000;
     forgettingCurveBase := 5 # 10;
     clusterSimilarityThreshold := 3 # 10 |}.

Record Breakdown := mkBreakdown {
  bd_weight : Q;
  bd_connections : Q;
  bd_access : Q;
  bd_recency : Q
}.

Record Score := mkScore { total : Q; breakdown : Breakdown }.

Record Promoted := mkPromoted {
  pr_topic : string;
  pr_score : Q;
  pr_breakdown : Breakdown
}.

Record Forgotten := mkForgotten { fg_topic : string; fg_weight : Q }.

(** The object returned by [consolidate]; the early return on a missing
    brain has neither [clustered] nor [timestamp]. *)
Record Results := mkResults {
  promoted : list Promoted;
  forgotten : list Forgotten;
  clustered : list string;
  timestamp : option Z
}.

Record Consolidator := mkConsolidator {
  longTermMemory : list InterestNode;
  topicClusters : JsMap.t (list string);
  consolidationHistory : list Results
}.

Definition new_consolidator : Consolidator := mkConsolidator [] [] [].

Section WithLog.
(** [Math.log], the natural logarithm of the host. *)
Variable log : Q -> Q.

Definition scoreForPromotion (now : Z) (interest : InterestNode)
  : Score :=
  let MAX_WEIGHT := 1 in
  let MAX_CONNECTIONS := 10 in
  let MAX_ACCESS := 50%Z in
  let MAX_AGE := Js.of_Z (7 * 24 * 60 * 60 * 1000) in
  let weightScore := Qmin (weight interest / MAX_WEIGHT) 1 in
  let connectionScore :=
    Qmin (Js.of_nat (List.length (connections interest))
          / MAX_CONNECTIONS) 1 in
  let accessScore :=
    Qmin (log (Js.of_Z (accessCount interest + 1))
          / log (Js.of_Z (MAX_ACCESS + 1))) 1 in
  let age := Js.of_Z (now - lastActive interest) in
  let recencyScore := Qmax (1 - age / MAX_AGE) 0 in
  let totalScore :=
    weightScore * (30 # 100) + connectionScore * (30 # 100)
    + accessScore * (20 # 100) + recencyScore * (20 # 100) in
  mkScore totalScore
    (mkBreakdown weightScore connectionScore accessScore recencyScore).

(** [existing = find(...)] followed by the in-place merge. *)
Fixpoint merge_existing (now : Z) (interest : InterestNode)
    (ltm : list InterestNode) : option (list InterestNode) :=
  match ltm with
  | [] => None
  | m :: ltm' =>
      if String.eqb (topic m) (topic interest) then
        let m' :=
          set_lastActive now
            (set_connections
               (Js.set_of (connections m ++ connections interest))
               (set_accessCount (accessCount m + accessCount interest)
                  (set_weight (Qmax (weight m) (weight interest)) m))) in
        Some (m' :: ltm')
      else
        match merge_existing now interest ltm' with
        | Some r => Some (m :: r)
        | None => None
        end
  end.

(** [interest] is the graph's own node object, found under [key]: the
    first two assignments are seen by the graph. *)
Definition promoteToLongTerm (now : Z) (key : string)
    (interest : InterestNode) (c : Consolidator) (b : Engine)
  : Consolidator * Engine :=
  let interest' := set_promoted now interest in
  let b' :=
    mkEngine (JsMap.modify key (set_promoted now) (interests b))
             (connectionLog b) in
  let ltm :=
    match merge_existing now interest' (longTermMemory c) with
    | Some merged => merged
    | None => longTermMemory c ++ [set_promoted now interest']
    end in
  (mkConsolidator ltm (topicClusters c) (consolidationHistory c), b').

Definition findBestCluster (cfg : Config)
    (clusters : JsMap.t (list string)) (memory : InterestNode)
  : option string :=
  fst
    (fold_left
       (fun (best : option string * Q) (e : string * list string) =>
          let '(clusterName, topics) := e in
          let totalSimilarity :=
            fold_left
              (fun acc t => acc + calculateSimilarity (topic memory) t)
              topics 0 in
          let avgSimilarity :=
            if (0 <? List.length topics)%nat
            then totalSimilarity / Js.of_nat (List.length topics)
            else 0 in
          if Js.gtb avgSimilarity (clusterSimilarityThreshold cfg)
             && Js.gtb avgSimilarity (snd best)
          then (Some clusterName, avgSimilarity)
          else best)
       clusters (None, 0)).

(** One iteration of the [forEach] of [clusterMemories]; the state is
    [(this.topicClusters, assigned)]. *)
Definition cluster_visit (cfg : Config)
    (st : JsMap.t (list string) * list string) (memory : InterestNode)
  : JsMap.t (list string) * list string :=
  let '(clusters, assigned) := st in
  if Js.includes (topic memory) assigned then st
  else
    let '(clusterName, clusters1) :=
      match findBestCluster cfg clusters memory with
      | Some name =>
          if String.eqb name EmptyString
          then (topic memory, JsMap.set (topic memory) [] clusters)
          else (name, clusters)
      | None => (topic memory, JsMap.set (topic memory) [] clusters)
      end in
    let clusters2 :=
      JsMap.modify clusterName (fun cl => cl ++ [topic memory])
                   clusters1 in
    fold_left
      (fun (st' : JsMap.t (list string) * list string) connectedTopic =>
         if Js.includes connectedTopic (snd st') then st'
         else (JsMap.modify clusterName
                 (fun cl => cl ++ [connectedTopic]) (fst st'),
               snd st' ++ [connectedTopic]))
      (connections memory)
      (clusters2, assigned ++ [topic memory]).

Definition clusterMemories (cfg : Config) (c : Consolidator)
  : Consolidator :=
  mkConsolidator (longTermMemory c)
    (fst (fold_left (cluster_visit cfg) (longTermMemory c) ([], [])))
    (consolidationHistory c).

(** One iteration of the [forEach] over the short-term snapshot. *)
Definition consolidate_visit (cfg : Config) (now : Z)
    (st : Consolidator * Engine * (list Promoted * list Forgotten))
    (e : string * InterestNode)
  : Consolidator * Engine * (list Promoted * list Forgotten) :=
  let '(c, b, (proms, forgs)) := st in
  let interest := snd e in
  let score := scoreForPromotion now interest in
  if Js.geb (total score) (promotionThreshold cfg) then
    let '(c', b') := promoteToLongTerm now (fst e) interest c b in
    (c', b',
     (proms ++ [mkPromoted (topic interest) (total score)
                           (breakdown score)], forgs))
  else if Js.ltb (weight interest) (1 # 10) then
    (c, b, (proms, forgs ++ [mkForgotten (topic interest)
                                         (weight interest)]))
  else st.

(** [window.brain] is [None] before the graph is constructed. *)
Definition consolidate (cfg : Config) (now : Z) (c : Consolidator)
    (brain : option Engine) : Consolidator * option Engine * Results :=
  match brain with
  | None => (c, None, mkResults [] [] [] None)
  | Some b =>
      let shortTermInterests :=
        filter (fun e => MemoryType_eqb (memoryType (snd e)) ShortTerm)
               (interests b) in
      let '(c1, b1, (proms, forgs)) :=
        fold_left (consolidate_visit cfg now) shortTermInterests
                  (c, b, ([], [])) in
      let c2 := clusterMemories cfg c1 in
      let results :=
        mkResults proms forgs (JsMap.keys (topicClusters c2))
                  (Some now) in
      (mkConsolidator (longTermMemory c2) (topicClusters c2)
                      (consolidationHistory c2 ++ [results]),
       Some b1, results)
  end.

End WithLog.

End Memory.

(** ** The random source *)

Module Rand.

(** A computation drawing from [Math.random()]: it reads the source
    from the position it is given and returns the next position. *)
Definition t (A : Type) : Type := (nat -> Q) -> nat -> A * nat.

Definition ret {A : Type} (a : A) : t A := fun _ n => (a, n).

Definition bind {A B : Type} (m : t A) (f : A -> t B) : t B :=
  fun rnd n => let '(a, n') := m rnd n in f a rnd n'.

(** [Math.random()] *)
Definition random : t Q := fun rnd n => (rnd n, S n).

(** The contract of [Math.random]: every draw is in [[0,1)]. *)
Definition unit_interval (rnd : nat -> Q) : Prop :=
  forall n, 0 <= rnd n /\ rnd n < 1.

End Rand.

Declare Scope rand_scope.
Delimit Scope rand_scope with rand.
Notation "x <- m ;; k" := (Rand.bind m (fun x => k))
  (at level 61, m at next level, right associativity) : rand_scope.
Notation "' pat <- m ;; k" := (Rand.bind m (fun x => let pat := x in k))
  (at level 61, pat pattern, m at next level, right associativity)
  : rand_scope.

(** ** dreamer.js: dream replay *)

Module Dreamer.
Import Brain.
Local Open Scope rand_scope.

Record Config := mkConfig {
  replayChainLength : nat;
  chainsPerDream : nat;
  connectionThreshold : Q;
  serendipityBoost : Q;
  dreamDuration : Z
}.

Definition default_config : Config :=
  {| replayChainLength := 5;
     chainsPerDream := 10;
     connectionThreshold := 15 # 100;
     serendipityBoost := 3 # 10;
     dreamDuration := 5000 |}.

(** What the dream engine reads of an entry of
    [window.explorer.discoveries]. *)
Record Discovery := mkDiscovery {
  disc_id : string;
  disc_keywords : list string;
  disc_searchTopic : string
}.

Record PotentialConnection := mkPotential {
  pc_from : string;
  pc_to : string;
  pc_similarity : Q;
  pc_distance : nat;
  pc_discoveredAt : Z
}.

Record DiscoveredConnection := mkDiscovered {
  dc_from : string;
  dc_to : string;
  dc_similarity : Q;
  dc_discoveredAt : Z
}.

Inductive Insight :=
| Theme (topic : string) (frequency : nat)
| Bridge (from to bridge : string).

Record DreamSession := mkSession {
  startTime : Z;
  endTime : Z;
  chains : list (list InterestNode);
  newConnections : list PotentialConnection;
  strengthenedConnections : list PotentialConnection;
  insights : list Insight
}.

Inductive Reason :=
| AlreadyDreamingOrNoBrain   (* 'Already dreaming or brain not initialized' *)
| NeedThreeInterests.        (* 'Need at least 3 interests to dream' *)

(** The value the promise of [dream()] settles with. *)
Inductive DreamResult :=
| Failure (reason : Reason)          (* { success: false, reason } *)
| Success (session : DreamSession)   (* { success: true, session } *)
| Thrown.                            (* a TypeError rejected the promise *)

Record DreamState := mkDreamState {
  dreamLog : list DreamSession;
  discoveredConnections : list DiscoveredConnection;
  isDreaming : bool
}.

Definition new_dreamer : DreamState := mkDreamState [] [] false.

(** [a[Math.floor(x)]], [None] being [undefined]. *)
Definition at_floor {A : Type} (a : list A) (x : Q) : option A :=
  let i := Qfloor x in
  if (i <? 0)%Z then None else nth_error a (Z.to_nat i).

Definition stopWords : list string :=
  ["the"; "a"; "an"; "and"; "or"; "but"; "in"; "on"; "at"; "to"; "for";
   "of"]%string.

Definition extractKeywords (topic : string) : list string :=
  filter (fun word => (2 <? String.length word)%nat
                      && negb (Js.includes word stopWords))
         (Js.split_ws (Js.toLowerCase topic)).

(** The first summand's factor: keyword overlap. *)
Definition keywordSimilarity (interestA interestB : InterestNode) : Q :=
  let keywordsA :=
    Js.set_of (match keywords interestA with
               | Some k => k
               | None => extractKeywords (topic interestA)
               end) in
  let keywordsB :=
    Js.set_of (match keywords interestB with
               | Some k => k
               | None => extractKeywords (topic interestB)
               end) in
  if (0 <? List.length keywordsA)%nat && (0 <? List.length keywordsB)%nat
  then
    let intersection :=
      List.length (filter (fun k => Js.includes k keywordsB) keywordsA) in
    let union := List.length (Js.set_of (keywordsA ++ keywordsB)) in
    Js.of_nat intersection / Js.of_nat union
  else 0.

(** Shared connections (friends of friends). *)
Definition sharedConnections (interestA interestB : InterestNode) : nat :=
  let connectionsA := Js.set_of (connections interestA) in
  let connectionsB := Js.set_of (connections interestB) in
  List.length (filter (fun c => Js.includes c connectionsB) connectionsA).

Definition connectionSimilarity (interestA interestB : InterestNode) : Q :=
  let connectionsA := Js.set_of (connections interestA) in
  let connectionsB := Js.set_of (connections interestB) in
  Js.of_nat (sharedConnections interestA interestB)
  / Js.of_nat (Nat.max 1 (Nat.min (List.length connectionsA)
                                  (List.length connectionsB))).

Definition inDiscoveries (discoveries : list Discovery)
    (interest : InterestNode) : list string :=
  map disc_id
    (filter (fun d =>
               Js.includes (Js.toLowerCase (topic interest))
                           (disc_keywords d)
               || String.eqb (disc_searchTopic d) (topic interest))
            discoveries).

(** [explorer] is [None] when [window.explorer] or its [discoveries] is
    missing. *)
Definition discoveryCooccurrence (explorer : option (list Discovery))
    (interestA interestB : InterestNode) : Q :=
  match explorer with
  | None => 0
  | Some discoveries =>
      let topicAInDiscoveries := inDiscoveries discoveries interestA in
      let topicBInDiscoveries := inDiscoveries discoveries interestB in
      let sharedDiscoveries :=
        List.length (filter (fun id => Js.includes id topicBInDiscoveries)
                            topicAInDiscoveries) in
      if (0 <? sharedDiscoveries)%nat then 3 # 10 else 0
  end.

Definition calculateDreamSimilarity (explorer : option (list Discovery))
    (interestA interestB : InterestNode) : Rand.t Q :=
  r <- Rand.random ;;
  Rand.ret (keywordSimilarity interestA interestB * (4 # 10)
            + connectionSimilarity interestA interestB * (3 # 10)
            + discoveryCooccurrence explorer interestA interestB * (2 # 10)
            + r * (1 # 10)).

(** The inner loop of [analyzeChainForConnections] for a fixed [i]:
    [rest] is [chain[j..]]. *)
Fixpoint analyze_row (cfg : Config) (now : Z)
    (explorer : option (list Discovery)) (topicA : InterestNode)
    (i j : nat) (rest : list InterestNode)
  : Rand.t (list PotentialConnection) :=
  match rest with
  | [] => Rand.ret []
  | topicB :: rest' =>
      similarity <- calculateDreamSimilarity explorer topicA topicB ;;
      found <- analyze_row cfg now explorer topicA i (S j) rest' ;;
      Rand.ret
        (if Js.geb similarity (connectionThreshold cfg)
         then mkPotential (topic topicA) (topic topicB) similarity (j - i)
                          now :: found
         else found)
  end.

(** The outer loop, [chain] being [chain[i..]].  The rows the source
    skips ([i >= chain.length - 2]) are the empty ones. *)
Fixpoint analyze_from (cfg : Config) (now : Z)
    (explorer : option (list Discovery)) (i : nat)
    (chain : list InterestNode) : Rand.t (list PotentialConnection) :=
  match chain with
  | [] => Rand.ret []
  | topicA :: rest =>
      row <- analyze_row cfg now explorer topicA i (i + 2) (tl rest) ;;
      below <- analyze_from cfg now explorer (S i) rest ;;
      Rand.ret (row ++ below)
  end.

Definition analyzeChainForConnections (cfg : Config) (now : Z)
    (explorer : option (list Discovery)) (chain : list InterestNode)
  : Rand.t (list PotentialConnection) :=
  analyze_from cfg now explorer 0 chain.

(** "60% chance: follow a connection (if available)": the first [if] of
    the loop body of [generateMemoryChain]; [None] is [next] left
    [null]. *)
Definition follow_connection (b : Engine) (current : InterestNode)
    (used : list string) : Rand.t (option InterestNode) :=
  r <- Rand.random ;;
  if Js.ltb r (6 # 10) && (0 <? List.length (connections current))%nat
  then
    let available :=
      filter (fun t => negb (Js.includes t used)) (connections current) in
    if (0 <? List.length available)%nat then
      r' <- Rand.random ;;
      Rand.ret
        (match at_floor available (r' * Js.of_nat (List.length available)) with
         | Some nextTopic => JsMap.get nextTopic (Brain.interests b)
         | None => None
         end)
    else Rand.ret None
  else Rand.ret None.

(** "Random jump if no connection followed": the second [if]. *)
Definition random_jump (interests : list InterestNode) (used : list string)
  : Rand.t (option InterestNode) :=
  let available :=
    filter (fun i => negb (Js.includes (topic i) used)) interests in
  if (0 <? List.length available)%nat then
    r' <- Rand.random ;;
    Rand.ret (at_floor available (r' * Js.of_nat (List.length available)))
  else Rand.ret None.

Definition next_memory (b : Engine) (interests : list InterestNode)
    (current : InterestNode) (used : list string)
  : Rand.t (option InterestNode) :=
  followed <- follow_connection b current used ;;
  match followed with
  | Some n => Rand.ret (Some n)
  | None => random_jump interests used
  end.

(** The [for] loop of [generateMemoryChain], run at most [steps] more
    times; it stops at the first step that finds no next memory (the
    [break]). *)
Fixpoint chain_walk (steps : nat) (b : Engine)
    (interests : list InterestNode) (current : InterestNode)
    (used : list string) : Rand.t (list InterestNode) :=
  match steps with
  | O => Rand.ret []
  | S steps' =>
      next <- next_memory b interests current used ;;
      match next with
      | Some n =>
          more <- chain_walk steps' b interests n (used ++ [topic n]) ;;
          Rand.ret (n :: more)
      | None => Rand.ret []
      end
  end.

(** [None]: the start index was out of range and reading
    [current.topic] threw. *)
Definition generateMemoryChain (cfg : Config) (b : Engine)
    (interests : list InterestNode) : Rand.t (option (list InterestNode)) :=
  r <- Rand.random ;;
  match at_floor interests (r * Js.of_nat (List.length interests)) with
  | None => Rand.ret None
  | Some current =>
      more <- chain_walk (replayChainLength cfg - 1) b interests current
                         [topic current] ;;
      Rand.ret (Some (current :: more))
  end.

Definition isNewConnection (b : Engine) (topicA topicB : string) : bool :=
  match JsMap.get topicA (interests b) with
  | None => true
  | Some interest => negb (Js.includes topicB (connections interest))
  end.

Definition push_connection (t : string) (n : InterestNode) : InterestNode :=
  if Js.includes t (connections n) then n
  else set_connections (connections n ++ [t]) n.

Definition boost (amount : Q) (n : InterestNode) : InterestNode :=
  set_weight (Qmin (weight n + amount) 1) n.

(** The two endpoints are objects of the graph: each assignment is a
    mutation at the endpoint's key, in source order. *)
Definition createDreamConnection (cfg : Config) (now : Z)
    (topicA topicB : string) (similarity : Q)
    (st : Engine * list DiscoveredConnection)
  : Engine * list DiscoveredConnection :=
  let '(b, discovered) := st in
  match JsMap.get topicA (interests b), JsMap.get topicB (interests b) with
  | Some _, Some _ =>
      let m1 := JsMap.modify topicA (push_connection topicB) (interests b) in
      let m2 := JsMap.modify topicB (push_connection topicA) m1 in
      let m3 :=
        JsMap.modify topicA (boost (serendipityBoost cfg * (5 # 10))) m2 in
      let m4 :=
        JsMap.modify topicB (boost (serendipityBoost cfg * (5 # 10))) m3 in
      let m5 :=
        JsMap.modify topicA
          (fun n => set_dreamConnections
                      (dreamConnections n ++ [(topicB, now)]) n) m4 in
      (mkEngine m5 (connectionLog b),
       discovered ++ [mkDiscovered topicA topicB similarity now])
  | _, _ => st
  end.

Definition strengthenConnection (topicA topicB : string) (b : Engine)
  : Engine :=
  match JsMap.get topicA (interests b), JsMap.get topicB (interests b) with
  | Some _, Some _ =>
      mkEngine
        (JsMap.modify topicB (boost (5 # 100))
           (JsMap.modify topicA (boost (5 # 100)) (interests b)))
        (connectionLog b)
  | _, _ => b
  end.

(** [topicFrequency.set(t, (topicFrequency.get(t) || 0) + 1)] *)
Definition count_topic (freq : JsMap.t nat) (t : string) : JsMap.t nat :=
  JsMap.set t (match JsMap.get t freq with Some c => c | None => 0 end + 1)%nat
            freq.

Definition generateInsights (chains : list (list InterestNode))
  : list Insight :=
  let topicFrequency :=
    fold_left (fun freq chain => fold_left count_topic (map topic chain) freq)
              chains JsMap.empty in
  let themes :=
    flat_map (fun e => if (2 <=? snd e)%nat then [Theme (fst e) (snd e)]
                       else []) topicFrequency in
  let bridges :=
    flat_map
      (fun chain =>
         if (4 <=? List.length chain)%nat then
           match chain, nth_error chain (List.length chain - 1),
                 nth_error chain (List.length chain / 2) with
           | first :: _, Some last, Some bridge =>
               [Bridge (topic first) (topic last) (topic bridge)]
           | _, _, _ => []
           end
         else []) chains in
  firstn 5 (themes ++ bridges).

(** What the chain loop of [dream] carries from one chain to the next. *)
Record Running := mkRunning {
  run_brain : Engine;
  run_discovered : list DiscoveredConnection;
  run_chains : list (list InterestNode);
  run_new : list PotentialConnection;
  run_strengthened : list PotentialConnection
}.

(** [for (const conn of connections) ...] *)
Definition apply_connection (cfg : Config) (now : Z) (st : Running)
    (conn : PotentialConnection) : Running :=
  if isNewConnection (run_brain st) (pc_from conn) (pc_to conn) then
    let '(b', discovered') :=
      createDreamConnection cfg now (pc_from conn) (pc_to conn)
        (pc_similarity conn) (run_brain st, run_discovered st) in
    mkRunning b' discovered' (run_chains st) (run_new st ++ [conn])
              (run_strengthened st)
  else
    mkRunning (strengthenConnection (pc_from conn) (pc_to conn)
                                    (run_brain st))
              (run_discovered st) (run_chains st) (run_new st)
              (run_strengthened st ++ [conn]).

(** The chain loop, [count] chains still to replay.  The array
    [interests] of the source holds the graph's node objects; read at
    the start of an iteration they are the current values of the
    graph, in the same order, as a dream adds and removes no node.
    The left component of the result tells whether the loop completed
    ([false]: a chain generation threw). *)
Fixpoint dream_chains (cfg : Config) (now : Z)
    (explorer : option (list Discovery)) (count : nat) (st : Running)
  : Rand.t (bool * Running) :=
  match count with
  | O => Rand.ret (true, st)
  | S count' =>
      generated <- generateMemoryChain cfg (run_brain st)
                     (JsMap.values (Brain.interests (run_brain st))) ;;
      match generated with
      | None => Rand.ret (false, st)
      | Some chain =>
          connections <- analyzeChainForConnections cfg now explorer chain ;;
          dream_chains cfg now explorer count'
            (fold_left (apply_connection cfg now) connections
               (mkRunning (run_brain st) (run_discovered st)
                          (run_chains st ++ [chain]) (run_new st)
                          (run_strengthened st)))
      end
  end.

(** [dream()], with no visualization callback installed: the body then
    runs to its [return] without suspending. *)
Definition dream (cfg : Config) (now : Z)
    (explorer : option (list Discovery)) (d : DreamState)
    (brain : option Engine)
  : Rand.t (DreamState * option Engine * DreamResult) :=
  match isDreaming d, brain with
  | true, _ | _, None =>
      Rand.ret (d, brain, Failure AlreadyDreamingOrNoBrain)
  | false, Some b =>
      let interests := JsMap.values (Brain.interests b) in
      if (List.length interests <? 3)%nat then
        Rand.ret (mkDreamState (dreamLog d) (discoveredConnections d) false,
                  brain, Failure NeedThreeInterests)
      else
        '(completed, st) <-
           dream_chains cfg now explorer (chainsPerDream cfg)
             (mkRunning b (discoveredConnections d) [] [] []) ;;
        if completed then
          let dreamSession :=
            mkSession now now (run_chains st) (run_new st)
                      (run_strengthened st)
                      (generateInsights (run_chains st)) in
          Rand.ret (mkDreamState (dreamLog d ++ [dreamSession])
                                 (run_discovered st) false,
                    Some (run_brain st), Success dreamSession)
        else
          Rand.ret (mkDreamState (dreamLog d) (run_discovered st) true,
                    Some (run_brain st), Thrown)
  end.

End Dreamer.

(** ** genetics.js: strategy evolution *)

Module Genetics.
Local Open Scope rand_scope.

Record Config := mkConfig {
  populationSize : nat;
  mutationRate : Q;
  crossoverRate : Q;
  elitismCount : nat;
  generationsPerCycle : nat;
  fitnessDecay : Q
}.

Definition default_config : Config :=
  {| populationSize := 10;
     mutationRate := 15 # 100;
     crossoverRate := 7 # 10;
     elitismCount := 2;
     generationsPerCycle := 5;
     fitnessDecay := 95 # 100 |}.

Record ApiPreferences := mkApi {
  wikipedia : Q;
  hackerNews : Q;
  reddit : Q;
  openLibrary : Q
}.

(** The fields are in the key order of the object literal, which is the
    order [Object.keys] enumerates. *)
Record Genes := mkGenes {
  explorationBias : Q;
  breadthPreference : Q;
  recencyWeight : Q;
  connectionAffinity : Q;
  noveltySeeking : Q;
  apiPreferences : ApiPreferences;
  timePreference : Q;
  riskTolerance : Q;
  memoryInfluence : Q;
  serendipityFactor : Q
}.

(** [generateId()] is [strat_<Date.now()>_<random digits>]: an id is the
    clock value and the draw it was printed from. *)
Definition Id : Type := (Z * Q)%type.

Record Strategy := mkStrategy {
  id : Id;
  generation : Z;
  createdAt : Z;
  fitness : Q;
  explorations : Z;
  discoveries : Z;
  genes : Genes;
  lastUsed : option Z
}.

Record HistoryEntry := mkHistory {
  h_generation : Z;
  h_timestamp : Z;
  h_bestFitness : Q;
  h_averageFitness : Q;
  h_bestStrategy : Id
}.

Record Evolution := mkEvolution {
  population : list Strategy;
  current_generation : Z;          (* this.generation *)
  evolutionHistory : list HistoryEntry;
  bestStrategy : option Strategy
}.

(** What [evolve()] returns. *)
Inductive EvolveResult :=
| NotPerformed                     (* [return;] *)
| NewGeneration (generation : Z) (population : list Strategy)
                (best : option Strategy)
| Thrown.                          (* a TypeError on a missing parent *)

Definition generateId (now : Z) : Rand.t Id :=
  r <- Rand.random ;; Rand.ret (now, r).

Definition createRandomStrategy (now : Z) (gen : Z) : Rand.t Strategy :=
  i <- generateId now ;;
  g1 <- Rand.random ;; g2 <- Rand.random ;; g3 <- Rand.random ;;
  g4 <- Rand.random ;; g5 <- Rand.random ;;
  a1 <- Rand.random ;; a2 <- Rand.random ;; a3 <- Rand.random ;;
  a4 <- Rand.random ;;
  g6 <- Rand.random ;; g7 <- Rand.random ;; g8 <- Rand.random ;;
  g9 <- Rand.random ;;
  Rand.ret (mkStrategy i gen now 0 0 0
              (mkGenes g1 g2 g3 g4 g5 (mkApi a1 a2 a3 a4) g6 g7 g8 g9)
              None).

Fixpoint initialize_loop (now : Z) (gen : Z) (count : nat)
  : Rand.t (list Strategy) :=
  match count with
  | O => Rand.ret []
  | S count' =>
      s <- createRandomStrategy now gen ;;
      rest <- initialize_loop now gen count' ;;
      Rand.ret (s :: rest)
  end.

Definition initializePopulation (cfg : Config) (now : Z) (e : Evolution)
  : Rand.t Evolution :=
  pop <- initialize_loop now (current_generation e) (populationSize cfg) ;;
  Rand.ret (mkEvolution pop (current_generation e) (evolutionHistory e)
                        (bestStrategy e)).

(** [population.sort((a, b) => b.fitness - a.fitness)]: a stable sort,
    highest fitness first. *)
Fixpoint insert_by_fitness (x : Strategy) (l : list Strategy)
  : list Strategy :=
  match l with
  | [] => [x]
  | y :: l' =>
      if Js.ltb (fitness x) (fitness y) then y :: insert_by_fitness x l'
      else x :: l
  end.

Definition sort_by_fitness (l : list Strategy) : list Strategy :=
  fold_right insert_by_fitness [] l.

(** [Math.min(...xs)] of a non-empty array. *)
Definition min_of (x : Q) (xs : list Q) : Q := fold_left Qmin xs x.

(** The roulette loop: [random] is what is left of the spin. *)
Fixpoint spin (random : Q) (adjusted : list (Strategy * Q))
  : option Strategy :=
  match adjusted with
  | [] => None
  | (strategy, fit) :: rest =>
      let random' := random - fit in
      if Js.leb random' 0 then Some strategy else spin random' rest
  end.

(** [None] is [undefined], the head of an empty population. *)
Definition selectParent (population : list Strategy)
  : Rand.t (option Strategy) :=
  match population with
  | [] => r <- Rand.random ;; Rand.ret None
  | s0 :: rest =>
      let minFitness := min_of (fitness s0) (map fitness rest) in
      let adjusted :=
        map (fun s => (s, fitness s - minFitness + 1)) population in
      let totalFitness :=
        fold_left (fun sum sf => sum + snd sf) adjusted 0 in
      r <- Rand.random ;;
      Rand.ret (match spin (r * totalFitness) adjusted with
                | Some s => Some s
                | None => Some s0
                end)
  end.

Definition pick (p1 p2 : Q) : Rand.t Q :=
  r <- Rand.random ;; Rand.ret (if Js.ltb r (5 # 10) then p1 else p2).

Definition crossover (now : Z) (gen : Z) (parent1 parent2 : Strategy)
  : Rand.t Strategy :=
  offspring <- createRandomStrategy now gen ;;
  let g1 := genes parent1 in
  let g2 := genes parent2 in
  c1 <- pick (explorationBias g1) (explorationBias g2) ;;
  c2 <- pick (breadthPreference g1) (breadthPreference g2) ;;
  c3 <- pick (recencyWeight g1) (recencyWeight g2) ;;
  c4 <- pick (connectionAffinity g1) (connectionAffinity g2) ;;
  c5 <- pick (noveltySeeking g1) (noveltySeeking g2) ;;
  a1 <- pick (wikipedia (apiPreferences g1)) (wikipedia (apiPreferences g2)) ;;
  a2 <- pick (hackerNews (apiPreferences g1))
             (hackerNews (apiPreferences g2)) ;;
  a3 <- pick (reddit (apiPreferences g1)) (reddit (apiPreferences g2)) ;;
  a4 <- pick (openLibrary (apiPreferences g1))
             (openLibrary (apiPreferences g2)) ;;
  c6 <- pick (timePreference g1) (timePreference g2) ;;
  c7 <- pick (riskTolerance g1) (riskTolerance g2) ;;
  c8 <- pick (memoryInfluence g1) (memoryInfluence g2) ;;
  c9 <- pick (serendipityFactor g1) (serendipityFactor g2) ;;
  Rand.ret (mkStrategy (id offspring) (generation offspring)
              (createdAt offspring) (fitness offspring)
              (explorations offspring) (discoveries offspring)
              (mkGenes c1 c2 c3 c4 c5 (mkApi a1 a2 a3 a4) c6 c7 c8 c9)
              (lastUsed offspring)).

(** The scalar branch of [mutate]. *)
Definition mutate_scalar (cfg : Config) (g : Q) : Rand.t Q :=
  r <- Rand.random ;;
  if Js.ltb r (mutationRate cfg) then
    m <- Rand.random ;;
    let mutation := (m - (5 # 10)) * (3 # 10) in
    Rand.ret (Qmax 0 (Qmin 1 (g + mutation)))
  else Rand.ret g.

(** The inner [forEach] over the entries of [apiPreferences]. *)
Definition mutate_api_entry (cfg : Config) (a : Q) : Rand.t Q :=
  r <- Rand.random ;;
  if Js.ltb r (mutationRate cfg) then Rand.random else Rand.ret a.

Definition mutate_api (cfg : Config) (a : ApiPreferences)
  : Rand.t ApiPreferences :=
  r <- Rand.random ;;
  if Js.ltb r (mutationRate cfg) then
    a1 <- mutate_api_entry cfg (wikipedia a) ;;
    a2 <- mutate_api_entry cfg (hackerNews a) ;;
    a3 <- mutate_api_entry cfg (reddit a) ;;
    a4 <- mutate_api_entry cfg (openLibrary a) ;;
    Rand.ret (mkApi a1 a2 a3 a4)
  else Rand.ret a.

Definition mutate (cfg : Config) (strategy : Strategy) : Rand.t Strategy :=
  let g := genes strategy in
  c1 <- mutate_scalar cfg (explorationBias g) ;;
  c2 <- mutate_scalar cfg (breadthPreference g) ;;
  c3 <- mutate_scalar cfg (recencyWeight g) ;;
  c4 <- mutate_scalar cfg (connectionAffinity g) ;;
  c5 <- mutate_scalar cfg (noveltySeeking g) ;;
  api <- mutate_api cfg (apiPreferences g) ;;
  c6 <- mutate_scalar cfg (timePreference g) ;;
  c7 <- mutate_scalar cfg (riskTolerance g) ;;
  c8 <- mutate_scalar cfg (memoryInfluence g) ;;
  c9 <- mutate_scalar cfg (serendipityFactor g) ;;
  Rand.ret (mkStrategy (id strategy) (generation strategy)
              (createdAt strategy) (fitness strategy)
              (explorations strategy) (discoveries strategy)
              (mkGenes c1 c2 c3 c4 c5 api c6 c7 c8 c9)
              (lastUsed strategy)).

(** One iteration of the [while] loop of [evolve].  A parent is
    [undefined] only when the population is empty, and then both are:
    [crossover] and the JSON round trip throw on it ([None]). *)
Definition make_offspring (cfg : Config) (now : Z) (gen : Z)
    (population : list Strategy) : Rand.t (option Strategy) :=
  parent1 <- selectParent population ;;
  parent2 <- selectParent population ;;
  r <- Rand.random ;;
  match parent1, parent2 with
  | Some p1, Some p2 =>
      offspring <-
        (if Js.ltb r (crossoverRate cfg) then crossover now gen p1 p2
         else Rand.ret p1) ;;
      offspring <- mutate cfg offspring ;;
      i <- generateId now ;;
      Rand.ret (Some (mkStrategy i (gen + 1) now 0 0 0 (genes offspring)
                                 (lastUsed offspring)))
  | _, _ => Rand.ret None
  end.

(** [while (newPopulation.length < populationSize)]: each iteration adds
    one strategy, so [missing] iterations are run. *)
Fixpoint fill (cfg : Config) (now : Z) (gen : Z)
    (population : list Strategy) (missing : nat)
  : Rand.t (option (list Strategy)) :=
  match missing with
  | O => Rand.ret (Some [])
  | S missing' =>
      o <- make_offspring cfg now gen population ;;
      match o with
      | None => Rand.ret None
      | Some offspring =>
          rest <- fill cfg now gen population missing' ;;
          Rand.ret (match rest with
                    | Some l => Some (offspring :: l)
                    | None => None
                    end)
      end
  end.

Definition set_generation (g : Z) (s : Strategy) : Strategy :=
  mkStrategy (id s) g (createdAt s) (fitness s) (explorations s)
             (discoveries s) (genes s) (lastUsed s).

Definition evolve (cfg : Config) (now : Z) (e : Evolution)
  : Rand.t (Evolution * EvolveResult) :=
  if (List.length (population e) <? 2)%nat then Rand.ret (e, NotPerformed)
  else
    let sorted := sort_by_fitness (population e) in
    let gen := current_generation e in
    let elites :=
      map (set_generation (gen + 1)) (firstn (elitismCount cfg) sorted) in
    filled <- fill cfg now gen sorted
                   (populationSize cfg - List.length elites) ;;
    match filled, sorted with
    | Some offspring, best :: _ =>
        let newPopulation := elites ++ offspring in
        let entry :=
          mkHistory gen now (fitness best)
            (fold_left (fun sum s => sum + fitness s) sorted 0
             / Js.of_nat (List.length sorted))
            (id best) in
        Rand.ret
          (mkEvolution newPopulation (gen + 1)
                       (evolutionHistory e ++ [entry])
                       (hd_error newPopulation),
           NewGeneration (gen + 1) newPopulation (hd_error newPopulation))
    | _, _ =>
        Rand.ret (mkEvolution sorted gen (evolutionHistory e)
                              (bestStrategy e), Thrown)
    end.

(** [this.population[Math.floor(Math.random() * this.population.length)]],
    [None] being [undefined]. *)
Definition draw_member (population : list Strategy)
  : Rand.t (option Strategy) :=
  r <- Rand.random ;;
  Rand.ret (Dreamer.at_floor population
              (r * Js.of_nat (List.length population))).

(** The entries of an array that are not [undefined]. *)
Definition defined (t : list (option Strategy)) : list Strategy :=
  flat_map (fun o => match o with Some s => [s] | None => [] end) t.

(** [tournament.sort((a, b) => b.fitness - a.fitness)]: [sort] moves
    the [undefined] entries to the end without comparing them. *)
Definition sort_tournament (t : list (option Strategy))
  : list (option Strategy) :=
  map Some (sort_by_fitness (defined t))
  ++ filter (fun o => match o with Some _ => false | None => true end) t.

(** [tournament[i] || tournament[0]] *)
Definition or_first (tournament : list (option Strategy)) (i : nat)
  : option Strategy :=
  match nth i tournament None with
  | Some s => Some s
  | None => nth 0 tournament None
  end.

Definition selectStrategy (cfg : Config) (now : Z) (e : Evolution)
  : Rand.t (Evolution * option Strategy) :=
  e1 <- (if (List.length (population e) =? 0)%nat
         then initializePopulation cfg now e else Rand.ret e) ;;
  t1 <- draw_member (population e1) ;;
  t2 <- draw_member (population e1) ;;
  t3 <- draw_member (population e1) ;;
  let tournament := sort_tournament [t1; t2; t3] in
  rand <- Rand.random ;;
  let selected :=
    if Js.ltb rand (7 # 10) then nth 0 tournament None
    else if Js.ltb rand (9 # 10) then or_first tournament 1
         else or_first tournament 2 in
  Rand.ret (e1, selected).

(** The names [applyStrategy] sorts, with the preference of each:
    [prefs[name] || 0]. *)
Definition api_preference (prefs : ApiPreferences) (name : string) : Q :=
  if String.eqb name "wikipedia" then wikipedia prefs
  else if String.eqb name "hackerNews" then hackerNews prefs
  else if String.eqb name "reddit" then reddit prefs
  else if String.eqb name "openLibrary" then openLibrary prefs
  else 0.

(** [apis.sort((a, b) => (prefs[b] || 0) - (prefs[a] || 0))]: a stable
    sort, preferred first. *)
Fixpoint insert_by_preference (prefs : ApiPreferences) (x : string)
    (l : list string) : list string :=
  match l with
  | [] => [x]
  | y :: l' =>
      if Js.ltb (api_preference prefs x) (api_preference prefs y)
      then y :: insert_by_preference prefs x l'
      else x :: l
  end.

(** The closure [selectApiOrder] of [applyStrategy(strategy)]. *)
Definition selectApiOrder (strategy : Strategy) : list string :=
  fold_right (insert_by_preference (apiPreferences (genes strategy))) []
    ["wikipedia"; "hackerNews"; "reddit"; "openLibrary"]%string.

(** The closure [resultLimit]. *)
Definition resultLimit (strategy : Strategy) : Z :=
  Qfloor (3 + breadthPreference (genes strategy) * 7).

(** The array [traits] of [getDominantTrait]. *)
Definition traits (g : Genes) : list (string * Q) :=
  [("Explorer", explorationBias g);
   ("Deep Diver", 1 - breadthPreference g);
   ("Connector", connectionAffinity g);
   ("Novelty Seeker", noveltySeeking g);
   ("Risk Taker", riskTolerance g);
   ("Random Walker", serendipityFactor g)]%string.

(** [traits.reduce((max, t) => t.value > max.value ? t : max).name]: the
    reduction starts from the first trait. *)
Definition getDominantTrait (strategy : Strategy) : string :=
  match traits (genes strategy) with
  | [] => EmptyString
  | t0 :: rest =>
      fst (fold_left (fun max t => if Js.gtb (snd t) (snd max) then t else max)
                     rest t0)
  end.

End Genetics.

(** ** explorer.js: the store of discoveries *)

Module Explorer.

(** An entry of [this.discoveries], as [processResults] leaves it; the
    API-specific [metadata] is not read by the explorer. *)
Record Discovery := mkDiscovery {
  id : string;
  title : string;
  description : string;
  url : string;
  source : string;
  type : string;
  relevance : Q;
  discoveredAt : Z;
  searchTopic : string;
  keywords : list string
}.

Inductive Status := Succeeded | Failed.   (* 'success' | 'error' *)

Record LogEntry := mkLogEntry {
  log_timestamp : Z;
  log_topic : string;
  log_api : string;
  log_status : Status;
  log_resultCount : nat;
  log_error : option string
}.

Record State := mkState {
  discoveries : list Discovery;
  explorationLog : list LogEntry;
  isExploring : bool
}.

(** [calculateRelevance(title, topic)]; an argument is [None] when it
    is [undefined] or [null], which [!title] treats as the empty
    string. *)
Definition calculateRelevance (title topic : option string) : Q :=
  match title, topic with
  | Some (String c t), Some (String c' t') =>
      let titleWords :=
        Js.set_of (Js.split_ws (Js.toLowerCase (String c t))) in
      let topicWords := Js.split_ws (Js.toLowerCase (String c' t')) in
      let matches :=
        List.length (filter (fun word => Js.includes word titleWords)
                            topicWords) in
      if (0 <? List.length topicWords)%nat
      then Js.of_nat matches / Js.of_nat (List.length topicWords)
      else 0
  | _, _ => 0
  end.

(** [addDiscoveries(newDiscoveries)]: the store, and the graph when
    there is one. *)
Definition addDiscoveries (bcfg : Brain.Config) (now : Z)
    (newDiscoveries : list Discovery) (x : State)
    (brain : option Brain.Engine) : State * option Brain.Engine :=
  let unshifted := newDiscoveries ++ discoveries x in
  let kept :=
    if (100 <? List.length unshifted)%nat then firstn 100 unshifted
    else unshifted in
  let brain' :=
    match brain with
    | Some b =>
        Some (fold_left
                (fun b1 discovery =>
                   fold_left
                     (fun b2 keyword =>
                        fst (Brain.addInterest bcfg now keyword (5 # 100) b2))
                     (firstn 3 (keywords discovery)) b1)
                newDiscoveries b)
    | None => None
    end in
  (mkState kept (explorationLog x) (isExploring x), brain').

(** The argument of [import(data)]. *)
Record Snapshot := mkSnapshot {
  snap_version : Z;
  snap_discoveries : list Discovery;
  snap_explorationLog : option (list LogEntry)
}.

Inductive ImportResult :=
| Imported (newDiscoveries : nat)
| IncompatibleVersion.   (* Error('Incompatible discoveries version') *)

Definition import (data : Snapshot) (x : State) : State * ImportResult :=
  if (snap_version data =? 1)%Z then
    let existingIds := Js.set_of (map id (discoveries x)) in
    let newDiscoveries :=
      filter (fun d => negb (Js.includes (id d) existingIds))
             (snap_discoveries data) in
    (mkState (firstn 100 (newDiscoveries ++ discoveries x))
             (match snap_explorationLog data with
              | Some l => l
              | None => explorationLog x
              end)
             (isExploring x),
     Imported (List.length newDiscoveries))
  else (x, IncompatibleVersion).

End Explorer.

(** ** autonomy.js: the decision engine *)

Module Autonomy.
Local Open Scope rand_scope.

Record Config := mkConfig {
  tickInterval : Z;
  exploreInterval : Z;
  dreamInterval : Z;
  evolveInterval : Z;
  seedInterval : Z;
  minInterestsForDream : nat;
  minInterestsForEvolve : nat;
  maxInterests : nat;
  autoStart : bool;
  seedOnEmpty : bool
}.

Definition default_config : Config :=
  {| tickInterval := 10000;
     exploreInterval := 2 * 60 * 1000;
     dreamInterval := 10 * 60 * 1000;
     evolveInterval := 5 * 60 * 1000;
     seedInterval := 15 * 60 * 1000;
     minInterestsForDream := 3;
     minInterestsForEvolve := 2;
     maxInterests := 30;
     autoStart := true;
     seedOnEmpty := true |}.

(** [this.lastActions] *)
Record LastActions := mkLastActions {
  last_explore : Z;
  last_dream : Z;
  last_evolve : Z;
  last_seed : Z
}.

Inductive Action := Seed | Explore | Dream | Evolve.

Definition trendingTopics : list string :=
  ["artificial intelligence"; "machine learning"; "neural networks";
   "quantum computing"; "space exploration"; "climate change";
   "renewable energy"; "biotechnology"; "robotics"; "blockchain";
   "virtual reality"; "augmented reality"; "cybersecurity";
   "gene editing"; "nanotechnology"; "fusion energy";
   "autonomous vehicles"; "brain-computer interface"; "CRISPR";
   "dark matter"; "exoplanets"; "consciousness"; "emergence"]%string.

(** [window.brain?.interests?.size || 0] *)
Definition interest_count (brain : option Brain.Engine) : nat :=
  match brain with
  | Some b => JsMap.size (Brain.interests b)
  | None => 0
  end.

(** [makeDecision(now)]; [None] is [null].  The two random draws are
    the right operands of [||] and [&&]: they are made only when the
    left operand does not decide. *)
Definition makeDecision (cfg : Config) (now : Z) (last : LastActions)
    (brain : option Brain.Engine) : Rand.t (option Action) :=
  let interests := interest_count brain in
  if (interests =? 0)%nat && (10000 <? now - last_seed last)%Z
  then Rand.ret (Some Seed)
  else
    explore <-
      (if (exploreInterval cfg <? now - last_explore last)%Z then
         if (0 <? interests)%nat then Rand.ret true
         else r <- Rand.random ;; Rand.ret (Js.gtb r (5 # 10))
       else Rand.ret false) ;;
    if explore then Rand.ret (Some Explore)
    else if (dreamInterval cfg <? now - last_dream last)%Z
            && (minInterestsForDream cfg <=? interests)%nat
    then Rand.ret (Some Dream)
    else if (evolveInterval cfg <? now - last_evolve last)%Z
            && (minInterestsForEvolve cfg <=? interests)%nat
    then Rand.ret (Some Evolve)
    else
      seed <-
        (if (seedInterval cfg <? now - last_seed last)%Z then
           if (interests <? maxInterests cfg)%nat
           then r <- Rand.random ;; Rand.ret (Js.gtb r (7 # 10))
           else Rand.ret false
         else Rand.ret false) ;;
      Rand.ret (if seed then Some Seed else None).

(** [unusedTopics.splice(idx, 1)[0]] with [idx = Math.floor(x)]: the
    element removed, [None] being [undefined], and what is left of the
    array. *)
Definition splice_floor (unused : list string) (x : Q)
  : option string * list string :=
  let i := Qfloor x in
  if (i <? 0)%Z then (None, unused)
  else (nth_error unused (Z.to_nat i),
        firstn (Z.to_nat i) unused ++ skipn (S (Z.to_nat i)) unused).

(** The selection loop of [actionSeed], at its iteration [i]: the bound
    [Math.min(count, unusedTopics.length)] is read anew at each
    iteration, from the array the picks have shortened.  The loop runs
    at most [count] times; [steps] is the number of iterations of
    [count] that are left. *)
Fixpoint select_topics (steps i count : nat) (unused : list string)
  : Rand.t (list (option string)) :=
  match steps with
  | O => Rand.ret []
  | S steps' =>
      if (i <? Nat.min count (List.length unused))%nat then
        r <- Rand.random ;;
        let '(picked, unused') :=
          splice_floor unused (r * Js.of_nat (List.length unused)) in
        rest <- select_topics steps' (S i) count unused' ;;
        Rand.ret (picked :: rest)
      else Rand.ret []
  end.

(** [selected.forEach(topic => window.brain.addInterest(topic, 0.25))];
    [None]: the call threw, on a missing graph or on an [undefined]
    topic. *)
Fixpoint seed_all (bcfg : Brain.Config) (now : Z)
    (selected : list (option string)) (brain : option Brain.Engine)
  : option (option Brain.Engine) :=
  match selected with
  | [] => Some brain
  | picked :: rest =>
      match picked, brain with
      | Some topic, Some b =>
          seed_all bcfg now rest
            (Some (fst (Brain.addInterest bcfg now topic (25 # 100) b)))
      | _, _ => None
      end
  end.

(** [actionSeed()], on the graph; the narration and the calls to the
    user interface are not part of the model.  The result is [None]
    when the action threw. *)
Definition actionSeed (bcfg : Brain.Config) (now : Z)
    (brain : option Brain.Engine)
  : Rand.t (option (option Brain.Engine)) :=
  let interests := interest_count brain in
  let count := if (interests =? 0)%nat then 3%nat else 1%nat in
  let unusedTopics :=
    filter (fun t => match brain with
                     | Some b => negb (JsMap.has t (Brain.interests b))
                     | None => true
                     end) trendingTopics in
  if (List.length unusedTopics =? 0)%nat then Rand.ret (Some brain)
  else
    selected <- select_topics count 0 count unusedTopics ;;
    Rand.ret (seed_all bcfg now selected brain).

End Autonomy.

(** ** Concrete scenarios *)

Module Sample.
Import Brain.

(** Two related topics: "deep learning" is added ten milliseconds after
    "Machine Learning" and is linked to it on insertion. *)
Definition two_topics : Engine :=
  fst (addInterest default_config 10 "deep learning" (1 # 10)
         (fst (addInterest default_config 0 "Machine Learning" (1 # 10)
                           new_engine))).

(** Four topics linked in a square: "alpha beta" and "gamma delta"
    share no keyword, and each is linked to both "alpha gamma" and
    "beta delta". *)
Definition square : Engine :=
  fst (addInterest default_config 30 "gamma delta" (1 # 10)
    (fst (addInterest default_config 20 "beta delta" (1 # 10)
      (fst (addInterest default_config 10 "alpha gamma" (1 # 10)
        (fst (addInterest default_config 0 "alpha beta" (1 # 10)
                          new_engine))))))).

(** The same graph 4.6 seconds later, after one decay tick: "deep
    learning" has been forgotten and "machine learning" is left with
    weight 0.09. *)
Definition faded : Engine := applyDecay default_config 4600 two_topics.

(** A strategy with every gene equal to [g]. *)
Definition uniform_strategy (i : Z) (f g : Q) : Genetics.Strategy :=
  Genetics.mkStrategy (i, 0) 0 0 f 0 0
    (Genetics.mkGenes g g g g g (Genetics.mkApi g g g g) g g g g) None.

(** A population of three strategies, at generation 0. *)
Definition trio : Genetics.Evolution :=
  Genetics.mkEvolution
    [uniform_strategy 1 1 (1 # 4); uniform_strategy 2 2 (1 # 2);
     uniform_strategy 3 0 (3 # 4)]
    0 [] None.

End Sample.

(** ** Vocabulary of the properties *)

Module Spec.
Import Brain.

(** A node differs from another at most by its adjacency. *)
Definition relinked (x0 x : InterestNode) : Prop :=
  exists cs, x = set_connections cs x0.

(** The promotion score as the specification words it: 30% weight over
    [maxWeight], 30% connections over ten, 20% logarithmic access
    frequency, 20% linear recency over seven days. *)
Definition promotion_score_spec (log : Q -> Q) (now : Z)
    (node : InterestNode) : Q :=
  let sevenDays := 604800000 in
  let age := Js.of_Z (now - lastActive node) in
  (30 # 100) * Qmin (weight node / maxWeight default_config) 1
  + (30 # 100) * Qmin (Js.of_nat (List.length (connections node)) / 10) 1
  + (20 # 100) * Qmin (log (Js.of_Z (accessCount node + 1)) / log 51) 1
  + (20 # 100) * Qmax (1 - age / sevenDays) 0.

(** Two nodes with the same core flag and memory type. *)
Definition same_status (n n' : InterestNode) : Prop :=
  isCore n' = isCore n /\ memoryType n' = memoryType n.

(** Every node of [m'] was in [m] under the same key, with the same
    status. *)
Definition carried (m m' : JsMap.t InterestNode) : Prop :=
  forall k n',
    JsMap.get k m' = Some n' ->
    exists n, JsMap.get k m = Some n /\ same_status n n'.

(** Every node of [m'] was in [m] with the same status, or is a new
    node that is not flagged core. *)
Definition grown (m m' : JsMap.t InterestNode) : Prop :=
  forall k n',
    JsMap.get k m' = Some n' ->
    (exists n, JsMap.get k m = Some n /\ same_status n n')
    \/ (JsMap.get k m = None /\ isCore n' = false).

(** The same keys, and every node with the status it had. *)
Definition steady (m m' : JsMap.t InterestNode) : Prop :=
  JsMap.keys m' = JsMap.keys m /\ carried m m'.

(** The adjacency of a node stored under [k] is a set of other topics,
    and the node carries its key as its topic. *)
Definition links_ok_node (k : string) (n : InterestNode) : Prop :=
  topic n = k /\ NoDup (connections n) /\ ~ In k (connections n).

(** A property of every node of a graph, given its key. *)
Definition entries (P : string -> InterestNode -> Prop)
    (m : JsMap.t InterestNode) : Prop :=
  Forall (fun e => P (fst e) (snd e)) m.

Definition links_ok (m : JsMap.t InterestNode) : Prop :=
  entries links_ok_node m.


(** A memory that joins a chain has a topic that is not in it yet. *)
Definition fresh (used : list string) (o : option InterestNode) : Prop :=
  forall n, o = Some n -> ~ In (topic n) used.

(** The data-model invariant of the graph: the keys are distinct and a
    node flagged [isCore] has memory type [Core]. *)
Definition graph_ok (b : Engine) : Prop :=
  NoDup (JsMap.keys (interests b))
  /\ forall k n,
       JsMap.get k (interests b) = Some n ->
       isCore n = true -> memoryType n = Core.

(** The operations of the graph itself; both end with a re-evaluation
    of the core status. *)
Inductive reevaluation (cfg : Config) : Engine -> Engine -> Prop :=
| reev_add (now : Z) (topic : string) (strength : Q) (b : Engine) :
    reevaluation cfg b (fst (addInterest cfg now topic strength b))
| reev_decay (now : Z) (b : Engine) :
    reevaluation cfg b (applyDecay cfg now b).

(** The operations that act on the graph: its own, a consolidation
    pass and a dream session.  ([load], [import] and [reset] replace the
    graph by a stored snapshot or by nothing; they are not steps of this
    relation.) *)
Inductive operation (cfg : Config) : Engine -> Engine -> Prop :=
| op_graph (b b' : Engine) :
    reevaluation cfg b b' -> operation cfg b b'
| op_consolidate (log : Q -> Q) (mcfg : Memory.Config) (now : Z)
    (c c' : Memory.Consolidator) (b b' : Engine) (r : Memory.Results) :
    Memory.consolidate log mcfg now c (Some b) = (c', Some b', r) ->
    operation cfg b b'
| op_dream (dcfg : Dreamer.Config) (now : Z)
    (explorer : option (list Dreamer.Discovery))
    (d d' : Dreamer.DreamState) (b b' : Engine)
    (res : Dreamer.DreamResult) (rnd : nat -> Q) (n n' : nat) :
    Dreamer.dream dcfg now explorer d (Some b) rnd n
    = (d', Some b', res, n') ->
    operation cfg b b'.

(** The graphs the operations lead to from the engine as constructed. *)
Inductive reachable (cfg : Config) : Engine -> Prop :=
| reach_new : reachable cfg new_engine
| reach_step (b b' : Engine) :
    reachable cfg b -> operation cfg b b' -> reachable cfg b'.

(** A property of every result a random computation can return from
    the source [rnd], wherever it starts reading it. *)
Definition always {A : Type} (rnd : nat -> Q) (m : Rand.t A)
    (P : A -> Prop) : Prop :=
  forall n, P (fst (m rnd n)).

(** Gene values are in the unit interval. *)
Definition in_unit (x : Q) : Prop := 0 <= x /\ x <= 1.

Definition genes_in_unit (g : Genetics.Genes) : Prop :=
  in_unit (Genetics.explorationBias g)
  /\ in_unit (Genetics.breadthPreference g)
  /\ in_unit (Genetics.recencyWeight g)
  /\ in_unit (Genetics.connectionAffinity g)
  /\ in_unit (Genetics.noveltySeeking g)
  /\ in_unit (Genetics.wikipedia (Genetics.apiPreferences g))
  /\ in_unit (Genetics.hackerNews (Genetics.apiPreferences g))
  /\ in_unit (Genetics.reddit (Genetics.apiPreferences g))
  /\ in_unit (Genetics.openLibrary (Genetics.apiPreferences g))
  /\ in_unit (Genetics.timePreference g)
  /\ in_unit (Genetics.riskTolerance g)
  /\ in_unit (Genetics.memoryInfluence g)
  /\ in_unit (Genetics.serendipityFactor g).

Definition population_in_unit (p : list Genetics.Strategy) : Prop :=
  Forall (fun s => genes_in_unit (Genetics.genes s)) p.

Definition api_in_unit (a : Genetics.ApiPreferences) : Prop :=
  in_unit (Genetics.wikipedia a) /\ in_unit (Genetics.hackerNews a)
  /\ in_unit (Genetics.reddit a) /\ in_unit (Genetics.openLibrary a).

(** What [selectParent] returns: a member of the population, and
    [undefined] only when there is none. *)
Definition parent_of (population : list Genetics.Strategy)
    (o : option Genetics.Strategy) : Prop :=
  match o with
  | Some s => In s population
  | None => population = []
  end.

(** A population ordered by fitness, fittest first. *)
Definition by_fitness (l : list Genetics.Strategy) : Prop :=
  StronglySorted (fun x y => Genetics.fitness y <= Genetics.fitness x) l.

(** A gene taken from one of two parents. *)
Definition from_parents (c p1 p2 : Q) : Prop := c = p1 \/ c = p2.

(** Uniform crossover: every gene of the child is the gene of a
    parent. *)
Definition inherits (c p1 p2 : Genetics.Genes) : Prop :=
  from_parents (Genetics.explorationBias c) (Genetics.explorationBias p1)
               (Genetics.explorationBias p2)
  /\ from_parents (Genetics.breadthPreference c)
                  (Genetics.breadthPreference p1)
                  (Genetics.breadthPreference p2)
  /\ from_parents (Genetics.recencyWeight c) (Genetics.recencyWeight p1)
                  (Genetics.recencyWeight p2)
  /\ from_parents (Genetics.connectionAffinity c)
                  (Genetics.connectionAffinity p1)
                  (Genetics.connectionAffinity p2)
  /\ from_parents (Genetics.noveltySeeking c) (Genetics.noveltySeeking p1)
                  (Genetics.noveltySeeking p2)
  /\ from_parents (Genetics.wikipedia (Genetics.apiPreferences c))
                  (Genetics.wikipedia (Genetics.apiPreferences p1))
                  (Genetics.wikipedia (Genetics.apiPreferences p2))
  /\ from_parents (Genetics.hackerNews (Genetics.apiPreferences c))
                  (Genetics.hackerNews (Genetics.apiPreferences p1))
                  (Genetics.hackerNews (Genetics.apiPreferences p2))
  /\ from_parents (Genetics.reddit (Genetics.apiPreferences c))
                  (Genetics.reddit (Genetics.apiPreferences p1))
                  (Genetics.reddit (Genetics.apiPreferences p2))
  /\ from_parents (Genetics.openLibrary (Genetics.apiPreferences c))
                  (Genetics.openLibrary (Genetics.apiPreferences p1))
                  (Genetics.openLibrary (Genetics.apiPreferences p2))
  /\ from_parents (Genetics.timePreference c) (Genetics.timePreference p1)
                  (Genetics.timePreference p2)
  /\ from_parents (Genetics.riskTolerance c) (Genetics.riskTolerance p1)
                  (Genetics.riskTolerance p2)
  /\ from_parents (Genetics.memoryInfluence c) (Genetics.memoryInfluence p1)
                  (Genetics.memoryInfluence p2)
  /\ from_parents (Genetics.serendipityFactor c)
                  (Genetics.serendipityFactor p1)
                  (Genetics.serendipityFactor p2).

(** A scalar gene after a mutation: in the unit interval and at most
    0.15 away from where it was. *)
Definition near (g g' : Q) : Prop :=
  in_unit g' /\ g - (15 # 100) <= g' /\ g' <= g + (15 # 100).

Definition scalars_near (g g' : Genetics.Genes) : Prop :=
  near (Genetics.explorationBias g) (Genetics.explorationBias g')
  /\ near (Genetics.breadthPreference g) (Genetics.breadthPreference g')
  /\ near (Genetics.recencyWeight g) (Genetics.recencyWeight g')
  /\ near (Genetics.connectionAffinity g) (Genetics.connectionAffinity g')
  /\ near (Genetics.noveltySeeking g) (Genetics.noveltySeeking g')
  /\ near (Genetics.timePreference g) (Genetics.timePreference g')
  /\ near (Genetics.riskTolerance g) (Genetics.riskTolerance g')
  /\ near (Genetics.memoryInfluence g) (Genetics.memoryInfluence g')
  /\ near (Genetics.serendipityFactor g) (Genetics.serendipityFactor g').

(** A strategy as [createRandomStrategy] makes it at the time [now], in
    the generation [gen]. *)
Definition newborn (now gen : Z) (s : Genetics.Strategy) : Prop :=
  Genetics.fitness s = 0
  /\ Genetics.explorations s = 0%Z
  /\ Genetics.discoveries s = 0%Z
  /\ Genetics.generation s = gen
  /\ Genetics.createdAt s = now
  /\ Genetics.lastUsed s = None.



(** The keyword array the dream engine reads off a node. *)
Definition keywords_of (node : InterestNode) : list string :=
  match keywords node with
  | Some k => k
  | None => Dreamer.extractKeywords (topic node)
  end.

(** The shared-connection ratio as the specification words it:
    [|connections(a) /\ connections(b)|
     / min(|connections(a)|, |connections(b)|, 1)]. *)
Definition sharedConnectionRatio_spec (a b : InterestNode) : Q :=
  Js.of_nat (Dreamer.sharedConnections a b)
  / Js.of_nat
      (Nat.min (Nat.min (List.length (Js.set_of (connections a)))
                        (List.length (Js.set_of (connections b)))) 1).

(** The dream similarity as the specification words it, [r] being the
    uniform draw. *)
Definition dream_similarity_spec (explorer : option (list Dreamer.Discovery))
    (a b : InterestNode) (r : Q) : Q :=
  (4 # 10) * jaccard (keywords_of a) (keywords_of b)
  + (3 # 10) * sharedConnectionRatio_spec a b
  + (2 # 10) * Dreamer.discoveryCooccurrence explorer a b
  + (1 # 10) * r.

(** The ratio the engine computes: the denominator is
    [max(1, min(|connections(a)|, |connections(b)|))]. *)
Definition sharedConnectionRatio (a b : InterestNode) : Q :=
  Js.of_nat (Dreamer.sharedConnections a b)
  / Js.of_nat
      (Nat.max 1 (Nat.min (List.length (Js.set_of (connections a)))
                          (List.length (Js.set_of (connections b))))).

Definition dream_similarity (explorer : option (list Dreamer.Discovery))
    (a b : InterestNode) (r : Q) : Q :=
  (4 # 10) * jaccard (keywords_of a) (keywords_of b)
  + (3 # 10) * sharedConnectionRatio a b
  + (2 # 10) * Dreamer.discoveryCooccurrence explorer a b
  + (1 # 10) * r.

(** The components of the state carried by the loop of
    [Memory.consolidate]. *)
Definition visit_brain
    (st : Memory.Consolidator * Engine
          * (list Memory.Promoted * list Memory.Forgotten))
  : Engine := snd (fst st).

Definition visit_forgotten
    (st : Memory.Consolidator * Engine
          * (list Memory.Promoted * list Memory.Forgotten))
  : list Memory.Forgotten := snd (snd st).

(** The adjacency is symmetric and closed: a topic listed by a node is
    the key of a node that lists it back. *)
Definition symmetric (m : JsMap.t InterestNode) : Prop :=
  forall k n t,
    JsMap.get k m = Some n -> In t (connections n) ->
    exists n', JsMap.get t m = Some n' /\ In k (connections n').

(** Two graphs with the same keys and, under each key, the same
    adjacency. *)
Definition same_links (m m' : JsMap.t InterestNode) : Prop :=
  forall k,
    option_map connections (JsMap.get k m')
    = option_map connections (JsMap.get k m).

(** The test of [findAndCreateConnections] on a pair of topics. *)
Definition similar (cfg : Config) (t u : string) : bool :=
  Js.geb (calculateSimilarity t u) (connectionThreshold cfg).

(** What the linking traversal for [t] leaves of the node [n] stored
    under [k]. *)
Definition linked (cfg : Config) (t k : string) (n : InterestNode)
  : InterestNode :=
  snd (fst (fst (link_visit cfg 0 t [] (k, n)))).

(** A list ordered by weight, heaviest first. *)
Definition by_weight (l : list InterestNode) : Prop :=
  StronglySorted (fun x y => weight y <= weight x) l.





(** The state of the clustering loop, clusters and assigned topics: the
    clusters have distinct names, which are assigned topics, and hold
    each assigned topic once. *)
Definition clusters_ok (st : JsMap.t (list string) * list string) : Prop :=
  NoDup (JsMap.keys (fst st))
  /\ Permutation (List.concat (JsMap.values (fst st))) (snd st)
  /\ NoDup (snd st)
  /\ incl (JsMap.keys (fst st)) (snd st).

(** What a dream session may do to a node: extend its adjacency and
    its dream connections, and move its weight towards 1 without
    crossing it. *)
Definition dreamt (n n' : InterestNode) : Prop :=
  topic n' = topic n
  /\ lastActive n' = lastActive n
  /\ createdAt n' = createdAt n
  /\ accessCount n' = accessCount n
  /\ isCore n' = isCore n
  /\ memoryType n' = memoryType n
  /\ keywords n' = keywords n
  /\ promotedAt n' = promotedAt n
  /\ incl (connections n) (connections n')
  /\ Qmin (weight n) 1 <= weight n'
  /\ weight n' <= Qmax (weight n) 1.

(** The same keys in the same order, and every node as a dream may
    have left it. *)
Definition dreamt_graph (m m' : JsMap.t InterestNode) : Prop :=
  JsMap.keys m' = JsMap.keys m
  /\ forall k n',
       JsMap.get k m' = Some n' ->
       exists n, JsMap.get k m = Some n /\ dreamt n n'.

(** The topics of all the chains of a dream, in the order of replay. *)
Definition replayed (chains : list (list InterestNode)) : list string :=
  flat_map (map topic) chains.

End Spec.

(* ================================================================== *)
(** * Part II: properties                                              *)
(* ================================================================== *)

(** ** Facts about the host primitives *)

Module JsFacts.
Import Js.

Lemma includes_In (x : string) (l : list string) :
  includes x l = true <-> In x l.
Proof.
  unfold includes. rewrite existsb_exists. split.
  - intros [y [Hy E]]. apply String.eqb_eq in E. now subst.
  - intros H. exists x. split; [assumption | apply String.eqb_refl].
Qed.

Lemma set_of_In (x : string) (l : list string) :
  In x (set_of l) <-> In x l.
Proof.
  induction l as [|y l IH]; simpl; [tauto|].
  rewrite filter_In, IH, negb_true_iff, String.eqb_neq.
  destruct (String.eqb_spec y x) as [->|N]; [tauto|].
  split; [tauto|]. intros [E|H]; [tauto|]. right. split; congruence.
Qed.

Lemma set_of_NoDup (l : list string) : NoDup (set_of l).
Proof.
  induction l as [|y l IH]; simpl; constructor.
  - rewrite filter_In, negb_true_iff, String.eqb_neq. tauto.
  - now apply NoDup_filter.
Qed.

(** Two duplicate-free arrays with the same elements have the same
    size. *)
Lemma same_elements_length (l1 l2 : list string) :
  NoDup l1 -> NoDup l2 -> (forall x, In x l1 <-> In x l2) ->
  List.length l1 = List.length l2.
Proof.
  intros N1 N2 H. apply Permutation_length.
  now apply NoDup_Permutation.
Qed.

Lemma of_nat_nonneg (n : nat) : 0 <= of_nat n.
Proof.
  unfold of_nat. change 0 with (inject_Z 0). rewrite <- Zle_Qle. lia.
Qed.

Lemma of_nat_pos (n : nat) : (0 < n)%nat -> 0 < of_nat n.
Proof.
  intros H. unfold of_nat. change 0 with (inject_Z 0).
  rewrite <- Zlt_Qlt. lia.
Qed.

Lemma of_nat_le (n m : nat) : (n <= m)%nat -> of_nat n <= of_nat m.
Proof. intros H. unfold of_nat. rewrite <- Zle_Qle. lia. Qed.

Lemma geb_true (x y : Q) : geb x y = true <-> y <= x.
Proof. unfold geb. apply Qle_bool_iff. Qed.

Lemma geb_false (x y : Q) : geb x y = false <-> x < y.
Proof.
  unfold geb. split; intros H.
  - apply Qnot_le_lt. intros C. apply Qle_bool_iff in C. congruence.
  - destruct (Qle_bool y x) eqn:E; [|reflexivity].
    apply Qle_bool_iff in E. exfalso. eapply Qlt_not_le; eassumption.
Qed.

Lemma ltb_true (x y : Q) : ltb x y = true <-> x < y.
Proof. unfold ltb. rewrite negb_true_iff. apply geb_false. Qed.

Lemma ltb_false (x y : Q) : ltb x y = false <-> y <= x.
Proof. unfold ltb. rewrite negb_false_iff. apply geb_true. Qed.

Lemma leb_true (x y : Q) : leb x y = true <-> x <= y.
Proof. unfold leb. apply Qle_bool_iff. Qed.

Lemma leb_false (x y : Q) : leb x y = false <-> y < x.
Proof. unfold leb. apply (geb_false y x). Qed.

(** The clamp of [mutate] lands in the unit interval. *)
Lemma clamp_unit (x : Q) : 0 <= Qmax 0 (Qmin 1 x) <= 1.
Proof.
  split; [apply Q.le_max_l|].
  apply Q.max_lub; [discriminate | apply Q.le_min_l].
Qed.

End JsFacts.

(** ** Facts about insertion-ordered maps *)

Module JsMapFacts.
Section JsMapFacts.
Context {V : Type}.
Implicit Types (m : JsMap.t V) (k : string).

Lemma get_In k m v : JsMap.get k m = Some v -> In (k, v) m.
Proof.
  induction m as [|[k' v'] m IH]; simpl; [discriminate|].
  destruct (String.eqb_spec k' k) as [->|N].
  - intros [= ->]. now left.
  - intros H. right. now apply IH.
Qed.

Lemma get_In_keys k m v : JsMap.get k m = Some v -> In k (JsMap.keys m).
Proof.
  intros H. apply get_In in H. unfold JsMap.keys.
  change k with (fst (k, v)). now apply in_map.
Qed.

Lemma In_keys_get k m : In k (JsMap.keys m) -> exists v, JsMap.get k m = Some v.
Proof.
  induction m as [|[k' v'] m IH]; simpl; [tauto|].
  intros H. destruct (String.eqb_spec k' k) as [->|N]; [eauto|].
  destruct H as [E|H]; [congruence | now apply IH].
Qed.

Lemma get_modify k k' (f : V -> V) m :
  JsMap.get k (JsMap.modify k' f m)
  = if String.eqb k' k then option_map f (JsMap.get k m)
    else JsMap.get k m.
Proof.
  induction m as [|[k0 v0] m IH]; simpl.
  - now destruct (String.eqb k' k).
  - destruct (String.eqb_spec k0 k') as [->|N0]; simpl.
    + destruct (String.eqb_spec k' k) as [->|N]; [reflexivity | exact IH].
    + destruct (String.eqb_spec k0 k) as [->|N].
      * destruct (String.eqb_spec k' k); [congruence | reflexivity].
      * exact IH.
Qed.

Lemma get_delete k k' m :
  JsMap.get k (JsMap.delete k' m)
  = if String.eqb k' k then None else JsMap.get k m.
Proof.
  unfold JsMap.delete.
  induction m as [|[k0 v0] m IH]; simpl.
  - now destruct (String.eqb k' k).
  - destruct (String.eqb_spec k0 k') as [->|N0]; simpl.
    + rewrite IH. destruct (String.eqb_spec k' k); reflexivity.
    + destruct (String.eqb_spec k0 k) as [->|N].
      * destruct (String.eqb_spec k' k); [congruence | reflexivity].
      * exact IH.
Qed.

Lemma get_map_values k (f : V -> V) m :
  JsMap.get k (map (fun e => (fst e, f (snd e))) m)
  = option_map f (JsMap.get k m).
Proof.
  induction m as [|[k0 v0] m IH]; simpl; [reflexivity|].
  destruct (String.eqb k0 k); [reflexivity | exact IH].
Qed.

Lemma get_set k k' v m :
  JsMap.get k (JsMap.set k' v m)
  = if String.eqb k' k then Some v else JsMap.get k m.
Proof.
  induction m as [|[k0 v0] m IH]; simpl.
  - reflexivity.
  - destruct (String.eqb_spec k0 k') as [->|N0]; simpl.
    + destruct (String.eqb_spec k' k); reflexivity.
    + destruct (String.eqb_spec k0 k) as [->|N].
      * destruct (String.eqb_spec k' k); [congruence | reflexivity].
      * exact IH.
Qed.

Lemma keys_modify k (f : V -> V) m :
  JsMap.keys (JsMap.modify k f m) = JsMap.keys m.
Proof.
  unfold JsMap.keys, JsMap.modify. rewrite map_map. apply map_ext.
  intros e. now destruct (String.eqb (fst e) k).
Qed.

Lemma keys_map_values (f : V -> V) m :
  JsMap.keys (map (fun e => (fst e, f (snd e))) m) = JsMap.keys m.
Proof. unfold JsMap.keys. rewrite map_map. reflexivity. Qed.

Lemma has_true k m : JsMap.has k m = true <-> exists v, JsMap.get k m = Some v.
Proof.
  unfold JsMap.has. destruct (JsMap.get k m); split; eauto;
    try discriminate. intros [v H]. discriminate.
Qed.

Lemma has_false k m : JsMap.has k m = false <-> JsMap.get k m = None.
Proof.
  unfold JsMap.has. destruct (JsMap.get k m); split; congruence.
Qed.

End JsMapFacts.
End JsMapFacts.

(** ** The similarity function *)

Module SimilarityProps.
Import Js JsFacts Brain.

Lemma intersection_comm (s1 s2 : list string) :
  NoDup s1 -> NoDup s2 ->
  List.length (filter (fun k => includes k s2) s1)
  = List.length (filter (fun k => includes k s1) s2).
Proof.
  intros N1 N2. apply same_elements_length; try now apply NoDup_filter.
  intros x. rewrite !filter_In, !includes_In. tauto.
Qed.

Lemma union_comm (s1 s2 : list string) :
  List.length (set_of (s1 ++ s2)) = List.length (set_of (s2 ++ s1)).
Proof.
  apply same_elements_length; try apply set_of_NoDup.
  intros x. rewrite !set_of_In, !in_app_iff. tauto.
Qed.

Lemma intersection_le_union (s1 s2 : list string) :
  NoDup s1 ->
  (List.length (filter (fun k => includes k s2) s1)
   <= List.length (set_of (s1 ++ s2)))%nat.
Proof.
  intros N1. apply NoDup_incl_length; [now apply NoDup_filter|].
  intros x. rewrite filter_In, set_of_In, in_app_iff. tauto.
Qed.

Lemma left_le_union (s1 s2 : list string) :
  NoDup s1 -> (List.length s1 <= List.length (set_of (s1 ++ s2)))%nat.
Proof.
  intros N1. apply NoDup_incl_length; [assumption|].
  intros x. rewrite set_of_In, in_app_iff. tauto.
Qed.

Lemma jaccard_comm (k1 k2 : list string) : jaccard k1 k2 = jaccard k2 k1.
Proof.
  unfold jaccard. rewrite orb_comm.
  rewrite (intersection_comm (set_of k1) (set_of k2))
    by apply set_of_NoDup.
  now rewrite union_comm.
Qed.

Lemma jaccard_bounds (k1 k2 : list string) : 0 <= jaccard k1 k2 <= 1.
Proof.
  unfold jaccard.
  destruct (List.length (set_of k1) =? 0)%nat eqn:E1; simpl;
    [split; discriminate|].
  destruct (List.length (set_of k2) =? 0)%nat eqn:E2; simpl;
    [split; discriminate|].
  apply Nat.eqb_neq in E1.
  pose proof (left_le_union (set_of k1) (set_of k2) (set_of_NoDup k1)) as L.
  pose proof (intersection_le_union (set_of k1) (set_of k2)
                (set_of_NoDup k1)) as I.
  assert (U : 0 < of_nat (List.length (set_of (set_of k1 ++ set_of k2))))
    by (apply of_nat_pos; lia).
  split.
  - apply Qle_shift_div_l; [assumption|]. rewrite Qmult_0_l.
    apply of_nat_nonneg.
  - apply Qle_shift_div_r; [assumption|]. rewrite Qmult_1_l.
    now apply of_nat_le.
Qed.

Lemma jaccard_refl (k : list string) : k <> [] -> jaccard k k == 1.
Proof.
  intros Hk. unfold jaccard.
  assert (P : (0 < List.length (set_of k))%nat).
  { destruct k as [|x k]; [congruence | simpl; lia]. }
  destruct (List.length (set_of k) =? 0)%nat eqn:E; simpl.
  - apply Nat.eqb_eq in E. lia.
  - assert (F : filter (fun x => includes x (set_of k)) (set_of k) = set_of k).
    { apply forallb_filter_id, forallb_forall. intros x Hx.
      now apply includes_In. }
    assert (U : List.length (set_of (set_of k ++ set_of k))
                = List.length (set_of k)).
    { apply same_elements_length; try apply set_of_NoDup.
      intros x. rewrite set_of_In, in_app_iff. tauto. }
    rewrite F, U. apply Qmult_inv_r.
    intros C. apply of_nat_pos in P. rewrite C in P. discriminate.
Qed.

Lemma jaccard_empty (k1 k2 : list string) :
  k1 = [] \/ k2 = [] -> jaccard k1 k2 = 0.
Proof.
  intros [-> | ->]; unfold jaccard; simpl; [reflexivity|].
  now rewrite orb_true_r.
Qed.

(** C7. The similarity of two topics is symmetric and lies in [[0,1]];
    a topic with a non-empty keyword set has similarity 1 to itself, and
    the similarity is 0 as soon as one of the two keyword sets is empty.
    [calculateSimilarity] is a function of the two topics alone: it
    neither reads nor returns the engine. *)
Theorem calculateSimilarity_symmetric_bounded (a b : string) :
  calculateSimilarity a b = calculateSimilarity b a
  /\ 0 <= calculateSimilarity a b <= 1
  /\ (extractKeywords a <> [] -> calculateSimilarity a a == 1)
  /\ (extractKeywords a = [] \/ extractKeywords b = [] ->
      calculateSimilarity a b == 0).
Proof.
  unfold calculateSimilarity. repeat split.
  - apply jaccard_comm.
  - apply jaccard_bounds.
  - apply jaccard_bounds.
  - apply jaccard_refl.
  - intros H. now rewrite jaccard_empty.
Qed.

Lemma calculateSimilarity_witness :
  calculateSimilarity "Machine Learning" "Machine Learning" == 1
  /\ calculateSimilarity "of the" "deep learning" == 0.
Proof.
  split.
  - apply (calculateSimilarity_symmetric_bounded
             "Machine Learning" "deep learning").
    vm_compute. discriminate.
  - apply (calculateSimilarity_symmetric_bounded "of the" "deep learning").
    left. vm_compute. reflexivity.
Defined.

(** The example of the specification: one shared keyword out of
    three. *)
Example similarity_learning :
  calculateSimilarity "machine learning" "deep learning" == 1 # 3.
Proof. vm_compute. reflexivity. Qed.

End SimilarityProps.

(** ** The interest graph *)

Module GraphProps.
Import Js JsFacts JsMapFacts Brain Spec.

(** A [forEach] of mutations [g] at the keys listed in [ks] applies [g]
    to the object under [k] once per occurrence of [k] in [ks]. *)
Lemma get_fold_modify {V : Type} (g : string -> V -> V) (ks : list string)
    (m : JsMap.t V) (k : string) :
  JsMap.get k (fold_left (fun m' t => JsMap.modify t (g t) m') ks m)
  = option_map (Nat.iter (count_occ string_dec ks k) (g k)) (JsMap.get k m).
Proof.
  revert m. induction ks as [|t ks IH]; intros m; simpl.
  - now destruct (JsMap.get k m).
  - rewrite IH, get_modify.
    destruct (string_dec t k) as [->|N].
    + rewrite String.eqb_refl. destruct (JsMap.get k m); simpl;
        [|reflexivity].
      now rewrite <- Nat.iter_succ_r.
    + apply String.eqb_neq in N. now rewrite N.
Qed.

Lemma count_occ_once (ks : list string) (k : string) :
  NoDup ks -> In k ks -> count_occ string_dec ks k = 1%nat.
Proof.
  intros N H. apply (proj1 (NoDup_count_occ string_dec ks)) with (x := k) in N.
  apply (proj1 (count_occ_In string_dec ks k)) in H. lia.
Qed.

(** *** Core status *)

Lemma core_visit_fields (cfg : Config) (n : InterestNode) :
  topic (core_visit cfg n) = topic n
  /\ weight (core_visit cfg n) = weight n
  /\ connections (core_visit cfg n) = connections n
  /\ lastActive (core_visit cfg n) = lastActive n
  /\ accessCount (core_visit cfg n) = accessCount n
  /\ isCore (core_visit cfg n) = geb (weight n) (coreThreshold cfg).
Proof.
  unfold core_visit.
  destruct (geb (weight n) (coreThreshold cfg)), (isCore n),
    (MemoryType_eqb (memoryType n) Core); simpl; repeat split.
Qed.

Lemma MemoryType_eqb_eq (a b : MemoryType) :
  MemoryType_eqb a b = true <-> a = b.
Proof. destruct a, b; simpl; split; congruence. Qed.

(** The three outcomes of a re-evaluation. *)
Lemma core_visit_memoryType (cfg : Config) (n : InterestNode) :
  memoryType (core_visit cfg n)
  = if geb (weight n) (coreThreshold cfg)
    then (if isCore n then memoryType n else Core)
    else (if MemoryType_eqb (memoryType n) Core then LongTerm
          else memoryType n).
Proof.
  unfold core_visit.
  destruct (geb (weight n) (coreThreshold cfg)), (isCore n),
    (MemoryType_eqb (memoryType n) Core); reflexivity.
Qed.

Lemma get_updateCoreStatus (cfg : Config) (b : Engine) (k : string) :
  JsMap.get k (interests (updateCoreStatus cfg b))
  = option_map (core_visit cfg) (JsMap.get k (interests b)).
Proof. unfold updateCoreStatus. simpl. apply get_map_values. Qed.

(** *** Reinforcement *)

Lemma get_reinforceInterest (cfg : Config) (now : Z) (t : string)
    (strength : Q) (b : Engine) (node : InterestNode) (k : string) :
  JsMap.get t (interests b) = Some node ->
  JsMap.get k (interests (reinforceInterest cfg now t strength b))
  = option_map
      (Nat.iter (count_occ string_dec (connections node) k)
                (spread_to cfg now strength))
      (if String.eqb t k
       then option_map (bumped cfg now strength) (JsMap.get k (interests b))
       else JsMap.get k (interests b)).
Proof.
  intros H. unfold reinforceInterest. rewrite H. simpl.
  rewrite (get_fold_modify (fun _ => spread_to cfg now strength)).
  now rewrite get_modify.
Qed.

Lemma spread_iter_lastActive (cfg : Config) (now : Z) (strength : Q)
    (c : nat) (n : InterestNode) :
  (0 < c)%nat ->
  lastActive (Nat.iter c (spread_to cfg now strength) n) = now.
Proof. destruct c; [lia|]. reflexivity. Qed.

(** The reinforcing branch of [addInterest]. *)
Lemma addInterest_existing (cfg : Config) (now : Z) (topic : string)
    (strength : Q) (b : Engine) (node : InterestNode) :
  JsMap.get (trim (toLowerCase topic)) (interests b) = Some node ->
  fst (addInterest cfg now topic strength b)
  = updateCoreStatus cfg
      (reinforceInterest cfg now (trim (toLowerCase topic)) strength b).
Proof.
  intros H. unfold addInterest.
  assert (E : JsMap.has (trim (toLowerCase topic)) (interests b) = true)
    by (apply has_true; eauto).
  now rewrite E.
Qed.

(** The arithmetic of a reinforcement, for a node whose adjacency is a
    set of other topics. *)
Lemma reinforcement_on_set (cfg : Config) (now : Z)
    (topic : string) (strength : Q) (b : Engine) (node : InterestNode) :
  let key := trim (toLowerCase topic) in
  let b' := fst (addInterest cfg now topic strength b) in
  JsMap.get key (interests b) = Some node ->
  NoDup (connections node) ->
  ~ In key (connections node) ->
  (exists node',
      JsMap.get key (interests b') = Some node'
      /\ snd (addInterest cfg now topic strength b) = Some node'
      /\ weight node' = Qmin (weight node + strength) (maxWeight cfg)
      /\ lastActive node' = now
      /\ accessCount node' = (accessCount node + 1)%Z
      /\ (weight node == 3 # 10 -> strength == 1 # 10 ->
          weight node' == Qmin (4 # 10) (maxWeight cfg)))
  /\ (forall t c,
         In t (connections node) ->
         JsMap.get t (interests b) = Some c ->
         exists c',
           JsMap.get t (interests b') = Some c'
           /\ weight c'
              = Qmin (weight c + strength * reinforcementFactor cfg)
                     (maxWeight cfg)).
Proof.
  intros key b' Hget Hnd Hself. subst b'.
  rewrite (addInterest_existing _ _ _ _ _ _ Hget). fold key. split.
  - exists (core_visit cfg (bumped cfg now strength node)).
    assert (G : JsMap.get key
                  (interests (updateCoreStatus cfg
                     (reinforceInterest cfg now key strength b)))
                = Some (core_visit cfg (bumped cfg now strength node))).
    { rewrite get_updateCoreStatus,
        (get_reinforceInterest _ _ _ _ _ _ _ Hget), String.eqb_refl.
      rewrite (proj1 (count_occ_not_In string_dec _ _)) by assumption.
      unfold key in Hget |- *. now rewrite Hget. }
    destruct (core_visit_fields cfg (bumped cfg now strength node))
      as (_ & Hw & _ & Hl & Ha & _).
    repeat split; try assumption.
    + unfold addInterest.
      assert (E : JsMap.has key (interests b) = true)
        by (apply has_true; eauto).
      fold key. rewrite E. simpl. exact G.
    + intros E1 E2. rewrite Hw. simpl. rewrite E1, E2.
      assert (E3 : (3 # 10) + (1 # 10) == 4 # 10) by reflexivity.
      now rewrite E3.
  - intros t c Hin Hc.
    assert (N : key <> t) by (intros ->; contradiction).
    exists (core_visit cfg (spread_to cfg now strength c)). split.
    + rewrite get_updateCoreStatus,
        (get_reinforceInterest _ _ _ _ _ _ _ Hget).
      apply String.eqb_neq in N. rewrite N, Hc.
      now rewrite (count_occ_once _ _ Hnd Hin).
    + now destruct (core_visit_fields cfg (spread_to cfg now strength c))
        as (_ & -> & _).
Qed.

(** *** Decay *)

Lemma decay_visit_fields (cfg : Config) (now : Z) (n : InterestNode) :
  weight (decay_visit cfg now n)
  = Qmax (weight n
          - decayRate cfg * of_Z (now - lastActive n)
            * (if isCore n then 1 # 10 else 1)
            * (if MemoryType_eqb (memoryType n) LongTerm then 3 # 10 else 1))
         0
  /\ isCore (decay_visit cfg now n) = isCore n
  /\ memoryType (decay_visit cfg now n) = memoryType n
  /\ lastActive (decay_visit cfg now n) = lastActive n.
Proof. repeat split. Qed.


Lemma relinked_refl (x : InterestNode) : relinked x x.
Proof. exists (connections x). now destruct x. Qed.

Lemma relinked_trans (x y z : InterestNode) :
  relinked x y -> relinked y z -> relinked x z.
Proof. intros [c1 ->] [c2 ->]. now exists c2. Qed.

Lemma relinked_iter_unlinked (t : string) (c : nat) (x : InterestNode) :
  relinked x (Nat.iter c (unlinked t) x).
Proof.
  induction c as [|c IH]; simpl; [apply relinked_refl|].
  eapply relinked_trans; [exact IH|]. unfold unlinked. now eexists.
Qed.

Lemma get_removeInterest (t : string) (b : Engine) (k : string)
    (x : InterestNode) :
  JsMap.get k (interests (removeInterest t b)) = Some x ->
  t <> k /\ exists x0, JsMap.get k (interests b) = Some x0 /\ relinked x0 x.
Proof.
  unfold removeInterest.
  destruct (JsMap.get t (interests b)) as [node|] eqn:Ht; simpl.
  - rewrite get_delete.
    destruct (String.eqb_spec t k) as [->|N]; [discriminate|].
    rewrite (get_fold_modify (fun _ => unlinked t)).
    destruct (JsMap.get k (interests b)) as [x0|]; [|discriminate].
    simpl. intros [= <-]. split; [assumption|]. exists x0.
    split; [reflexivity | apply relinked_iter_unlinked].
  - intros H. split; [congruence|]. exists x. split; [assumption|].
    apply relinked_refl.
Qed.

Lemma removeInterest_gone (t : string) (b : Engine) :
  JsMap.get t (interests (removeInterest t b)) = None.
Proof.
  destruct (JsMap.get t (interests (removeInterest t b))) eqn:E;
    [|reflexivity].
  apply get_removeInterest in E. tauto.
Qed.




Lemma decay_visit_fresh (cfg : Config) (now : Z) (n : InterestNode) :
  lastActive n = now ->
  weight (decay_visit cfg now n) == Qmax (weight n) 0.
Proof.
  intros E. destruct (decay_visit_fields cfg now n) as (-> & _).
  rewrite E, Z.sub_diag.
  match goal with
  | |- Qmax ?x 0 == _ =>
      assert (A : x == weight n)
        by (unfold of_Z; change (inject_Z 0) with 0; ring)
  end.
  now rewrite A.
Qed.

End GraphProps.

(** ** The consolidator *)

Module ConsolidatorProps.
Import Js JsFacts JsMapFacts Brain Spec Memory GraphProps.

(** C9. The promotion score of a node is
    [0.30 * min(weight / maxWeight, 1) + 0.30 * min(|connections| / 10, 1)
     + 0.20 * min(log(accessCount + 1) / log(51), 1)
     + 0.20 * max(1 - age / 7 days, 0)]
    with [age = now - lastActive]. *)
Theorem scoreForPromotion_formula (log : Q -> Q) (now : Z)
    (node : InterestNode) :
  total (scoreForPromotion log now node)
  == promotion_score_spec log now node.
Proof.
  unfold scoreForPromotion, promotion_score_spec. simpl total.
  cbv zeta.
  change (of_Z 51) with 51.
  change (of_Z 604800000) with 604800000.
  change (maxWeight Brain.default_config) with 1.
  ring.
Qed.

Lemma recency_fresh (log : Q -> Q) (now : Z) (n : InterestNode) :
  lastActive n = now ->
  bd_recency (breakdown (scoreForPromotion log now n)) == 1.
Proof.
  intros E. unfold scoreForPromotion. simpl bd_recency.
  rewrite E, Z.sub_diag. reflexivity.
Qed.

(** C10. Reinforcing an existing topic sets the [lastActive] of every
    directly connected node to the current time: at that moment a decay
    tick subtracts nothing from the neighbour and its recency score is
    the maximum, 1. *)
Theorem reinforcement_refreshes_neighbours (log : Q -> Q) (cfg : Brain.Config)
    (now : Z) (topic : string) (strength : Q) (b : Engine)
    (node : InterestNode) (t : string) (c : InterestNode) :
  let key := trim (toLowerCase topic) in
  let b' := fst (addInterest cfg now topic strength b) in
  JsMap.get key (interests b) = Some node ->
  In t (connections node) ->
  JsMap.get t (interests b) = Some c ->
  exists c',
    JsMap.get t (interests b') = Some c'
    /\ lastActive c' = now
    /\ weight (decay_visit cfg now c') == Qmax (weight c') 0
    /\ bd_recency (breakdown (scoreForPromotion log now c')) == 1.
Proof.
  intros key b' Hget Hin Hc. subst b'.
  rewrite (addInterest_existing _ _ _ _ _ _ Hget). fold key.
  assert (G : exists c0,
             JsMap.get t (interests (reinforceInterest cfg now key strength b))
             = Some c0 /\ lastActive c0 = now).
  { rewrite (get_reinforceInterest _ _ _ _ _ _ _ Hget), Hc.
    apply (proj1 (count_occ_In string_dec _ _)) in Hin.
    destruct (String.eqb key t); simpl; eexists; (split; [reflexivity|]);
      now apply spread_iter_lastActive. }
  destruct G as (c0 & G & L).
  exists (core_visit cfg c0).
  assert (L' : lastActive (core_visit cfg c0) = now).
  { now destruct (core_visit_fields cfg c0) as (_ & _ & _ & -> & _). }
  repeat split.
  - now rewrite get_updateCoreStatus, G.
  - exact L'.
  - now apply decay_visit_fresh.
  - now apply recency_fresh.
Qed.

Lemma reinforcement_refreshes_witness :
  exists c',
    JsMap.get "deep learning"
      (interests (fst (addInterest Brain.default_config 20 "machine learning"
                                   (1 # 10) Sample.two_topics)))
    = Some c'
    /\ lastActive c' = 20%Z.
Proof.
  pose proof (reinforcement_refreshes_neighbours (fun x => x) Brain.default_config
                20 "machine learning" (1 # 10) Sample.two_topics) as T.
  cbv zeta in T.
  edestruct T as (c' & G & L & _).
  - vm_compute. reflexivity.
  - simpl. left. reflexivity.
  - vm_compute. reflexivity.
  - exists c'. split; [exact G | exact L].
Defined.

(** *** The consolidation pass *)


Lemma consolidate_visit_keys (log : Q -> Q) (cfg : Memory.Config) (now : Z)
    st e :
  JsMap.keys (interests (visit_brain (consolidate_visit log cfg now st e)))
  = JsMap.keys (interests (visit_brain st)).
Proof.
  destruct st as [[c b] [proms forgs]]. unfold consolidate_visit.
  destruct (geb _ _); [|destruct (ltb _ _); reflexivity].
  unfold promoteToLongTerm, visit_brain. simpl. apply keys_modify.
Qed.

Lemma consolidate_visit_forgotten_mono (log : Q -> Q) (cfg : Memory.Config)
    (now : Z) st e f :
  In f (visit_forgotten st) ->
  In f (visit_forgotten (consolidate_visit log cfg now st e)).
Proof.
  destruct st as [[c b] [proms forgs]]. unfold consolidate_visit.
  destruct (geb _ _); [unfold promoteToLongTerm; simpl; tauto|].
  destruct (ltb _ _); unfold visit_forgotten; simpl; [|tauto].
  intros H. apply in_or_app. now left.
Qed.

Lemma consolidate_fold_keys (log : Q -> Q) (cfg : Memory.Config) (now : Z)
    l st :
  JsMap.keys (interests
                (visit_brain (fold_left (consolidate_visit log cfg now) l st)))
  = JsMap.keys (interests (visit_brain st)).
Proof.
  revert st. induction l as [|e l IH]; intros st; simpl; [reflexivity|].
  rewrite IH. apply consolidate_visit_keys.
Qed.

Lemma consolidate_fold_forgotten_mono (log : Q -> Q) (cfg : Memory.Config)
    (now : Z) l st f :
  In f (visit_forgotten st) ->
  In f (visit_forgotten (fold_left (consolidate_visit log cfg now) l st)).
Proof.
  revert st. induction l as [|e l IH]; intros st H; simpl; [assumption|].
  apply IH. now apply consolidate_visit_forgotten_mono.
Qed.

Lemma consolidate_fold_forgets (log : Q -> Q) (cfg : Memory.Config)
    (now : Z) l st e :
  In e l ->
  total (scoreForPromotion log now (snd e)) < promotionThreshold cfg ->
  weight (snd e) < 1 # 10 ->
  In (mkForgotten (topic (snd e)) (weight (snd e)))
     (visit_forgotten (fold_left (consolidate_visit log cfg now) l st)).
Proof.
  intros Hin Hs Hw. revert st.
  induction l as [|e' l IH]; intros st; simpl; [contradiction|].
  destruct Hin as [->|Hin]; [|now apply IH].
  apply consolidate_fold_forgotten_mono.
  destruct st as [[c b] [proms forgs]]. unfold consolidate_visit.
  apply geb_false in Hs. rewrite Hs.
  apply ltb_true in Hw. rewrite Hw.
  unfold visit_forgotten. simpl. apply in_or_app. right. now left.
Qed.

(** C8. [consolidate] removes no node from the graph (the keys of the
    graph are the same after the call), and every short-term node of
    weight below 0.1 whose score is below the promotion threshold is
    listed in [forgotten], with its topic and weight, and is still in
    the graph after the call. *)
Theorem consolidate_reports_without_removing (log : Q -> Q)
    (cfg : Memory.Config) (now : Z) (c : Consolidator) (b : Engine)
    (c' : Consolidator) (brain' : option Engine) (r : Results) :
  consolidate log cfg now c (Some b) = (c', brain', r) ->
  exists b',
    brain' = Some b'
    /\ JsMap.keys (interests b') = JsMap.keys (interests b)
    /\ forall key node,
         In (key, node) (interests b) ->
         memoryType node = ShortTerm ->
         weight node < 1 # 10 ->
         total (scoreForPromotion log now node) < promotionThreshold cfg ->
         In (mkForgotten (topic node) (weight node)) (forgotten r)
         /\ In key (JsMap.keys (interests b')).
Proof.
  unfold consolidate.
  set (shortTerm := filter _ (interests b)).
  pose proof (consolidate_fold_keys log cfg now shortTerm (c, b, ([], [])))
    as K.
  pose proof (fun e => consolidate_fold_forgets log cfg now shortTerm
                         (c, b, ([], [])) e) as F.
  destruct (fold_left _ shortTerm _) as [[c1 b1] [proms forgs]].
  unfold visit_brain in K. unfold visit_forgotten in F. simpl in K, F.
  intros [= <- <- <-]. exists b1. repeat split; try assumption.
  - simpl. apply (F (key, node)); try assumption.
    apply filter_In. split; [assumption|]. simpl.
    now apply MemoryType_eqb_eq.
  - rewrite K. change key with (fst (key, node)). now apply in_map.
Qed.

Lemma consolidate_reports_witness :
  exists c' b' r,
    consolidate (fun x => x) Memory.default_config 5000 new_consolidator
                (Some Sample.faded) = (c', Some b', r)
    /\ In "machine learning"%string (map fg_topic (forgotten r))
    /\ In "machine learning"%string (JsMap.keys (interests b')).
Proof.
  destruct (consolidate (fun x => x) Memory.default_config 5000
              new_consolidator (Some Sample.faded))
    as [[c' brain'] r] eqn:E.
  destruct (consolidate_reports_without_removing _ _ _ _ _ _ _ _ E)
    as (b' & -> & _ & H).
  exists c', b', r. split; [reflexivity|].
  assert (G : exists node, JsMap.get "machine learning"
                             (interests Sample.faded) = Some node)
    by (eexists; vm_compute; reflexivity).
  destruct G as [node G].
  destruct (H "machine learning"%string node) as [F P].
  - now apply get_In.
  - vm_compute in G. now injection G as <-.
  - vm_compute in G. injection G as <-. reflexivity.
  - vm_compute in G. injection G as <-. vm_compute. reflexivity.
  - split; [|exact P].
    vm_compute in G. injection G as <-.
    apply (in_map fg_topic) in F. exact F.
Defined.

End ConsolidatorProps.

(** ** Random computations *)

Module RandFacts.
Import Spec.

Lemma bind_eq {A B : Type} (m : Rand.t A) (f : A -> Rand.t B)
    (rnd : nat -> Q) (n : nat) :
  Rand.bind m f rnd n = f (fst (m rnd n)) rnd (snd (m rnd n)).
Proof. unfold Rand.bind. now destruct (m rnd n). Qed.

Lemma always_ret {A : Type} (rnd : nat -> Q) (a : A) (P : A -> Prop) :
  P a -> always rnd (Rand.ret a) P.
Proof. intros H n. exact H. Qed.

Lemma always_bind {A B : Type} (rnd : nat -> Q) (m : Rand.t A)
    (f : A -> Rand.t B) (P : A -> Prop) (Q : B -> Prop) :
  always rnd m P -> (forall a, P a -> always rnd (f a) Q) ->
  always rnd (Rand.bind m f) Q.
Proof. intros Hm Hf n. rewrite bind_eq. apply Hf, Hm. Qed.

Lemma always_trivial {A : Type} (rnd : nat -> Q) (m : Rand.t A) :
  always rnd m (fun _ => True).
Proof. intros n. exact I. Qed.

End RandFacts.

(** ** The dream engine *)

Module DreamProps.
Import Js JsFacts JsMapFacts Brain Spec Dreamer RandFacts.

(** C4. [dream()] called on fewer than three interests, or while a
    session is active, settles at once with a structured failure result:
    nothing is thrown, no random number is drawn, and the dream engine
    (its log included) and the interest graph are exactly as before.
    The result is the "already dreaming" one when a session is active
    (it does not queue) and the "need at least 3 interests" one
    otherwise. *)
Theorem dream_precondition_failures (cfg : Dreamer.Config) (now : Z)
    (explorer : option (list Discovery)) (d : DreamState)
    (brain : option Engine) (rnd : nat -> Q) (n : nat) :
  isDreaming d = true
  \/ (exists b, brain = Some b /\ (JsMap.size (interests b) < 3)%nat) ->
  exists reason,
    dream cfg now explorer d brain rnd n = (d, brain, Failure reason, n)
    /\ (isDreaming d = true -> reason = AlreadyDreamingOrNoBrain)
    /\ (isDreaming d = false -> reason = NeedThreeInterests).
Proof.
  intros H. unfold dream. destruct (isDreaming d) eqn:E.
  - exists AlreadyDreamingOrNoBrain. repeat split; congruence.
  - destruct H as [H | (b & -> & L)]; [discriminate|].
    exists NeedThreeInterests.
    unfold JsMap.values. rewrite length_map.
    apply Nat.ltb_lt in L. unfold JsMap.size in L. rewrite L.
    destruct d as [lg dc dreaming]. simpl in E. subst dreaming.
    repeat split; congruence.
Qed.

Lemma dream_precondition_witness :
  dream Dreamer.default_config 100 None new_dreamer
        (Some Sample.two_topics) (fun _ => 0) 0%nat
  = (new_dreamer, Some Sample.two_topics, Failure NeedThreeInterests, 0%nat).
Proof.
  destruct (dream_precondition_failures Dreamer.default_config 100 None
              new_dreamer (Some Sample.two_topics) (fun _ => 0) 0%nat)
    as (reason & E & _ & R).
  - right. exists Sample.two_topics. split; [reflexivity|].
    vm_compute. lia.
  - rewrite E, R; reflexivity.
Defined.

(** *** Dream similarity *)

(** The keyword term is the Jaccard index the graph uses. *)
Lemma keywordSimilarity_jaccard (a b : InterestNode) :
  keywordSimilarity a b = jaccard (keywords_of a) (keywords_of b).
Proof.
  unfold keywordSimilarity, jaccard. fold (keywords_of a) (keywords_of b).
  destruct (List.length (set_of (keywords_of a))) eqn:Ea;
    destruct (List.length (set_of (keywords_of b))) eqn:Eb; reflexivity.
Qed.

Lemma discoveryCooccurrence_values (explorer : option (list Discovery))
    (a b : InterestNode) :
  discoveryCooccurrence explorer a b = 0
  \/ discoveryCooccurrence explorer a b = 3 # 10.
Proof.
  unfold discoveryCooccurrence. destruct explorer; [|now left].
  destruct (0 <? _)%nat; [now right | now left].
Qed.

Lemma calculateDreamSimilarity_eq (explorer : option (list Discovery))
    (a b : InterestNode) (rnd : nat -> Q) (n : nat) :
  fst (calculateDreamSimilarity explorer a b rnd n)
  == dream_similarity explorer a b (rnd n)
  /\ snd (calculateDreamSimilarity explorer a b rnd n) = S n.
Proof.
  split; [|reflexivity].
  unfold calculateDreamSimilarity, dream_similarity. simpl.
  rewrite keywordSimilarity_jaccard.
  change (connectionSimilarity a b) with (sharedConnectionRatio a b).
  ring.
Qed.

Lemma analyze_row_sound (cfg : Dreamer.Config) (now : Z)
    (explorer : option (list Discovery)) (a : InterestNode) (i : nat)
    (rest : list InterestNode) :
  forall (j : nat) (rnd : nat -> Q) (n : nat) (pc : PotentialConnection),
    In pc (fst (analyze_row cfg now explorer a i j rest rnd n)) ->
    exists m b k,
      nth_error rest m = Some b
      /\ pc_from pc = topic a /\ pc_to pc = topic b
      /\ pc_distance pc = (j + m - i)%nat
      /\ pc_similarity pc = fst (calculateDreamSimilarity explorer a b rnd k)
      /\ Dreamer.connectionThreshold cfg <= pc_similarity pc.
Proof.
  induction rest as [|b rest IH]; intros j rnd n pc; cbn [analyze_row].
  - intros [].
  - rewrite !bind_eq. unfold Rand.ret at 1. cbn [fst].
    set (sim := fst (calculateDreamSimilarity explorer a b rnd n)).
    set (n1 := snd (calculateDreamSimilarity explorer a b rnd n)).
    assert (R : forall pc,
               In pc (fst (analyze_row cfg now explorer a i (S j) rest rnd n1)) ->
               exists m b0 k,
                 nth_error (b :: rest) m = Some b0
                 /\ pc_from pc = topic a /\ pc_to pc = topic b0
                 /\ pc_distance pc = (j + m - i)%nat
                 /\ pc_similarity pc
                    = fst (calculateDreamSimilarity explorer a b0 rnd k)
                 /\ Dreamer.connectionThreshold cfg <= pc_similarity pc).
    { intros pc' H. apply IH in H.
      destruct H as (m & b0 & k & H1 & H2 & H3 & H4 & H5 & H6).
      exists (S m), b0, k. repeat split; try assumption.
      rewrite H4. lia. }
    destruct (geb sim (Dreamer.connectionThreshold cfg)) eqn:G.
    + intros [<- | H]; [|now apply R].
      exists 0%nat, b, n. simpl. repeat split.
      * f_equal. lia.
      * now apply geb_true.
    + apply R.
Qed.

Lemma analyze_from_sound (cfg : Dreamer.Config) (now : Z)
    (explorer : option (list Discovery)) (chain : list InterestNode) :
  forall (i : nat) (rnd : nat -> Q) (n : nat) (pc : PotentialConnection),
    In pc (fst (analyze_from cfg now explorer i chain rnd n)) ->
    exists p q a b k,
      (p + 2 <= q)%nat
      /\ nth_error chain p = Some a /\ nth_error chain q = Some b
      /\ pc_from pc = topic a /\ pc_to pc = topic b
      /\ pc_distance pc = (q - p)%nat
      /\ pc_similarity pc = fst (calculateDreamSimilarity explorer a b rnd k)
      /\ Dreamer.connectionThreshold cfg <= pc_similarity pc.
Proof.
  induction chain as [|a rest IH]; intros i rnd n pc; cbn [analyze_from].
  - intros [].
  - rewrite !bind_eq. unfold Rand.ret at 1. cbn [fst]. rewrite in_app_iff.
    intros [H | H].
    + apply analyze_row_sound in H.
      destruct H as (m & b & k & H1 & H2 & H3 & H4 & H5 & H6).
      exists 0%nat, (S (S m)), a, b, k. repeat split; try assumption.
      * lia.
      * destruct rest; [now destruct m | exact H1].
      * rewrite H4. lia.
    + apply IH in H.
      destruct H
        as (p & q & a0 & b & k & H0 & H1 & H2 & H3 & H4 & H5 & H6 & H7).
      exists (S p), (S q), a0, b, k. repeat split; try assumption. lia.
Qed.

(** C2 (amended). The dream similarity of two nodes is
    [0.4 * keywordJaccard + 0.3 * sharedConnectionRatio
     + 0.2 * discoveryCooccurrenceBonus + 0.1 * uniformRandom], the
    bonus being 0 or 0.3 and the ratio being
    [|connections(a) /\ connections(b)|
     / max(1, min(|connections(a)|, |connections(b)|))]; every
    connection reported for a chain joins two positions [i] and [j] of
    the chain with [j >= i + 2], at distance [j - i], and carries that
    similarity of the pair, which reaches the threshold. *)
Theorem dream_similarity_formula (cfg : Dreamer.Config) (now : Z)
    (explorer : option (list Discovery)) :
  (forall a b rnd n,
      fst (calculateDreamSimilarity explorer a b rnd n)
      == dream_similarity explorer a b (rnd n)
      /\ (discoveryCooccurrence explorer a b = 0
          \/ discoveryCooccurrence explorer a b = 3 # 10))
  /\ (forall chain rnd n pc,
        In pc (fst (analyzeChainForConnections cfg now explorer chain rnd n)) ->
        exists i j a b k,
          (i + 2 <= j)%nat
          /\ nth_error chain i = Some a /\ nth_error chain j = Some b
          /\ pc_from pc = topic a /\ pc_to pc = topic b
          /\ pc_distance pc = (j - i)%nat
          /\ pc_similarity pc == dream_similarity explorer a b (rnd k)
          /\ Dreamer.connectionThreshold cfg <= pc_similarity pc).
Proof.
  split.
  - intros a b rnd n. split.
    + apply calculateDreamSimilarity_eq.
    + apply discoveryCooccurrence_values.
  - intros chain rnd n pc H. apply analyze_from_sound in H.
    destruct H as (p & q & a & b & k & H0 & H1 & H2 & H3 & H4 & H5 & H6 & H7).
    exists p, q, a, b, k. repeat split; try assumption.
    rewrite H6. apply calculateDreamSimilarity_eq.
Qed.

Lemma dream_similarity_witness :
  exists pc i j,
    In pc (fst (analyzeChainForConnections Dreamer.default_config 100 None
                  (JsMap.values (interests Sample.square)) (fun _ => 0)
                  0%nat))
    /\ (i + 2 <= j)%nat /\ pc_distance pc = (j - i)%nat.
Proof.
  assert (H : exists pc,
             In pc (fst (analyzeChainForConnections Dreamer.default_config
                           100 None (JsMap.values (interests Sample.square))
                           (fun _ => 0) 0%nat)))
    by (eexists; vm_compute; left; reflexivity).
  destruct H as [pc H].
  destruct (proj2 (dream_similarity_formula Dreamer.default_config 100 None)
              _ _ _ _ H)
    as (i & j & a & b & k & H0 & _ & _ & _ & _ & H5 & _).
  exists pc, i, j. split; [exact H | split; [exact H0 | exact H5]].
Defined.

(** The formula with [min(|connections(a)|, |connections(b)|, 1)] as the
    denominator fails on two nodes with two common neighbours: the
    engine computes [0.3 * 2/2], the formula gives [0.3 * 2/1]. *)
Lemma dream_similarity_counterexample :
  exists a b,
    JsMap.get "alpha beta" (interests Sample.square) = Some a
    /\ JsMap.get "gamma delta" (interests Sample.square) = Some b
    /\ fst (calculateDreamSimilarity None a b (fun _ => 0) 0%nat) == 3 # 10
    /\ dream_similarity_spec None a b 0 == 6 # 10
    /\ ~ fst (calculateDreamSimilarity None a b (fun _ => 0) 0%nat)
         == dream_similarity_spec None a b 0.
Proof.
  eexists. eexists.
  split; [vm_compute; reflexivity|].
  split; [vm_compute; reflexivity|].
  split; [vm_compute; reflexivity|].
  split; [vm_compute; reflexivity|].
  intros H. vm_compute in H. discriminate.
Defined.

End DreamProps.

(** ** Core status across the operations *)

Module HysteresisProps.
Import Js JsFacts JsMapFacts Brain Spec GraphProps.

(** *** Nodes carried through the steps of an operation *)

Lemma same_status_refl (n : InterestNode) : same_status n n.
Proof. now split. Qed.

Lemma same_status_trans (x y z : InterestNode) :
  same_status x y -> same_status y z -> same_status x z.
Proof. intros [A B] [C D]. split; congruence. Qed.

Lemma carried_refl (m : JsMap.t InterestNode) : carried m m.
Proof. intros k n H. exists n. split; [assumption | apply same_status_refl]. Qed.

Lemma carried_trans (m1 m2 m3 : JsMap.t InterestNode) :
  carried m1 m2 -> carried m2 m3 -> carried m1 m3.
Proof.
  intros H12 H23 k n3 H. apply H23 in H. destruct H as (n2 & H2 & S2).
  apply H12 in H2. destruct H2 as (n1 & H1 & S1).
  exists n1. split; [assumption|]. eapply same_status_trans; eassumption.
Qed.

Lemma carried_modify (k : string) (f : InterestNode -> InterestNode)
    (m : JsMap.t InterestNode) :
  (forall n, same_status n (f n)) -> carried m (JsMap.modify k f m).
Proof.
  intros Hf k' n'. rewrite get_modify.
  destruct (String.eqb k k'); [|apply carried_refl].
  destruct (JsMap.get k' m) as [n|]; [|discriminate].
  simpl. intros [= <-]. exists n. split; [reflexivity | apply Hf].
Qed.

Lemma carried_fold_modify (g : string -> InterestNode -> InterestNode)
    (ks : list string) (m : JsMap.t InterestNode) :
  (forall t n, same_status n (g t n)) ->
  carried m (fold_left (fun m' t => JsMap.modify t (g t) m') ks m).
Proof.
  intros Hg. revert m. induction ks as [|t ks IH]; intros m; simpl.
  - apply carried_refl.
  - eapply carried_trans; [|apply IH]. apply carried_modify, Hg.
Qed.

Lemma carried_delete (k : string) (m : JsMap.t InterestNode) :
  carried m (JsMap.delete k m).
Proof.
  intros k' n'. rewrite get_delete.
  destruct (String.eqb k k'); [discriminate | apply carried_refl].
Qed.

Lemma carried_map (f : InterestNode -> InterestNode)
    (m : JsMap.t InterestNode) :
  (forall n, same_status n (f n)) ->
  carried m (map (fun e => (fst e, f (snd e))) m).
Proof.
  intros Hf k n'. rewrite get_map_values.
  destruct (JsMap.get k m) as [n|]; [|discriminate].
  simpl. intros [= <-]. exists n. split; [reflexivity | apply Hf].
Qed.

Lemma keys_fold_modify {V : Type} (g : string -> V -> V) (ks : list string)
    (m : JsMap.t V) :
  JsMap.keys (fold_left (fun m' t => JsMap.modify t (g t) m') ks m)
  = JsMap.keys m.
Proof.
  revert m. induction ks as [|t ks IH]; intros m; simpl; [reflexivity|].
  rewrite IH. apply keys_modify.
Qed.

Lemma keys_delete {V : Type} (k : string) (m : JsMap.t V) :
  JsMap.keys (JsMap.delete k m)
  = filter (fun k' => negb (String.eqb k' k)) (JsMap.keys m).
Proof.
  unfold JsMap.keys, JsMap.delete.
  induction m as [|[k0 v0] m IH]; simpl; [reflexivity|].
  destruct (String.eqb k0 k); simpl; now rewrite IH.
Qed.

Lemma set_absent {V : Type} (k : string) (v : V) (m : JsMap.t V) :
  JsMap.get k m = None -> JsMap.set k v m = m ++ [(k, v)].
Proof.
  induction m as [|[k0 v0] m IH]; simpl; [reflexivity|].
  destruct (String.eqb k0 k); [discriminate|].
  intros H. now rewrite IH.
Qed.

Lemma NoDup_keys_get {V : Type} (k : string) (v : V) (m : JsMap.t V) :
  NoDup (JsMap.keys m) -> In (k, v) m -> JsMap.get k m = Some v.
Proof.
  induction m as [|[k0 v0] m IH]; simpl; [tauto|].
  intros N H. inversion N as [|? ? Hk N']; subst.
  destruct H as [[= -> ->] | H].
  - now rewrite String.eqb_refl.
  - destruct (String.eqb_spec k0 k) as [->|_]; [|now apply IH].
    exfalso. apply Hk. change k with (fst (k, v)). now apply in_map.
Qed.

(** *** The steps of the graph's own operations *)

Lemma bumped_status (cfg : Config) (now : Z) (s : Q) (n : InterestNode) :
  same_status n (bumped cfg now s n).
Proof. now split. Qed.

Lemma spread_to_status (cfg : Config) (now : Z) (s : Q) (n : InterestNode) :
  same_status n (spread_to cfg now s n).
Proof. now split. Qed.

Lemma unlinked_status (t : string) (n : InterestNode) :
  same_status n (unlinked t n).
Proof. now split. Qed.

Lemma decay_visit_status (cfg : Config) (now : Z) (n : InterestNode) :
  same_status n (decay_visit cfg now n).
Proof. now split. Qed.

Lemma reinforceInterest_carried (cfg : Config) (now : Z) (t : string)
    (s : Q) (b : Engine) :
  carried (interests b) (interests (reinforceInterest cfg now t s b))
  /\ JsMap.keys (interests (reinforceInterest cfg now t s b))
     = JsMap.keys (interests b).
Proof.
  unfold reinforceInterest. destruct (JsMap.get t (interests b));
    [|split; [apply carried_refl | reflexivity]].
  simpl. split.
  - eapply carried_trans; [apply carried_modify, bumped_status|].
    apply (carried_fold_modify (fun _ => spread_to cfg now s)).
    intros _. apply spread_to_status.
  - rewrite (keys_fold_modify (fun _ => spread_to cfg now s)).
    apply keys_modify.
Qed.

Lemma removeInterest_carried (t : string) (b : Engine) :
  carried (interests b) (interests (removeInterest t b))
  /\ (NoDup (JsMap.keys (interests b)) ->
      NoDup (JsMap.keys (interests (removeInterest t b)))).
Proof.
  unfold removeInterest. destruct (JsMap.get t (interests b));
    [|split; [apply carried_refl | tauto]].
  simpl. split.
  - eapply carried_trans; [|apply carried_delete].
    apply (carried_fold_modify (fun _ => unlinked t)).
    intros _. apply unlinked_status.
  - intros N. rewrite keys_delete.
    rewrite (keys_fold_modify (fun _ => unlinked t)).
    now apply NoDup_filter.
Qed.

Lemma remove_all_carried (l : list string) (b : Engine) :
  carried (interests b) (interests (remove_all l b))
  /\ (NoDup (JsMap.keys (interests b)) ->
      NoDup (JsMap.keys (interests (remove_all l b)))).
Proof.
  revert b. induction l as [|t l IH]; intros b; simpl.
  - split; [apply carried_refl | tauto].
  - destruct (IH (removeInterest t b)) as [C N].
    destruct (removeInterest_carried t b) as [C0 N0]. split.
    + eapply carried_trans; eassumption.
    + intros H. apply N, N0, H.
Qed.

Lemma removeWeakestInterest_carried (b : Engine) :
  carried (interests b) (interests (removeWeakestInterest b))
  /\ (NoDup (JsMap.keys (interests b)) ->
      NoDup (JsMap.keys (interests (removeWeakestInterest b)))).
Proof.
  unfold removeWeakestInterest.
  destruct (fold_left weakest_visit (interests b) None) as [[w q]|];
    [|split; [apply carried_refl | tauto]].
  destruct (String.eqb w EmptyString);
    [split; [apply carried_refl | tauto] | apply removeInterest_carried].
Qed.

Lemma link_visit_entry (cfg : Config) (now : Z) (t : string)
    (nc : list string) (e : string * InterestNode) :
  fst (fst (fst (link_visit cfg now t nc e))) = fst e
  /\ same_status (snd e) (snd (fst (fst (link_visit cfg now t nc e)))).
Proof.
  unfold link_visit. destruct e as [k n].
  destruct (String.eqb k t); [now repeat split|].
  destruct (geb _ _); now repeat split.
Qed.

Lemma link_all_carried (cfg : Config) (now : Z) (t : string)
    (m : JsMap.t InterestNode) :
  forall nc,
    JsMap.keys (fst (fst (link_all cfg now t nc m))) = JsMap.keys m
    /\ carried m (fst (fst (link_all cfg now t nc m))).
Proof.
  induction m as [|e m IH]; intros nc; simpl.
  - split; [reflexivity | apply carried_refl].
  - pose proof (link_visit_entry cfg now t nc e) as [K S].
    destruct (link_visit cfg now t nc e) as [[e' nc1] log1].
    destruct (IH nc1) as [K1 C1].
    destruct (link_all cfg now t nc1 m) as [[m' nc2] log2].
    simpl in *. split; [now rewrite K, K1|].
    intros k n'. destruct e as [k0 n0], e' as [k0' n0']. simpl in *.
    subst k0'. destruct (String.eqb k0 k).
    + intros [= <-]. now exists n0.
    + apply C1.
Qed.

Lemma findAndCreateConnections_carried (cfg : Config) (now : Z)
    (t : string) (b : Engine) :
  carried (interests b) (interests (findAndCreateConnections cfg now t b))
  /\ JsMap.keys (interests (findAndCreateConnections cfg now t b))
     = JsMap.keys (interests b).
Proof.
  unfold findAndCreateConnections.
  destruct (JsMap.get t (interests b)) as [node|];
    [|split; [apply carried_refl | reflexivity]].
  destruct (link_all_carried cfg now t (interests b) (connections node))
    as [K C].
  destruct (link_all cfg now t (connections node) (interests b))
    as [[m nc] log].
  simpl in *. split.
  - eapply carried_trans; [exact C|]. apply carried_modify. now split.
  - now rewrite keys_modify.
Qed.

(** *** The invariant *)

Lemma carried_grown (m m' : JsMap.t InterestNode) :
  carried m m' -> grown m m'.
Proof. intros C k n' H. left. now apply C. Qed.

Lemma grown_carried (m1 m2 m3 : JsMap.t InterestNode) :
  grown m1 m2 -> carried m2 m3 -> grown m1 m3.
Proof.
  intros G C k n3 H. apply C in H. destruct H as (n2 & H2 & S2).
  apply G in H2. destruct H2 as [(n1 & H1 & S1) | (H1 & F)].
  - left. exists n1. split; [assumption|].
    eapply same_status_trans; eassumption.
  - right. split; [assumption|]. destruct S2 as [-> _]. exact F.
Qed.

Lemma grown_core_is_Core (b pre : Engine) :
  graph_ok b -> grown (interests b) (interests pre) ->
  forall k n,
    JsMap.get k (interests pre) = Some n ->
    isCore n = true -> memoryType n = Core.
Proof.
  intros [_ I] G k n H Hc. apply G in H.
  destruct H as [(n0 & H0 & [Sc Sm]) | (_ & F)]; [|congruence].
  rewrite Sm. apply (I k n0 H0). congruence.
Qed.

Lemma updateCoreStatus_ok (cfg : Config) (pre : Engine) :
  NoDup (JsMap.keys (interests pre)) ->
  (forall k n, JsMap.get k (interests pre) = Some n ->
               isCore n = true -> memoryType n = Core) ->
  graph_ok (updateCoreStatus cfg pre).
Proof.
  intros N I. split.
  - unfold updateCoreStatus. simpl. now rewrite keys_map_values.
  - intros k n'. rewrite get_updateCoreStatus.
    destruct (JsMap.get k (interests pre)) as [x|] eqn:Hx; [|discriminate].
    simpl. intros [= <-] Hc.
    destruct (core_visit_fields cfg x) as (_ & _ & _ & _ & _ & Hi).
    rewrite Hi in Hc. rewrite core_visit_memoryType, Hc.
    destruct (isCore x) eqn:Ex; [|reflexivity]. now apply (I k x).
Qed.

(** [addInterest] is a re-evaluation of a graph that has grown by at
    most the new node. *)
Lemma addInterest_pre (cfg : Config) (now : Z) (topic : string)
    (strength : Q) (b : Engine) :
  exists pre,
    fst (addInterest cfg now topic strength b) = updateCoreStatus cfg pre
    /\ grown (interests b) (interests pre)
    /\ (NoDup (JsMap.keys (interests b)) ->
        NoDup (JsMap.keys (interests pre))).
Proof.
  unfold addInterest. set (key := trim (toLowerCase topic)).
  destruct (JsMap.has key (interests b)) eqn:E.
  - eexists. split; [reflexivity|].
    destruct (reinforceInterest_carried cfg now key strength b) as [C K].
    split; [now apply carried_grown | now rewrite K].
  - apply has_false in E.
    set (b0 := if (maxShortTermInterests cfg <=? JsMap.size (interests b))%nat
               then removeWeakestInterest b else b).
    assert (C0 : carried (interests b) (interests b0)
                 /\ (NoDup (JsMap.keys (interests b)) ->
                     NoDup (JsMap.keys (interests b0)))).
    { unfold b0. destruct (_ <=? _)%nat;
        [apply removeWeakestInterest_carried
        | split; [apply carried_refl | tauto]]. }
    destruct C0 as [C0 N0].
    assert (A0 : JsMap.get key (interests b0) = None).
    { destruct (JsMap.get key (interests b0)) as [x|] eqn:Hx;
        [|reflexivity].
      apply C0 in Hx. destruct Hx as (n & Hn & _). congruence. }
    eexists. split; [reflexivity|].
    match goal with
    | |- context [findAndCreateConnections cfg now key ?e] =>
        destruct (findAndCreateConnections_carried cfg now key e) as [C1 K1]
    end.
    simpl in C1, K1. split.
    + eapply grown_carried; [|exact C1].
      intros k n'. rewrite get_set.
      destruct (String.eqb_spec key k) as [<-|Nk].
      * intros [= <-]. right. split; [assumption | reflexivity].
      * intros H. left. now apply C0.
    + intros N. rewrite K1, (set_absent _ _ _ A0).
      unfold JsMap.keys. rewrite map_app. simpl.
      apply NoDup_app; [now apply N0 | repeat constructor; simpl; tauto|].
      intros a Ha [<- | []].
      apply In_keys_get in Ha. destruct Ha as [v Hv]. congruence.
Qed.

Lemma applyDecay_pre (cfg : Config) (now : Z) (b : Engine) :
  exists pre,
    applyDecay cfg now b = updateCoreStatus cfg pre
    /\ carried (interests b) (interests pre)
    /\ (NoDup (JsMap.keys (interests b)) ->
        NoDup (JsMap.keys (interests pre))).
Proof.
  unfold applyDecay. eexists. split; [reflexivity|].
  match goal with
  | |- context [remove_all ?l ?e] =>
      destruct (remove_all_carried l e) as [C N]
  end.
  simpl in C, N. split.
  - eapply carried_trans; [|exact C].
    apply carried_map, decay_visit_status.
  - intros H. apply N. now rewrite keys_map_values.
Qed.

Lemma reevaluation_pre (cfg : Config) (b b' : Engine) :
  reevaluation cfg b b' ->
  exists pre,
    b' = updateCoreStatus cfg pre
    /\ grown (interests b) (interests pre)
    /\ (NoDup (JsMap.keys (interests b)) ->
        NoDup (JsMap.keys (interests pre))).
Proof.
  intros [now topic strength b0 | now b0].
  - apply addInterest_pre.
  - destruct (applyDecay_pre cfg now b0) as (pre & E & C & N).
    exists pre. repeat split; try assumption. now apply carried_grown.
Qed.

(** *** Consolidation *)

Lemma consolidate_visit_effect (log : Q -> Q) (cfg : Memory.Config)
    (now : Z) st e k n1 :
  JsMap.get k (interests (visit_brain
                            (Memory.consolidate_visit log cfg now st e)))
  = Some n1 ->
  exists n,
    JsMap.get k (interests (visit_brain st)) = Some n
    /\ (n1 = n \/ (n1 = set_promoted now n /\ k = fst e)).
Proof.
  destruct st as [[c b] [proms forgs]], e as [k0 x].
  unfold Memory.consolidate_visit.
  destruct (geb _ _).
  - unfold Memory.promoteToLongTerm, visit_brain. simpl.
    rewrite get_modify. destruct (String.eqb_spec k0 k) as [->|N].
    + destruct (JsMap.get k (interests b)) as [n|]; [|discriminate].
      simpl. intros [= <-]. exists n. split; [reflexivity|]. now right.
    + intros H. exists n1. split; [assumption | now left].
  - destruct (ltb _ _); unfold visit_brain; simpl; intros H; exists n1;
      (split; [assumption | now left]).
Qed.

Lemma consolidate_fold_effect (log : Q -> Q) (cfg : Memory.Config)
    (now : Z) l :
  forall st k n',
    JsMap.get k (interests
                   (visit_brain
                      (fold_left (Memory.consolidate_visit log cfg now) l st)))
    = Some n' ->
    exists n,
      JsMap.get k (interests (visit_brain st)) = Some n
      /\ (n' = n \/ (n' = set_promoted now n /\ In k (map fst l))).
Proof.
  induction l as [|e l IH]; intros st k n'; simpl.
  - intros H. exists n'. split; [assumption | now left].
  - intros H. apply IH in H. destruct H as (n1 & H1 & R1).
    apply consolidate_visit_effect in H1. destruct H1 as (n & H0 & R0).
    exists n. split; [assumption|].
    destruct R1 as [-> | [-> Hin]], R0 as [-> | [-> ->]]; auto.
Qed.

(** A consolidation pass leaves every node as it was, or sets a
    short-term node to long-term. *)
Lemma consolidate_effect (log : Q -> Q) (cfg : Memory.Config) (now : Z)
    (c c' : Memory.Consolidator) (b b' : Engine) (r : Memory.Results) :
  Memory.consolidate log cfg now c (Some b) = (c', Some b', r) ->
  JsMap.keys (interests b') = JsMap.keys (interests b)
  /\ (NoDup (JsMap.keys (interests b)) ->
      forall k n',
        JsMap.get k (interests b') = Some n' ->
        exists n,
          JsMap.get k (interests b) = Some n
          /\ (n' = n
              \/ (memoryType n = ShortTerm /\ n' = set_promoted now n))).
Proof.
  unfold Memory.consolidate.
  set (shortTerm := filter _ (interests b)).
  pose proof (ConsolidatorProps.consolidate_fold_keys log cfg now shortTerm
                (c, b, ([], []))) as K.
  pose proof (consolidate_fold_effect log cfg now shortTerm
                (c, b, ([], []))) as F.
  destruct (fold_left _ shortTerm _) as [[c1 b1] [proms forgs]].
  unfold visit_brain in K, F. simpl in K, F.
  intros [= <- <- <-]. split; [exact K|].
  intros N k n' H. apply F in H. destruct H as (n & Hn & R).
  exists n. split; [assumption|].
  destruct R as [-> | [-> Hin]]; [now left|]. right. split; [|reflexivity].
  apply in_map_iff in Hin. destruct Hin as ([k0 x] & <- & Hx).
  apply filter_In in Hx. destruct Hx as [Hx Hm]. simpl in *.
  apply (NoDup_keys_get _ _ _ N) in Hx.
  apply MemoryType_eqb_eq in Hm. congruence.
Qed.

(** *** Dreaming *)

Lemma steady_refl (m : JsMap.t InterestNode) : steady m m.
Proof. split; [reflexivity | apply carried_refl]. Qed.

Lemma steady_trans (m1 m2 m3 : JsMap.t InterestNode) :
  steady m1 m2 -> steady m2 m3 -> steady m1 m3.
Proof.
  intros [K1 C1] [K2 C2]. split; [congruence|].
  eapply carried_trans; eassumption.
Qed.

Lemma steady_modify (k : string) (f : InterestNode -> InterestNode)
    (m : JsMap.t InterestNode) :
  (forall n, same_status n (f n)) -> steady m (JsMap.modify k f m).
Proof.
  intros Hf. split; [apply keys_modify | now apply carried_modify].
Qed.

Lemma push_connection_status (t : string) (n : InterestNode) :
  same_status n (Dreamer.push_connection t n).
Proof.
  unfold Dreamer.push_connection. now destruct (includes _ _).
Qed.

Lemma createDreamConnection_steady (cfg : Dreamer.Config) (now : Z)
    (a b : string) (sim : Q) st :
  steady (interests (fst st))
         (interests (fst (Dreamer.createDreamConnection cfg now a b sim st))).
Proof.
  destruct st as [e disc]. unfold Dreamer.createDreamConnection.
  destruct (JsMap.get a (interests e)); [|apply steady_refl].
  destruct (JsMap.get b (interests e)); [|apply steady_refl].
  simpl.
  repeat (eapply steady_trans; [|apply steady_modify; intros n; now split]).
  eapply steady_trans;
    apply steady_modify; intros n; apply push_connection_status.
Qed.

Lemma strengthenConnection_steady (a b : string) (e : Engine) :
  steady (interests e) (interests (Dreamer.strengthenConnection a b e)).
Proof.
  unfold Dreamer.strengthenConnection.
  destruct (JsMap.get a (interests e)); [|apply steady_refl].
  destruct (JsMap.get b (interests e)); [|apply steady_refl].
  simpl. eapply steady_trans; apply steady_modify; intros n; now split.
Qed.

Lemma apply_connection_steady (cfg : Dreamer.Config) (now : Z)
    (st : Dreamer.Running) (conn : Dreamer.PotentialConnection) :
  steady (interests (Dreamer.run_brain st))
         (interests (Dreamer.run_brain
                       (Dreamer.apply_connection cfg now st conn))).
Proof.
  unfold Dreamer.apply_connection.
  destruct (Dreamer.isNewConnection _ _ _).
  - pose proof (createDreamConnection_steady cfg now
                  (Dreamer.pc_from conn) (Dreamer.pc_to conn)
                  (Dreamer.pc_similarity conn)
                  (Dreamer.run_brain st, Dreamer.run_discovered st)) as S.
    destruct (Dreamer.createDreamConnection _ _ _ _ _ _) as [b' d'].
    exact S.
  - apply strengthenConnection_steady.
Qed.

Lemma apply_connections_steady (cfg : Dreamer.Config) (now : Z)
    (conns : list Dreamer.PotentialConnection) :
  forall st,
    steady (interests (Dreamer.run_brain st))
           (interests (Dreamer.run_brain
                         (fold_left (Dreamer.apply_connection cfg now)
                                    conns st))).
Proof.
  induction conns as [|conn conns IH]; intros st; simpl.
  - apply steady_refl.
  - eapply steady_trans; [apply apply_connection_steady | apply IH].
Qed.

Lemma dream_chains_steady (cfg : Dreamer.Config) (now : Z)
    (explorer : option (list Dreamer.Discovery)) (count : nat) :
  forall st rnd n,
    steady (interests (Dreamer.run_brain st))
           (interests
              (Dreamer.run_brain
                 (snd (fst (Dreamer.dream_chains cfg now explorer count st
                                                 rnd n))))).
Proof.
  induction count as [|count IH]; intros st rnd n;
    cbn [Dreamer.dream_chains].
  - apply steady_refl.
  - rewrite RandFacts.bind_eq.
    destruct (fst (Dreamer.generateMemoryChain _ _ _ _ _)) as [chain|];
      [|apply steady_refl].
    rewrite RandFacts.bind_eq.
    eapply steady_trans; [|apply IH].
    eapply steady_trans; [|apply apply_connections_steady].
    apply steady_refl.
Qed.

(** A dream neither adds nor removes a node and changes the status of
    none. *)
Lemma dream_steady (cfg : Dreamer.Config) (now : Z)
    (explorer : option (list Dreamer.Discovery))
    (d d' : Dreamer.DreamState) (b b' : Engine)
    (res : Dreamer.DreamResult) (rnd : nat -> Q) (n n' : nat) :
  Dreamer.dream cfg now explorer d (Some b) rnd n = (d', Some b', res, n') ->
  steady (interests b) (interests b').
Proof.
  unfold Dreamer.dream. destruct (Dreamer.isDreaming d).
  - intros [= <- <- <- <-]. apply steady_refl.
  - destruct (_ <? 3)%nat.
    + intros [= <- <- <- <-]. apply steady_refl.
    + rewrite RandFacts.bind_eq.
      pose proof (dream_chains_steady cfg now explorer
                    (Dreamer.chainsPerDream cfg)
                    (Dreamer.mkRunning b (Dreamer.discoveredConnections d)
                                       [] [] []) rnd n) as S.
      destruct (Dreamer.dream_chains _ _ _ _ _ _ _) as [[completed st] n1].
      simpl in S |- *. destruct completed; intros [= <- <- <- <-]; exact S.
Qed.

(** *** Reachable graphs *)

Lemma operation_ok (cfg : Config) (b b' : Engine) :
  graph_ok b -> operation cfg b b' -> graph_ok b'.
Proof.
  intros Hb Op. revert Hb.
  destruct Op as [b0 b0' R | log mcfg now c c' b0 b0' r E
                  | dcfg now explorer d d' b0 b0' res rnd n n' E];
    intros Hb.
  - destruct (reevaluation_pre cfg _ _ R) as (pre & -> & G & N).
    apply updateCoreStatus_ok; [apply N, Hb|].
    now apply (grown_core_is_Core b0).
  - destruct (consolidate_effect _ _ _ _ _ _ _ _ E) as [K F].
    destruct Hb as [N I]. split; [now rewrite K|].
    intros k n1 H Hc. destruct (F N k n1 H) as (n0 & H0 & [-> | [Hs ->]]).
    + now apply (I k n0).
    + simpl in Hc. pose proof (I k n0 H0 Hc). congruence.
  - apply dream_steady in E. destruct E as [K C].
    destruct Hb as [N I]. split; [now rewrite K|].
    intros k n1 H Hc. apply C in H. destruct H as (n0 & H0 & [Sc Sm]).
    rewrite Sm. apply (I k n0 H0). congruence.
Qed.

Lemma reachable_ok (cfg : Config) (b : Engine) :
  reachable cfg b -> graph_ok b.
Proof.
  induction 1 as [|b b' _ IH Op].
  - split; [constructor | discriminate].
  - eapply operation_ok; eassumption.
Qed.

(** C3 (amended). In every graph reachable by the operations: when
    [addInterest] or a decay tick has re-evaluated the core status, a
    node whose weight is at or above [coreThreshold] has memory type
    [Core], and a node that was [Core] and whose weight is below
    [coreThreshold] has memory type [LongTerm]; and no operation
    (graph operation, consolidation pass or dream session) takes a
    node from [Core] to [ShortTerm]. *)
Theorem core_hysteresis (cfg : Config) (b b' : Engine) :
  reachable cfg b ->
  (reevaluation cfg b b' ->
   forall k n',
     JsMap.get k (interests b') = Some n' ->
     (coreThreshold cfg <= weight n' -> memoryType n' = Core)
     /\ (forall n,
            JsMap.get k (interests b) = Some n ->
            memoryType n = Core ->
            weight n' < coreThreshold cfg ->
            memoryType n' = LongTerm))
  /\ (operation cfg b b' ->
      forall k n n',
        JsMap.get k (interests b) = Some n ->
        JsMap.get k (interests b') = Some n' ->
        memoryType n = Core ->
        memoryType n' <> ShortTerm).
Proof.
  intros Hr. pose proof (reachable_ok cfg b Hr) as Hok.
  assert (Re : reevaluation cfg b b' ->
               forall k n',
                 JsMap.get k (interests b') = Some n' ->
                 exists x,
                   n' = core_visit cfg x
                   /\ (isCore x = true -> memoryType x = Core)
                   /\ (forall n, JsMap.get k (interests b) = Some n ->
                                 memoryType x = memoryType n)).
  { intros R k n' H.
    destruct (reevaluation_pre cfg _ _ R) as (pre & -> & G & _).
    rewrite get_updateCoreStatus in H.
    destruct (JsMap.get k (interests pre)) as [x|] eqn:Hx; [|discriminate].
    simpl in H. injection H as <-. exists x. split; [reflexivity|].
    split.
    - now apply (grown_core_is_Core b pre Hok G k x).
    - intros n Hn. apply G in Hx.
      destruct Hx as [(n0 & H0 & [_ Sm]) | (H0 & _)]; congruence. }
  split.
  - intros R k n' H. destruct (Re R k n' H) as (x & -> & Ic & Im).
    destruct (core_visit_fields cfg x) as (_ & Hw & _).
    rewrite Hw, core_visit_memoryType. split.
    + intros Ht. apply geb_true in Ht. rewrite Ht.
      destruct (isCore x); [now apply Ic | reflexivity].
    + intros n Hn Hm Ht. apply geb_false in Ht. rewrite Ht.
      now rewrite (Im n Hn), Hm.
  - intros Op k n n' Hn Hn' Hm. revert Hok Re Hn Hn'.
    destruct Op as [b0 b0' R | log mcfg now c c' b0 b0' r E
                    | dcfg now explorer d d' b0 b0' res rnd m m' E];
      intros Hok Re Hn Hn'.
    + destruct (Re R k n' Hn') as (x & -> & Ic & Im).
      rewrite core_visit_memoryType, (Im n Hn), Hm.
      destruct (geb _ _), (isCore x); simpl; discriminate.
    + destruct (consolidate_effect _ _ _ _ _ _ _ _ E) as [_ F].
      destruct (F (proj1 Hok) k n' Hn') as (n0 & H0 & [-> | [Hs ->]]).
      * congruence.
      * simpl. discriminate.
    + apply dream_steady in E. destruct E as [_ C].
      apply C in Hn'. destruct Hn' as (n0 & H0 & [_ Sm]). congruence.
Qed.

Lemma two_topics_reachable : reachable default_config Sample.two_topics.
Proof.
  unfold Sample.two_topics.
  do 2 (eapply reach_step; [|apply op_graph, reev_add]).
  apply reach_new.
Qed.

Lemma square_reachable : reachable default_config Sample.square.
Proof.
  unfold Sample.square.
  do 4 (eapply reach_step; [|apply op_graph, reev_add]).
  apply reach_new.
Qed.

Lemma core_hysteresis_witness :
  exists n',
    JsMap.get "machine learning"
      (interests (fst (addInterest default_config 20 "machine learning"
                                   (2 # 10) Sample.two_topics)))
    = Some n'
    /\ memoryType n' = Core.
Proof.
  assert (G : exists n',
             JsMap.get "machine learning"
               (interests (fst (addInterest default_config 20
                                  "machine learning" (2 # 10)
                                  Sample.two_topics)))
             = Some n')
    by (eexists; vm_compute; reflexivity).
  destruct G as [n' G]. exists n'. split; [exact G|].
  apply (proj1 (core_hysteresis default_config Sample.two_topics _
                  two_topics_reachable)
               (reev_add default_config 20 "machine learning" (2 # 10)
                         Sample.two_topics)
               "machine learning"%string n' G).
  vm_compute in G. injection G as <-. vm_compute. discriminate.
Defined.

(** A dream session lifts the weight of "alpha beta" from 0.6 to 1,
    across [coreThreshold], and leaves it a short-term node: the
    session does not re-evaluate the core status. *)
Lemma core_hysteresis_counterexample :
  exists b' n n',
    reachable default_config Sample.square
    /\ operation default_config Sample.square b'
    /\ JsMap.get "alpha beta" (interests Sample.square) = Some n
    /\ JsMap.get "alpha beta" (interests b') = Some n'
    /\ weight n < coreThreshold default_config
    /\ coreThreshold default_config <= weight n'
    /\ memoryType n' = ShortTerm.
Proof.
  eexists. eexists. eexists.
  split; [exact square_reachable|].
  split.
  { eapply (op_dream default_config Dreamer.default_config 100 None
              Dreamer.new_dreamer _ Sample.square _ _ (fun _ => 0) 0%nat _).
    vm_compute. reflexivity. }
  split; [vm_compute; reflexivity|].
  split; [vm_compute; reflexivity|].
  split; [vm_compute; reflexivity|].
  split; [vm_compute; discriminate | reflexivity].
Defined.

End HysteresisProps.

(** ** Strategy evolution *)

Module EvolutionProps.
Import Js JsFacts Spec Genetics RandFacts.

(** *** Sorting *)

Lemma insert_by_fitness_length (x : Strategy) (l : list Strategy) :
  List.length (insert_by_fitness x l) = S (List.length l).
Proof.
  induction l as [|y l IH]; simpl; [reflexivity|].
  destruct (ltb _ _); simpl; now rewrite ?IH.
Qed.

Lemma insert_by_fitness_Forall (P : Strategy -> Prop) (x : Strategy)
    (l : list Strategy) :
  P x -> Forall P l -> Forall P (insert_by_fitness x l).
Proof.
  intros Hx. induction 1 as [|y l Hy Hl IH]; simpl.
  - now repeat constructor.
  - destruct (ltb _ _); repeat constructor; assumption.
Qed.

Lemma sort_by_fitness_length (l : list Strategy) :
  List.length (sort_by_fitness l) = List.length l.
Proof.
  induction l as [|x l IH]; simpl; [reflexivity|].
  now rewrite insert_by_fitness_length, IH.
Qed.

Lemma sort_by_fitness_Forall (P : Strategy -> Prop) (l : list Strategy) :
  Forall P l -> Forall P (sort_by_fitness l).
Proof.
  induction 1 as [|x l Hx Hl IH]; simpl; [constructor|].
  now apply insert_by_fitness_Forall.
Qed.


(** *** Selection *)

Lemma spin_In (adjusted : list (Strategy * Q)) :
  forall random s, spin random adjusted = Some s -> In s (map fst adjusted).
Proof.
  induction adjusted as [|[s0 f] adjusted IH]; intros random s; simpl.
  - discriminate.
  - destruct (leb _ _).
    + intros [= <-]. now left.
    + intros H. right. eapply IH, H.
Qed.

Lemma selectParent_parent (population : list Strategy) (rnd : nat -> Q) :
  always rnd (selectParent population) (parent_of population).
Proof.
  intros n. destruct population as [|s0 rest]; [reflexivity|].
  unfold selectParent. rewrite bind_eq. unfold Rand.ret. cbn [fst].
  destruct (spin _ _) as [s|] eqn:E; [|now left].
  apply spin_In in E. rewrite map_map, map_id in E. exact E.
Qed.

(** *** Crossover and mutation *)

Section Genes.
Variable rnd : nat -> Q.
Hypothesis rnd_unit : Rand.unit_interval rnd.
Variable cfg : Config.




Lemma mutate_api_entry_unit (a : Q) :
  in_unit a -> always rnd (mutate_api_entry cfg a) in_unit.
Proof.
  intros Ha n. unfold mutate_api_entry. rewrite bind_eq.
  destruct (ltb _ _); [|exact Ha].
  destruct (rnd_unit (snd (Rand.random rnd n))) as [L U].
  split; [exact L | now apply Qlt_le_weak].
Qed.

Lemma mutate_api_unit (a : ApiPreferences) :
  api_in_unit a -> always rnd (mutate_api cfg a) api_in_unit.
Proof.
  intros Ha. unfold mutate_api.
  apply always_bind with (P := fun _ => True);
    [apply always_trivial | intros r _].
  destruct (ltb _ _); [|now apply always_ret].
  unfold api_in_unit in Ha.
  repeat (apply always_bind with (P := in_unit);
          [apply mutate_api_entry_unit; tauto | intros ? ?]).
  apply always_ret. unfold api_in_unit. simpl. tauto.
Qed.




End Genes.

(** *** The loop always fills the population *)

Lemma make_offspring_some (cfg : Config) (now gen : Z)
    (population : list Strategy) (rnd : nat -> Q) :
  population <> [] ->
  always rnd (make_offspring cfg now gen population)
         (fun o => exists s, o = Some s).
Proof.
  intros Hne. unfold make_offspring.
  apply always_bind with (P := parent_of population);
    [apply selectParent_parent | intros parent1 H1].
  apply always_bind with (P := parent_of population);
    [apply selectParent_parent | intros parent2 H2].
  apply always_bind with (P := fun _ => True);
    [apply always_trivial | intros r _].
  destruct parent1 as [p1|], parent2 as [p2|]; simpl in H1, H2;
    try contradiction.
  intros n. rewrite !bind_eq. unfold Rand.ret. cbn [fst]. eauto.
Qed.

Lemma fill_some (cfg : Config) (now gen : Z) (population : list Strategy)
    (rnd : nat -> Q) (missing : nat) :
  population <> [] ->
  always rnd (fill cfg now gen population missing)
         (fun o => exists l, o = Some l /\ List.length l = missing).
Proof.
  intros Hne. induction missing as [|missing IH]; cbn [fill].
  - apply always_ret. now exists [].
  - apply always_bind with (P := fun o => exists s, o = Some s);
      [now apply make_offspring_some | intros o [offspring ->]].
    apply always_bind
      with (P := fun o => exists l, o = Some l /\ List.length l = missing);
      [exact IH | intros rest (l & -> & Hl)].
    apply always_ret. exists (offspring :: l).
    split; [reflexivity | simpl; lia].
Qed.




End EvolutionProps.

(** ** Adjacency across the operations *)

Module LinkProps.
Import Js JsFacts JsMapFacts Brain Spec GraphProps HysteresisProps RandFacts.

Lemma links_ok_node_same (k : string) (n n' : InterestNode) :
  topic n' = topic n -> connections n' = connections n ->
  links_ok_node k n -> links_ok_node k n'.
Proof. unfold links_ok_node. intros -> ->. tauto. Qed.

(** *** Properties of every node, through the map primitives *)

Section Entries.
Variable P : string -> InterestNode -> Prop.

Lemma entries_modify (k : string) (f : InterestNode -> InterestNode)
    (m : JsMap.t InterestNode) :
  entries P m -> (forall n, P k n -> P k (f n)) ->
  entries P (JsMap.modify k f m).
Proof.
  intros L Hf. unfold entries, JsMap.modify. apply Forall_map.
  eapply Forall_impl; [|exact L]. intros [k0 n0] H0. simpl in *.
  destruct (String.eqb_spec k0 k) as [->|N]; simpl; auto.
Qed.

Lemma entries_fold_modify (g : string -> InterestNode -> InterestNode)
    (ks : list string) :
  (forall t n, P t n -> P t (g t n)) ->
  forall m,
    entries P m ->
    entries P (fold_left (fun m' t => JsMap.modify t (g t) m') ks m).
Proof.
  intros Hg. induction ks as [|t ks IH]; intros m L; simpl; [assumption|].
  apply IH, entries_modify; [assumption | apply Hg].
Qed.

Lemma entries_delete (k : string) (m : JsMap.t InterestNode) :
  entries P m -> entries P (JsMap.delete k m).
Proof.
  unfold entries, JsMap.delete. rewrite !Forall_forall.
  intros L e He. apply filter_In in He. now apply L.
Qed.

Lemma entries_map (f : InterestNode -> InterestNode)
    (m : JsMap.t InterestNode) :
  entries P m -> (forall k n, P k n -> P k (f n)) ->
  entries P (map (fun e => (fst e, f (snd e))) m).
Proof.
  intros L Hf. unfold entries. apply Forall_map.
  eapply Forall_impl; [|exact L]. intros e He. simpl. now apply Hf.
Qed.

Lemma entries_set (k : string) (v : InterestNode)
    (m : JsMap.t InterestNode) :
  entries P m -> P k v -> entries P (JsMap.set k v m).
Proof.
  unfold entries. intros L Hv.
  induction L as [|[k0 v0] m H0 L IH]; simpl.
  - constructor; [exact Hv | constructor].
  - destruct (String.eqb_spec k0 k) as [->|N]; constructor; assumption.
Qed.

Lemma entries_get (k : string) (n : InterestNode)
    (m : JsMap.t InterestNode) :
  entries P m -> JsMap.get k m = Some n -> P k n.
Proof.
  intros L H. apply get_In in H.
  apply (proj1 (Forall_forall _ _) L (k, n) H).
Qed.

End Entries.

Lemma links_ok_modify (k : string) (f : InterestNode -> InterestNode)
    (m : JsMap.t InterestNode) :
  links_ok m ->
  (forall n, links_ok_node k n -> links_ok_node k (f n)) ->
  links_ok (JsMap.modify k f m).
Proof. apply entries_modify. Qed.

Lemma links_ok_fold_modify (g : string -> InterestNode -> InterestNode)
    (ks : list string) :
  (forall t n, links_ok_node t n -> links_ok_node t (g t n)) ->
  forall m,
    links_ok m ->
    links_ok (fold_left (fun m' t => JsMap.modify t (g t) m') ks m).
Proof. apply entries_fold_modify. Qed.

Lemma links_ok_delete (k : string) (m : JsMap.t InterestNode) :
  links_ok m -> links_ok (JsMap.delete k m).
Proof. apply entries_delete. Qed.

Lemma links_ok_map (f : InterestNode -> InterestNode)
    (m : JsMap.t InterestNode) :
  links_ok m ->
  (forall k n, links_ok_node k n -> links_ok_node k (f n)) ->
  links_ok (map (fun e => (fst e, f (snd e))) m).
Proof. apply entries_map. Qed.

Lemma links_ok_set (k : string) (v : InterestNode)
    (m : JsMap.t InterestNode) :
  links_ok m -> links_ok_node k v -> links_ok (JsMap.set k v m).
Proof. apply entries_set. Qed.

Lemma links_ok_get (k : string) (n : InterestNode)
    (m : JsMap.t InterestNode) :
  links_ok m -> JsMap.get k m = Some n -> links_ok_node k n.
Proof. apply entries_get. Qed.

(** *** The graph's own operations *)

Lemma unlinked_ok (t k : string) (n : InterestNode) :
  links_ok_node k n -> links_ok_node k (unlinked t n).
Proof.
  intros (Ht & Hn & Hs). repeat split; simpl.
  - exact Ht.
  - now apply NoDup_filter.
  - intros C. apply filter_In in C. tauto.
Qed.

Lemma pushed_NoDup (t : string) (l : list string) :
  NoDup l -> ~ In t l -> NoDup (l ++ [t]).
Proof.
  intros N H. apply NoDup_app; [assumption | repeat constructor; simpl; tauto|].
  intros a Ha [<- | []]. contradiction.
Qed.

Lemma reinforceInterest_links (cfg : Config) (now : Z) (t : string) (s : Q)
    (b : Engine) :
  links_ok (interests b) ->
  links_ok (interests (reinforceInterest cfg now t s b)).
Proof.
  intros L. unfold reinforceInterest.
  destruct (JsMap.get t (interests b)); [|assumption]. simpl.
  apply (links_ok_fold_modify (fun _ => spread_to cfg now s)).
  - intros k n. now apply links_ok_node_same.
  - apply links_ok_modify; [assumption|].
    intros n. now apply links_ok_node_same.
Qed.

Lemma removeInterest_links (t : string) (b : Engine) :
  links_ok (interests b) -> links_ok (interests (removeInterest t b)).
Proof.
  intros L. unfold removeInterest.
  destruct (JsMap.get t (interests b)); [|assumption]. simpl.
  apply links_ok_delete.
  apply (links_ok_fold_modify (fun _ => unlinked t)); [|assumption].
  intros k n. apply unlinked_ok.
Qed.

Lemma remove_all_links (l : list string) :
  forall b, links_ok (interests b) -> links_ok (interests (remove_all l b)).
Proof.
  induction l as [|t l IH]; intros b L; simpl; [assumption|].
  apply IH, removeInterest_links, L.
Qed.

Lemma removeWeakestInterest_links (b : Engine) :
  links_ok (interests b) -> links_ok (interests (removeWeakestInterest b)).
Proof.
  intros L. unfold removeWeakestInterest.
  destruct (fold_left weakest_visit (interests b) None) as [[w q]|];
    [|assumption].
  destruct (String.eqb w EmptyString);
    [assumption | now apply removeInterest_links].
Qed.

Lemma updateCoreStatus_links (cfg : Config) (b : Engine) :
  links_ok (interests b) -> links_ok (interests (updateCoreStatus cfg b)).
Proof.
  intros L. unfold updateCoreStatus. simpl.
  apply links_ok_map; [assumption|]. intros k n.
  destruct (core_visit_fields cfg n) as (Ht & _ & Hc & _).
  now apply links_ok_node_same.
Qed.

(** One visit of the linking traversal keeps the visited node and the
    adjacency under construction well formed. *)
Lemma link_visit_links (cfg : Config) (now : Z) (t : string)
    (nc : list string) (e : string * InterestNode) :
  links_ok_node (fst e) (snd e) -> NoDup nc -> ~ In t nc ->
  links_ok_node (fst (fst (fst (link_visit cfg now t nc e))))
                (snd (fst (fst (link_visit cfg now t nc e))))
  /\ NoDup (snd (fst (link_visit cfg now t nc e)))
  /\ ~ In t (snd (fst (link_visit cfg now t nc e))).
Proof.
  destruct e as [k n]. simpl. intros (Ht & Hn & Hs) N S.
  unfold link_visit.
  destruct (String.eqb_spec k t) as [->|Nk]; [simpl; now repeat split|].
  destruct (geb _ _); [|simpl; now repeat split]. simpl.
  repeat split.
  - exact Ht.
  - destruct (includes t (connections n)) eqn:E; simpl; [assumption|].
    apply pushed_NoDup; [assumption|].
    intros C. apply includes_In in C. congruence.
  - destruct (includes t (connections n)); simpl; [assumption|].
    rewrite in_app_iff. simpl. intuition congruence.
  - destruct (includes k nc) eqn:E; [assumption|].
    apply pushed_NoDup; [assumption|].
    intros C. apply includes_In in C. congruence.
  - destruct (includes k nc); [assumption|].
    rewrite in_app_iff. simpl. intuition congruence.
Qed.

Lemma link_all_links (cfg : Config) (now : Z) (t : string)
    (m : JsMap.t InterestNode) :
  links_ok m ->
  forall nc,
    NoDup nc -> ~ In t nc ->
    links_ok (fst (fst (link_all cfg now t nc m)))
    /\ NoDup (snd (fst (link_all cfg now t nc m)))
    /\ ~ In t (snd (fst (link_all cfg now t nc m))).
Proof.
  induction 1 as [|e m He L IH]; intros nc N S; simpl.
  - repeat split; [constructor | assumption | assumption].
  - destruct (link_visit_links cfg now t nc e He N S) as (V1 & V2 & V3).
    destruct (link_visit cfg now t nc e) as [[e' nc1] log1]. simpl in *.
    destruct (IH nc1 V2 V3) as (A1 & A2 & A3).
    destruct (link_all cfg now t nc1 m) as [[m' nc2] log2]. simpl in *.
    repeat split; [constructor|..]; assumption.
Qed.

Lemma findAndCreateConnections_links (cfg : Config) (now : Z) (t : string)
    (b : Engine) :
  links_ok (interests b) ->
  links_ok (interests (findAndCreateConnections cfg now t b)).
Proof.
  intros L. unfold findAndCreateConnections.
  destruct (JsMap.get t (interests b)) as [node|] eqn:E; [|assumption].
  destruct (links_ok_get _ _ _ L E) as (_ & Hn & Hs).
  destruct (link_all_links cfg now t (interests b) L (connections node) Hn Hs)
    as (A1 & A2 & A3).
  destruct (link_all cfg now t (connections node) (interests b))
    as [[m nc] log].
  simpl in *. apply links_ok_modify; [assumption|].
  intros n (Ht & _). now repeat split.
Qed.

Lemma createInterestNode_links (cfg : Config) (now : Z) (topic : string) :
  links_ok_node (trim (toLowerCase topic)) (createInterestNode cfg now topic).
Proof. repeat split; simpl; [constructor | tauto]. Qed.

Lemma addInterest_links (cfg : Config) (now : Z) (topic : string)
    (strength : Q) (b : Engine) :
  links_ok (interests b) ->
  links_ok (interests (fst (addInterest cfg now topic strength b))).
Proof.
  intros L. unfold addInterest. simpl. apply updateCoreStatus_links.
  destruct (JsMap.has _ _); [now apply reinforceInterest_links|].
  apply findAndCreateConnections_links. simpl.
  apply links_ok_set; [|apply createInterestNode_links].
  destruct (_ <=? _)%nat; [now apply removeWeakestInterest_links | assumption].
Qed.

Lemma applyDecay_links (cfg : Config) (now : Z) (b : Engine) :
  links_ok (interests b) -> links_ok (interests (applyDecay cfg now b)).
Proof.
  intros L. unfold applyDecay. apply updateCoreStatus_links.
  apply remove_all_links. simpl. apply links_ok_map; [assumption|].
  intros k n. now apply links_ok_node_same.
Qed.

(** *** Consolidation *)

Lemma consolidate_visit_links (log : Q -> Q) (cfg : Memory.Config) (now : Z)
    st e :
  links_ok (interests (visit_brain st)) ->
  links_ok (interests (visit_brain (Memory.consolidate_visit log cfg now st e))).
Proof.
  destruct st as [[c b] [proms forgs]]. unfold Memory.consolidate_visit.
  destruct (geb _ _); [|destruct (ltb _ _); trivial].
  unfold Memory.promoteToLongTerm, visit_brain. simpl. intros L.
  apply links_ok_modify; [assumption|].
  intros n. now apply links_ok_node_same.
Qed.

Lemma consolidate_links (log : Q -> Q) (cfg : Memory.Config) (now : Z)
    (c c' : Memory.Consolidator) (b b' : Engine) (r : Memory.Results) :
  Memory.consolidate log cfg now c (Some b) = (c', Some b', r) ->
  links_ok (interests b) -> links_ok (interests b').
Proof.
  unfold Memory.consolidate. set (shortTerm := filter _ (interests b)).
  assert (F : forall l st,
             links_ok (interests (visit_brain st)) ->
             links_ok (interests
                         (visit_brain
                            (fold_left (Memory.consolidate_visit log cfg now)
                                       l st)))).
  { induction l as [|e l IH]; intros st L; simpl; [assumption|].
    apply IH, consolidate_visit_links, L. }
  specialize (F shortTerm (c, b, ([], []))).
  destruct (fold_left _ shortTerm _) as [[c1 b1] [proms forgs]].
  unfold visit_brain in F. simpl in F.
  intros [= <- <- <-]. exact F.
Qed.

(** *** Dreaming *)

Lemma at_floor_In {A : Type} (a : list A) (x : Q) (v : A) :
  Dreamer.at_floor a x = Some v -> In v a.
Proof.
  unfold Dreamer.at_floor. destruct (_ <? 0)%Z; [discriminate|].
  apply nth_error_In.
Qed.

Section Chains.
Variable rnd : nat -> Q.
Variable b : Engine.
Hypothesis b_links : links_ok (interests b).

Lemma follow_connection_fresh (current : InterestNode) (used : list string) :
  always rnd (Dreamer.follow_connection b current used) (fresh used).
Proof.
  unfold Dreamer.follow_connection.
  apply always_bind with (P := fun _ => True);
    [apply always_trivial | intros r _].
  destruct (_ && _); [|apply always_ret; discriminate].
  destruct (0 <? _)%nat; [|apply always_ret; discriminate].
  apply always_bind with (P := fun _ => True);
    [apply always_trivial | intros r' _].
  apply always_ret.
  destruct (Dreamer.at_floor _ _) as [nextTopic|] eqn:E; [|discriminate].
  intros n Hn. apply at_floor_In, filter_In in E. destruct E as [_ E].
  destruct (links_ok_get _ _ _ b_links Hn) as (-> & _).
  intros C. apply includes_In in C. rewrite C in E. discriminate.
Qed.

Lemma random_jump_fresh (interests : list InterestNode) (used : list string) :
  always rnd (Dreamer.random_jump interests used) (fresh used).
Proof.
  unfold Dreamer.random_jump.
  destruct (0 <? _)%nat; [|apply always_ret; discriminate].
  apply always_bind with (P := fun _ => True);
    [apply always_trivial | intros r' _].
  apply always_ret. intros n Hn.
  apply at_floor_In, filter_In in Hn. destruct Hn as [_ E].
  intros C. apply includes_In in C. rewrite C in E. discriminate.
Qed.

Lemma next_memory_fresh (interests : list InterestNode)
    (current : InterestNode) (used : list string) :
  always rnd (Dreamer.next_memory b interests current used) (fresh used).
Proof.
  unfold Dreamer.next_memory.
  apply always_bind with (P := fresh used);
    [apply follow_connection_fresh | intros followed Hf].
  destruct followed; [now apply always_ret | apply random_jump_fresh].
Qed.

Lemma chain_walk_fresh (interests : list InterestNode) (steps : nat) :
  forall current used,
    always rnd (Dreamer.chain_walk steps b interests current used)
           (fun more =>
              NoDup (map topic more)
              /\ forall x, In x more -> ~ In (topic x) used).
Proof.
  induction steps as [|steps IH]; intros current used;
    cbn [Dreamer.chain_walk].
  - apply always_ret. split; [constructor | intros x []].
  - apply always_bind with (P := fresh used);
      [apply next_memory_fresh | intros next Hn].
    destruct next as [n|];
      [|apply always_ret; split; [constructor | intros x []]].
    eapply always_bind; [apply IH | intros more [Hd Hu]].
    apply always_ret. split.
    + simpl. constructor; [|assumption].
      intros C. apply in_map_iff in C. destruct C as (x & Ex & Hx).
      apply (Hu x Hx). rewrite Ex, in_app_iff. simpl. tauto.
    + intros x [<- | Hx]; [now apply Hn|].
      intros C. apply (Hu x Hx). rewrite in_app_iff. tauto.
Qed.

(** The topics of a replayed chain are distinct. *)
Lemma generateMemoryChain_distinct (cfg : Dreamer.Config)
    (interests : list InterestNode) :
  always rnd (Dreamer.generateMemoryChain cfg b interests)
         (fun o => forall chain, o = Some chain -> NoDup (map topic chain)).
Proof.
  unfold Dreamer.generateMemoryChain.
  apply always_bind with (P := fun _ => True);
    [apply always_trivial | intros r _].
  destruct (Dreamer.at_floor _ _) as [current|];
    [|apply always_ret; discriminate].
  eapply always_bind; [apply chain_walk_fresh | intros more [Hd Hu]].
  apply always_ret. intros chain [= <-]. simpl. constructor; [|assumption].
  intros C. apply in_map_iff in C. destruct C as (x & Ex & Hx).
  apply (Hu x Hx). rewrite Ex. now left.
Qed.

End Chains.

(** The connections found in a chain of distinct topics join distinct
    topics. *)
Lemma analyze_distinct (cfg : Dreamer.Config) (now : Z)
    (explorer : option (list Dreamer.Discovery)) (chain : list InterestNode)
    (rnd : nat -> Q) (n : nat) :
  NoDup (map topic chain) ->
  Forall (fun pc => Dreamer.pc_from pc <> Dreamer.pc_to pc)
         (fst (Dreamer.analyzeChainForConnections cfg now explorer chain
                                                  rnd n)).
Proof.
  intros Hd. apply Forall_forall. intros pc H.
  apply DreamProps.analyze_from_sound in H.
  destruct H as (p & q & x & y & k & Hpq & Hp & Hq & -> & -> & _).
  intros C.
  assert (E : p = q).
  { apply (proj1 (NoDup_nth_error (map topic chain)) Hd).
    - rewrite length_map. apply nth_error_Some. congruence.
    - rewrite !nth_error_map, Hp, Hq. simpl. congruence. }
  lia.
Qed.

Lemma push_connection_ok (t k : string) (n : InterestNode) :
  t <> k -> links_ok_node k n -> links_ok_node k (Dreamer.push_connection t n).
Proof.
  intros N (Ht & Hn & Hs). unfold Dreamer.push_connection.
  destruct (includes t (connections n)) eqn:E; [now repeat split|].
  repeat split; simpl.
  - exact Ht.
  - apply pushed_NoDup; [assumption|].
    intros C. apply includes_In in C. congruence.
  - rewrite in_app_iff. simpl. intuition congruence.
Qed.

Lemma createDreamConnection_links (cfg : Dreamer.Config) (now : Z)
    (x y : string) (sim : Q) st :
  x <> y ->
  links_ok (interests (fst st)) ->
  links_ok (interests (fst (Dreamer.createDreamConnection cfg now x y sim st))).
Proof.
  intros N. destruct st as [e disc]. unfold Dreamer.createDreamConnection.
  destruct (JsMap.get x (interests e)); [|trivial].
  destruct (JsMap.get y (interests e)); [|trivial].
  simpl. intros L.
  repeat (apply links_ok_modify;
          [|intros n; now apply links_ok_node_same]).
  apply links_ok_modify;
    [|intros n; apply push_connection_ok; congruence].
  apply links_ok_modify; [assumption|].
  intros n. apply push_connection_ok. congruence.
Qed.

Lemma strengthenConnection_links (x y : string) (e : Engine) :
  links_ok (interests e) ->
  links_ok (interests (Dreamer.strengthenConnection x y e)).
Proof.
  intros L. unfold Dreamer.strengthenConnection.
  destruct (JsMap.get x (interests e)); [|trivial].
  destruct (JsMap.get y (interests e)); [|trivial].
  simpl.
  repeat (apply links_ok_modify;
          [|intros n; now apply links_ok_node_same]).
  assumption.
Qed.

Lemma apply_connections_links (cfg : Dreamer.Config) (now : Z)
    (conns : list Dreamer.PotentialConnection) :
  Forall (fun pc => Dreamer.pc_from pc <> Dreamer.pc_to pc) conns ->
  forall st,
    links_ok (interests (Dreamer.run_brain st)) ->
    links_ok (interests
                (Dreamer.run_brain
                   (fold_left (Dreamer.apply_connection cfg now) conns st))).
Proof.
  induction 1 as [|conn conns Hc _ IH]; intros st L; simpl; [assumption|].
  apply IH. unfold Dreamer.apply_connection.
  destruct (Dreamer.isNewConnection _ _ _).
  - pose proof (createDreamConnection_links cfg now _ _
                  (Dreamer.pc_similarity conn)
                  (Dreamer.run_brain st, Dreamer.run_discovered st) Hc L) as S.
    destruct (Dreamer.createDreamConnection _ _ _ _ _ _) as [b' d'].
    exact S.
  - now apply strengthenConnection_links.
Qed.

Lemma dream_chains_links (cfg : Dreamer.Config) (now : Z)
    (explorer : option (list Dreamer.Discovery)) (count : nat) :
  forall st rnd n,
    links_ok (interests (Dreamer.run_brain st)) ->
    links_ok (interests
                (Dreamer.run_brain
                   (snd (fst (Dreamer.dream_chains cfg now explorer count st
                                                   rnd n))))).
Proof.
  induction count as [|count IH]; intros st rnd n L;
    cbn [Dreamer.dream_chains]; [assumption|].
  rewrite bind_eq.
  pose proof (generateMemoryChain_distinct rnd (Dreamer.run_brain st) L cfg
                (JsMap.values (interests (Dreamer.run_brain st))) n) as Hd.
  destruct (fst (Dreamer.generateMemoryChain _ _ _ _ _)) as [chain|];
    [|assumption].
  rewrite bind_eq. apply IH.
  apply apply_connections_links; [|exact L].
  apply analyze_distinct. now apply Hd.
Qed.

Lemma dream_links (cfg : Dreamer.Config) (now : Z)
    (explorer : option (list Dreamer.Discovery))
    (d d' : Dreamer.DreamState) (b b' : Engine)
    (res : Dreamer.DreamResult) (rnd : nat -> Q) (n n' : nat) :
  Dreamer.dream cfg now explorer d (Some b) rnd n = (d', Some b', res, n') ->
  links_ok (interests b) -> links_ok (interests b').
Proof.
  unfold Dreamer.dream. destruct (Dreamer.isDreaming d).
  - now intros [= <- <- <- <-].
  - destruct (_ <? 3)%nat; [now intros [= <- <- <- <-]|].
    rewrite bind_eq. intros E L.
    pose proof (dream_chains_links cfg now explorer
                  (Dreamer.chainsPerDream cfg)
                  (Dreamer.mkRunning b (Dreamer.discoveredConnections d)
                                     [] [] []) rnd n L) as S.
    destruct (Dreamer.dream_chains _ _ _ _ _ _ _) as [[completed st] n1].
    simpl in S, E. destruct completed; injection E as <- <- <- <-; exact S.
Qed.

(** *** Reachable graphs *)

Lemma operation_links (cfg : Config) (b b' : Engine) :
  operation cfg b b' -> links_ok (interests b) -> links_ok (interests b').
Proof.
  intros [b0 b0' [now topic strength b1 | now b1]
         | log mcfg now c c' b0 b0' r E
         | dcfg now explorer d d' b0 b0' res rnd n n' E].
  - apply addInterest_links.
  - apply applyDecay_links.
  - eapply consolidate_links; eassumption.
  - eapply dream_links; eassumption.
Qed.

Lemma reachable_links (cfg : Config) (b : Engine) :
  reachable cfg b -> links_ok (interests b).
Proof.
  induction 1 as [|b b' _ IH Op]; [constructor|].
  eapply operation_links; eassumption.
Qed.

(** C6. In every graph reachable by the operations, [addInterest] on an
    existing topic sets the weight of its node to
    [min(oldWeight + strength, maxWeight)], its [lastActive] to the
    current time and increments its [accessCount], and adds
    [strength * reinforcementFactor], capped at [maxWeight], to the
    weight of every directly connected node; from weight 0.3 with
    strength 0.1 the new weight is [min(0.4, maxWeight)]. *)
Theorem addInterest_reinforcement_arithmetic (cfg : Config) (now : Z)
    (topic : string) (strength : Q) (b : Engine) (node : InterestNode) :
  let key := trim (toLowerCase topic) in
  let b' := fst (addInterest cfg now topic strength b) in
  reachable cfg b ->
  JsMap.get key (interests b) = Some node ->
  (exists node',
      JsMap.get key (interests b') = Some node'
      /\ snd (addInterest cfg now topic strength b) = Some node'
      /\ weight node' = Qmin (weight node + strength) (maxWeight cfg)
      /\ lastActive node' = now
      /\ accessCount node' = (accessCount node + 1)%Z
      /\ (weight node == 3 # 10 -> strength == 1 # 10 ->
          weight node' == Qmin (4 # 10) (maxWeight cfg)))
  /\ (forall t c,
         In t (connections node) ->
         JsMap.get t (interests b) = Some c ->
         exists c',
           JsMap.get t (interests b') = Some c'
           /\ weight c'
              = Qmin (weight c + strength * reinforcementFactor cfg)
                     (maxWeight cfg)).
Proof.
  intros key b' Hr Hget.
  destruct (links_ok_get _ _ _ (reachable_links cfg b Hr) Hget)
    as (_ & Hn & Hs).
  now apply reinforcement_on_set.
Qed.

Lemma addInterest_reinforcement_witness :
  exists node',
    JsMap.get "machine learning"
      (interests (fst (addInterest default_config 20 " Machine Learning"
                                   (1 # 10) Sample.two_topics)))
    = Some node'
    /\ weight node' == 65 # 100.
Proof.
  pose proof (addInterest_reinforcement_arithmetic default_config 20
                " Machine Learning" (1 # 10) Sample.two_topics) as T.
  cbv zeta in T.
  edestruct T as [(n' & G & _ & W & _) _].
  - exact two_topics_reachable.
  - vm_compute. reflexivity.
  - exists n'. split; [exact G|]. rewrite W. vm_compute. reflexivity.
Defined.

End LinkProps.

(** ** Time stamps across the operations *)

Module ClockProps.
Import Js JsFacts JsMapFacts Brain Spec GraphProps HysteresisProps RandFacts.
Import LinkProps.







(** *** The graph's own operations, at the time [now] *)











(** *** Consolidation and dreaming *)









End ClockProps.

(** ** Removal and the symmetry of the adjacency *)

Module AdjacencyProps.
Import Js JsFacts JsMapFacts Brain Spec GraphProps HysteresisProps RandFacts.
Import LinkProps.

(** *** Removal *)

Lemma filter_idem {A : Type} (f : A -> bool) (l : list A) :
  filter f (filter f l) = filter f l.
Proof.
  induction l as [|x l IH]; simpl; [reflexivity|].
  destruct (f x) eqn:E; simpl; [now rewrite E, IH | exact IH].
Qed.

Lemma iter_unlinked (t : string) (c : nat) (n : InterestNode) :
  Nat.iter (S c) (unlinked t) n = unlinked t n.
Proof.
  induction c as [|c IH]; [reflexivity|].
  change (Nat.iter (S (S c)) (unlinked t) n)
    with (unlinked t (Nat.iter (S c) (unlinked t) n)).
  rewrite IH. unfold unlinked. simpl. now rewrite filter_idem.
Qed.

Lemma unlinked_In (t u : string) (n : InterestNode) :
  In u (connections (unlinked t n)) <-> In u (connections n) /\ u <> t.
Proof.
  unfold unlinked. simpl. rewrite filter_In, negb_true_iff, String.eqb_neq.
  tauto.
Qed.

Lemma iter_unlinked_In (t u : string) (c : nat) (n : InterestNode) :
  In u (connections (Nat.iter c (unlinked t) n))
  <-> In u (connections n) /\ ((0 < c)%nat -> u <> t).
Proof.
  destruct c as [|c].
  - simpl. split; [intros H; split; [assumption | lia] | tauto].
  - rewrite iter_unlinked, unlinked_In. split; [tauto|].
    intros [H1 H2]. split; [assumption | apply H2; lia].
Qed.

(** What [removeInterest] leaves under the other keys. *)
Lemma get_removeInterest_other (t : string) (b : Engine) (node : InterestNode)
    (k : string) :
  JsMap.get t (interests b) = Some node -> k <> t ->
  JsMap.get k (interests (removeInterest t b))
  = option_map (Nat.iter (count_occ string_dec (connections node) k)
                         (unlinked t))
               (JsMap.get k (interests b)).
Proof.
  intros Ht N. unfold removeInterest. rewrite Ht. simpl.
  rewrite get_delete.
  assert (E : String.eqb t k = false) by (apply String.eqb_neq; congruence).
  rewrite E. apply (get_fold_modify (fun _ => unlinked t)).
Qed.

(** X1. [removeInterest(topic)] on a topic of the graph removes its
    node and every log entry from or to it, takes the topic out of the
    adjacency of each node the removed node listed, and changes nothing
    else of the other nodes; on an unknown topic it changes nothing. *)
Theorem removeInterest_forgets (t : string) (b : Engine) :
  let b' := removeInterest t b in
  JsMap.get t (interests b') = None
  /\ (JsMap.get t (interests b) = None -> b' = b)
  /\ forall node,
       JsMap.get t (interests b) = Some node ->
       Forall (fun c => from c <> t /\ to c <> t) (connectionLog b')
       /\ forall k n,
            k <> t -> JsMap.get k (interests b) = Some n ->
            exists n',
              JsMap.get k (interests b') = Some n'
              /\ relinked n n'
              /\ (In k (connections node) ->
                  connections n'
                  = filter (fun u => negb (String.eqb u t)) (connections n))
              /\ (~ In k (connections node) -> n' = n).
Proof.
  intros b'. split; [apply removeInterest_gone|]. split.
  - intros H. unfold b', removeInterest. now rewrite H.
  - intros node Ht. split.
    + unfold b', removeInterest. rewrite Ht. simpl.
      apply Forall_forall. intros c Hc. apply filter_In in Hc.
      destruct Hc as [_ Hc]. apply andb_true_iff in Hc.
      rewrite !negb_true_iff, !String.eqb_neq in Hc. exact Hc.
    + intros k n N Hk. unfold b'.
      rewrite (get_removeInterest_other t b node k Ht N), Hk. simpl.
      eexists. split; [reflexivity|].
      split; [apply relinked_iter_unlinked|]. split.
      * intros Hin. apply (count_occ_In string_dec) in Hin.
        destruct (count_occ string_dec (connections node) k) as [|c];
          [lia|].
        now rewrite iter_unlinked.
      * intros Hout.
        now rewrite (proj1 (count_occ_not_In string_dec _ _) Hout).
Qed.

(** *** Graphs with the same adjacency *)

Lemma same_links_refl (m : JsMap.t InterestNode) : same_links m m.
Proof. intros k. reflexivity. Qed.

Lemma same_links_trans (m1 m2 m3 : JsMap.t InterestNode) :
  same_links m1 m2 -> same_links m2 m3 -> same_links m1 m3.
Proof. intros H12 H23 k. now rewrite H23, H12. Qed.

Lemma same_links_modify (k : string) (f : InterestNode -> InterestNode)
    (m : JsMap.t InterestNode) :
  (forall n, connections (f n) = connections n) ->
  same_links m (JsMap.modify k f m).
Proof.
  intros Hf k'. rewrite get_modify.
  destruct (String.eqb k k'); [|reflexivity].
  destruct (JsMap.get k' m) as [n|]; simpl; [now rewrite Hf | reflexivity].
Qed.

Lemma same_links_fold_modify (f : InterestNode -> InterestNode)
    (ks : list string) :
  (forall n, connections (f n) = connections n) ->
  forall m,
    same_links m (fold_left (fun m' t => JsMap.modify t f m') ks m).
Proof.
  intros Hf. induction ks as [|t ks IH]; intros m; simpl.
  - apply same_links_refl.
  - eapply same_links_trans; [|apply IH]. now apply same_links_modify.
Qed.

Lemma same_links_map (f : InterestNode -> InterestNode)
    (m : JsMap.t InterestNode) :
  (forall n, connections (f n) = connections n) ->
  same_links m (map (fun e => (fst e, f (snd e))) m).
Proof.
  intros Hf k. rewrite get_map_values.
  destruct (JsMap.get k m) as [n|]; simpl; [now rewrite Hf | reflexivity].
Qed.

Lemma symmetric_same_links (m m' : JsMap.t InterestNode) :
  symmetric m -> same_links m m' -> symmetric m'.
Proof.
  intros S L k n' t Hk Ht.
  pose proof (L k) as Ek. rewrite Hk in Ek. simpl in Ek.
  destruct (JsMap.get k m) as [n|] eqn:Hn; [|discriminate].
  injection Ek as Ek. rewrite Ek in Ht.
  destruct (S k n t Hn Ht) as (nt & Hnt & Hin).
  pose proof (L t) as Et. rewrite Hnt in Et. simpl in Et.
  destruct (JsMap.get t m') as [nt'|]; [|discriminate].
  injection Et as Et. exists nt'. split; [reflexivity | now rewrite Et].
Qed.

(** *** The graph's own operations *)

Lemma reinforceInterest_same_links (cfg : Config) (now : Z) (t : string)
    (s : Q) (b : Engine) :
  same_links (interests b) (interests (reinforceInterest cfg now t s b)).
Proof.
  unfold reinforceInterest.
  destruct (JsMap.get t (interests b)); [|apply same_links_refl]. simpl.
  eapply same_links_trans; [|apply same_links_fold_modify; reflexivity].
  now apply same_links_modify.
Qed.

Lemma updateCoreStatus_same_links (cfg : Config) (b : Engine) :
  same_links (interests b) (interests (updateCoreStatus cfg b)).
Proof.
  unfold updateCoreStatus. simpl. apply same_links_map.
  intros n. now destruct (core_visit_fields cfg n) as (_ & _ & -> & _).
Qed.

Lemma removeInterest_symmetric (t : string) (b : Engine) :
  symmetric (interests b) -> symmetric (interests (removeInterest t b)).
Proof.
  intros S. destruct (JsMap.get t (interests b)) as [node|] eqn:Ht.
  2:{ unfold removeInterest. now rewrite Ht. }
  intros k n' u Hk Hu.
  assert (Nk : k <> t).
  { intros ->. rewrite removeInterest_gone in Hk. discriminate. }
  rewrite (get_removeInterest_other t b node k Ht Nk) in Hk.
  destruct (JsMap.get k (interests b)) as [n|] eqn:Hn; [|discriminate].
  simpl in Hk. injection Hk as <-.
  apply iter_unlinked_In in Hu. destruct Hu as [Hu Hc].
  destruct (S k n u Hn Hu) as (nu & Hnu & Hin).
  assert (Nu : u <> t).
  { intros ->. apply Hc; [|reflexivity].
    rewrite Ht in Hnu. injection Hnu as <-.
    now apply (count_occ_In string_dec). }
  rewrite (get_removeInterest_other t b node u Ht Nu), Hnu. simpl.
  eexists. split; [reflexivity|].
  apply iter_unlinked_In. split; [assumption | congruence].
Qed.

Lemma remove_all_symmetric (l : list string) :
  forall b, symmetric (interests b) -> symmetric (interests (remove_all l b)).
Proof.
  induction l as [|t l IH]; intros b S; simpl; [assumption|].
  apply IH, removeInterest_symmetric, S.
Qed.

Lemma removeWeakestInterest_symmetric (b : Engine) :
  symmetric (interests b) -> symmetric (interests (removeWeakestInterest b)).
Proof.
  intros S. unfold removeWeakestInterest.
  destruct (fold_left weakest_visit (interests b) None) as [[w q]|];
    [|assumption].
  destruct (String.eqb w EmptyString);
    [assumption | now apply removeInterest_symmetric].
Qed.

Lemma applyDecay_symmetric (cfg : Config) (now : Z) (b : Engine) :
  symmetric (interests b) -> symmetric (interests (applyDecay cfg now b)).
Proof.
  intros S. unfold applyDecay.
  eapply symmetric_same_links; [|apply updateCoreStatus_same_links].
  apply remove_all_symmetric. simpl.
  eapply symmetric_same_links; [exact S|]. now apply same_links_map.
Qed.

(** *** The linking traversal *)

Lemma get_map_entries (f : string -> InterestNode -> InterestNode)
    (m : JsMap.t InterestNode) (k : string) :
  JsMap.get k (map (fun e => (fst e, f (fst e) (snd e))) m)
  = option_map (f k) (JsMap.get k m).
Proof.
  induction m as [|[k0 v0] m IH]; simpl; [reflexivity|].
  destruct (String.eqb_spec k0 k) as [->|N]; [reflexivity | exact IH].
Qed.

Lemma link_visit_entry_eq (cfg : Config) (now : Z) (t : string)
    (nc : list string) (e : string * InterestNode) :
  fst (fst (link_visit cfg now t nc e)) = (fst e, linked cfg t (fst e) (snd e)).
Proof.
  unfold linked, link_visit. destruct e as [k n]. simpl.
  destruct (String.eqb k t); [reflexivity|].
  destruct (geb _ _); reflexivity.
Qed.

Lemma link_visit_pushed (cfg : Config) (now : Z) (t : string)
    (nc : list string) (e : string * InterestNode) (u : string) :
  In u (snd (fst (link_visit cfg now t nc e)))
  <-> In u nc \/ (u = fst e /\ u <> t /\ similar cfg t u = true).
Proof.
  unfold link_visit, similar. destruct e as [k n]. simpl.
  destruct (String.eqb_spec k t) as [->|N]; simpl.
  - split; [tauto|]. intros [H | (-> & C & _)]; [assumption | congruence].
  - destruct (geb (calculateSimilarity t k) (connectionThreshold cfg)) eqn:E;
      simpl.
    + destruct (includes k nc) eqn:I.
      * apply includes_In in I. split; [tauto|].
        intros [H | (-> & _)]; assumption.
      * rewrite in_app_iff. simpl. split.
        -- intros [H | [<- | []]]; [tauto|]. right. now repeat split.
        -- intros [H | (-> & _)]; tauto.
    + split; [tauto|]. intros [H | (-> & _ & C)]; [assumption | congruence].
Qed.

Lemma link_all_eq (cfg : Config) (now : Z) (t : string)
    (m : JsMap.t InterestNode) :
  forall nc,
    fst (fst (link_all cfg now t nc m))
    = map (fun e => (fst e, linked cfg t (fst e) (snd e))) m
    /\ forall u,
         In u (snd (fst (link_all cfg now t nc m)))
         <-> In u nc
             \/ (In u (JsMap.keys m) /\ u <> t /\ similar cfg t u = true).
Proof.
  induction m as [|e m IH]; intros nc; simpl.
  - split; [reflexivity | intros u; tauto].
  - pose proof (link_visit_entry_eq cfg now t nc e) as E1.
    pose proof (link_visit_pushed cfg now t nc e) as P1.
    destruct (link_visit cfg now t nc e) as [[e' nc1] log1].
    destruct (IH nc1) as [E2 P2].
    destruct (link_all cfg now t nc1 m) as [[m' nc2] log2].
    simpl in *. split; [now rewrite E1, E2|].
    intros u. rewrite P2, P1. split.
    + intros [[H | (-> & H)] | (H & H')]; auto.
    + intros [H | ([<- | H] & H')]; auto.
Qed.

Lemma linked_In (cfg : Config) (t k u : string) (n : InterestNode) :
  In u (connections (linked cfg t k n))
  <-> In u (connections n) \/ (u = t /\ k <> t /\ similar cfg t k = true).
Proof.
  unfold linked, link_visit, similar. simpl.
  destruct (String.eqb_spec k t) as [->|N]; simpl.
  - split; [tauto|]. intros [H | (_ & C & _)]; [assumption | congruence].
  - destruct (geb (calculateSimilarity t k) (connectionThreshold cfg)) eqn:E;
      simpl.
    + destruct (includes t (connections n)) eqn:I; simpl.
      * apply includes_In in I. split; [tauto|].
        intros [H | (-> & _)]; assumption.
      * rewrite in_app_iff. simpl. split.
        -- intros [H | [<- | []]]; [tauto|]. right. now repeat split.
        -- intros [H | (-> & _)]; tauto.
    + split; [tauto|]. intros [H | (_ & _ & C)]; [assumption | congruence].
Qed.

(** What [findAndCreateConnections] leaves under a key. *)
Lemma get_findAndCreateConnections (cfg : Config) (now : Z) (t : string)
    (b : Engine) (node : InterestNode) (k : string) :
  JsMap.get t (interests b) = Some node ->
  exists nc,
    (forall u,
        In u nc
        <-> In u (connections node)
            \/ (In u (JsMap.keys (interests b)) /\ u <> t
                /\ similar cfg t u = true))
    /\ JsMap.get k (interests (findAndCreateConnections cfg now t b))
       = if String.eqb t k
         then Some (set_connections nc node)
         else option_map (linked cfg t k) (JsMap.get k (interests b)).
Proof.
  intros Ht. unfold findAndCreateConnections. rewrite Ht.
  destruct (link_all_eq cfg now t (interests b) (connections node)) as [E P].
  destruct (link_all cfg now t (connections node) (interests b))
    as [[m nc] log].
  simpl in *. exists nc. split; [exact P|].
  rewrite get_modify, E, get_map_entries.
  destruct (String.eqb_spec t k) as [<-|N]; [|reflexivity].
  rewrite Ht. simpl. f_equal. unfold linked, link_visit. simpl.
  now rewrite String.eqb_refl.
Qed.

Lemma findAndCreateConnections_symmetric (cfg : Config) (now : Z)
    (t : string) (b : Engine) :
  symmetric (interests b) ->
  symmetric (interests (findAndCreateConnections cfg now t b)).
Proof.
  intros S. destruct (JsMap.get t (interests b)) as [node|] eqn:Ht.
  2:{ unfold findAndCreateConnections. now rewrite Ht. }
  assert (G : forall k,
             exists nc,
               (forall u,
                   In u nc
                   <-> In u (connections node)
                       \/ (In u (JsMap.keys (interests b)) /\ u <> t
                           /\ similar cfg t u = true))
               /\ JsMap.get k (interests (findAndCreateConnections cfg now t b))
                  = if String.eqb t k
                    then Some (set_connections nc node)
                    else option_map (linked cfg t k)
                                    (JsMap.get k (interests b)))
    by (intros k; now apply get_findAndCreateConnections).
  (* the node of a listed topic, after the traversal *)
  assert (Back : forall k u nu,
             JsMap.get u (interests b) = Some nu ->
             (In k (connections nu)
              \/ (u = t /\ In k (JsMap.keys (interests b)) /\ k <> t
                  /\ similar cfg t k = true)
              \/ (k = t /\ u <> t /\ similar cfg t u = true)) ->
             exists n',
               JsMap.get u (interests (findAndCreateConnections cfg now t b))
               = Some n'
               /\ In k (connections n')).
  { intros k u nu Hu Hk. destruct (G u) as (nc & P & E). rewrite E.
    destruct (String.eqb_spec t u) as [<-|N].
    - eexists. split; [reflexivity|]. simpl. apply P.
      rewrite Ht in Hu. injection Hu as <-.
      destruct Hk as [H | [(_ & H) | (_ & C & _)]];
        [now left | now right | congruence].
    - rewrite Hu. simpl. eexists. split; [reflexivity|].
      apply linked_In.
      destruct Hk as [H | [(C & _) | (-> & H)]];
        [now left | congruence | right].
      split; [reflexivity|]. exact H. }
  intros k n' u Hk Hu. destruct (G k) as (nc & P & E). rewrite E in Hk.
  destruct (String.eqb_spec t k) as [<-|N].
  - injection Hk as <-. simpl in Hu. apply P in Hu.
    destruct Hu as [Hu | (Hu & Nu & Su)].
    + destruct (S t node u Ht Hu) as (nu & Hnu & Hin).
      apply (Back t u nu Hnu). now left.
    + apply In_keys_get in Hu. destruct Hu as [nu Hnu].
      apply (Back t u nu Hnu). right. right. now repeat split.
  - destruct (JsMap.get k (interests b)) as [n|] eqn:Hn; [|discriminate].
    simpl in Hk. injection Hk as <-. apply linked_In in Hu.
    destruct Hu as [Hu | (-> & Nk & Sk)].
    + destruct (S k n u Hn Hu) as (nu & Hnu & Hin).
      apply (Back k u nu Hnu). now left.
    + apply (Back k t node Ht). right. left.
      repeat split; try assumption. eapply get_In_keys, Hn.
Qed.

Lemma set_fresh_symmetric (k : string) (v : InterestNode)
    (m : JsMap.t InterestNode) :
  symmetric m -> JsMap.get k m = None -> connections v = [] ->
  symmetric (JsMap.set k v m).
Proof.
  intros S A E k' n u. rewrite get_set.
  destruct (String.eqb_spec k k') as [<-|N].
  - intros [= <-]. rewrite E. intros [].
  - intros Hk Hu. destruct (S k' n u Hk Hu) as (nu & Hnu & Hin).
    exists nu. split; [|assumption]. rewrite get_set.
    destruct (String.eqb_spec k u) as [<-|_]; [congruence | assumption].
Qed.

Lemma addInterest_symmetric (cfg : Config) (now : Z) (t : string)
    (strength : Q) (b : Engine) :
  symmetric (interests b) ->
  symmetric (interests (fst (addInterest cfg now t strength b))).
Proof.
  intros S. unfold addInterest. simpl.
  eapply symmetric_same_links; [|apply updateCoreStatus_same_links].
  destruct (JsMap.has _ _) eqn:E.
  - eapply symmetric_same_links; [exact S|].
    apply reinforceInterest_same_links.
  - apply has_false in E. apply findAndCreateConnections_symmetric. simpl.
    set (b0 := if (_ <=? _)%nat then removeWeakestInterest b else b).
    assert (S0 : symmetric (interests b0))
      by (unfold b0; destruct (_ <=? _)%nat;
          [now apply removeWeakestInterest_symmetric | assumption]).
    assert (A0 : JsMap.get (trim (toLowerCase t)) (interests b0) = None).
    { unfold b0. destruct (_ <=? _)%nat; [|assumption].
      destruct (JsMap.get _ (interests (removeWeakestInterest b)))
        as [x|] eqn:Hx; [|reflexivity].
      apply (proj1 (removeWeakestInterest_carried b)) in Hx.
      destruct Hx as (n & Hn & _). congruence. }
    now apply set_fresh_symmetric.
Qed.

(** *** Consolidation and dreaming *)

Lemma consolidate_same_links (log : Q -> Q) (cfg : Memory.Config) (now : Z)
    (c c' : Memory.Consolidator) (b b' : Engine) (r : Memory.Results) :
  Memory.consolidate log cfg now c (Some b) = (c', Some b', r) ->
  same_links (interests b) (interests b').
Proof.
  unfold Memory.consolidate. set (shortTerm := filter _ (interests b)).
  assert (F : forall l st,
             same_links (interests (visit_brain st))
               (interests
                  (visit_brain
                     (fold_left (Memory.consolidate_visit log cfg now) l st)))).
  { induction l as [|e l IH]; intros st; simpl; [apply same_links_refl|].
    eapply same_links_trans; [|apply IH].
    destruct st as [[c0 b0] [proms forgs]]. unfold Memory.consolidate_visit.
    destruct (geb _ _); [|destruct (ltb _ _); apply same_links_refl].
    unfold Memory.promoteToLongTerm, visit_brain. simpl.
    now apply same_links_modify. }
  specialize (F shortTerm (c, b, ([], []))).
  destruct (fold_left _ shortTerm _) as [[c1 b1] [proms forgs]].
  unfold visit_brain in F. simpl in F.
  intros [= <- <- <-]. exact F.
Qed.

Lemma push_connection_In (t u : string) (n : InterestNode) :
  In u (connections (Dreamer.push_connection t n))
  <-> In u (connections n) \/ u = t.
Proof.
  unfold Dreamer.push_connection.
  destruct (includes t (connections n)) eqn:I; simpl.
  - apply includes_In in I. split; [tauto|]. intros [H | ->]; assumption.
  - rewrite in_app_iff. simpl. intuition.
Qed.

(** The two pushes of [createDreamConnection]. *)
Lemma pushes_symmetric (x y : string) (m : JsMap.t InterestNode)
    (nx ny : InterestNode) :
  JsMap.get x m = Some nx -> JsMap.get y m = Some ny ->
  symmetric m ->
  symmetric (JsMap.modify y (Dreamer.push_connection x)
               (JsMap.modify x (Dreamer.push_connection y) m)).
Proof.
  intros Hx Hy S.
  assert (G : forall k,
             JsMap.get k (JsMap.modify y (Dreamer.push_connection x)
                            (JsMap.modify x (Dreamer.push_connection y) m))
             = option_map
                 (fun n => (if String.eqb y k
                            then Dreamer.push_connection x else fun n' => n')
                             ((if String.eqb x k
                               then Dreamer.push_connection y
                               else fun n' => n') n))
                 (JsMap.get k m)).
  { intros k. rewrite !get_modify.
    destruct (String.eqb y k), (String.eqb x k), (JsMap.get k m);
      reflexivity. }
  assert (I : forall k u n,
             In u (connections
                     ((if String.eqb y k
                       then Dreamer.push_connection x else fun n' => n')
                        ((if String.eqb x k
                          then Dreamer.push_connection y
                          else fun n' => n') n)))
             <-> In u (connections n) \/ (x = k /\ u = y)
                 \/ (y = k /\ u = x)).
  { intros k u n.
    destruct (String.eqb_spec y k) as [Ey|Ny],
             (String.eqb_spec x k) as [Ex|Nx];
      rewrite ?push_connection_In; intuition congruence. }
  intros k n' u Hk Hu. rewrite G in Hk.
  destruct (JsMap.get k m) as [n|] eqn:Hn; [|discriminate].
  simpl in Hk. injection Hk as <-. apply I in Hu.
  destruct Hu as [Hu | [(<- & ->) | (<- & ->)]].
  - destruct (S k n u Hn Hu) as (nu & Hnu & Hin).
    rewrite G, Hnu. simpl. eexists. split; [reflexivity|].
    apply I. now left.
  - rewrite G, Hy. simpl. eexists. split; [reflexivity|].
    apply I. right. right. now split.
  - rewrite G, Hx. simpl. eexists. split; [reflexivity|].
    apply I. right. left. now split.
Qed.

Lemma createDreamConnection_symmetric (cfg : Dreamer.Config) (now : Z)
    (x y : string) (sim : Q) st :
  symmetric (interests (fst st)) ->
  symmetric (interests (fst (Dreamer.createDreamConnection cfg now x y sim st))).
Proof.
  destruct st as [e disc]. unfold Dreamer.createDreamConnection.
  destruct (JsMap.get x (interests e)) as [nx|] eqn:Hx; [|trivial].
  destruct (JsMap.get y (interests e)) as [ny|] eqn:Hy; [|trivial].
  simpl. intros S.
  repeat (eapply symmetric_same_links;
          [|apply same_links_modify; reflexivity]).
  now apply (pushes_symmetric x y _ nx ny).
Qed.

Lemma strengthenConnection_same_links (x y : string) (e : Engine) :
  same_links (interests e) (interests (Dreamer.strengthenConnection x y e)).
Proof.
  unfold Dreamer.strengthenConnection.
  destruct (JsMap.get x (interests e)); [|apply same_links_refl].
  destruct (JsMap.get y (interests e)); [|apply same_links_refl].
  simpl. eapply same_links_trans; [|now apply same_links_modify].
  now apply same_links_modify.
Qed.

Lemma apply_connections_symmetric (cfg : Dreamer.Config) (now : Z)
    (conns : list Dreamer.PotentialConnection) :
  forall st,
    symmetric (interests (Dreamer.run_brain st)) ->
    symmetric (interests
                 (Dreamer.run_brain
                    (fold_left (Dreamer.apply_connection cfg now) conns st))).
Proof.
  induction conns as [|conn conns IH]; intros st S; simpl; [assumption|].
  apply IH. unfold Dreamer.apply_connection.
  destruct (Dreamer.isNewConnection _ _ _).
  - pose proof (createDreamConnection_symmetric cfg now
                  (Dreamer.pc_from conn) (Dreamer.pc_to conn)
                  (Dreamer.pc_similarity conn)
                  (Dreamer.run_brain st, Dreamer.run_discovered st) S) as S'.
    destruct (Dreamer.createDreamConnection _ _ _ _ _ _) as [b' d'].
    exact S'.
  - simpl. eapply symmetric_same_links; [exact S|].
    apply strengthenConnection_same_links.
Qed.

Lemma dream_chains_symmetric (cfg : Dreamer.Config) (now : Z)
    (explorer : option (list Dreamer.Discovery)) (count : nat) :
  forall st rnd n,
    symmetric (interests (Dreamer.run_brain st)) ->
    symmetric (interests
                 (Dreamer.run_brain
                    (snd (fst (Dreamer.dream_chains cfg now explorer count st
                                                    rnd n))))).
Proof.
  induction count as [|count IH]; intros st rnd n S;
    cbn [Dreamer.dream_chains]; [assumption|].
  rewrite bind_eq.
  destruct (fst (Dreamer.generateMemoryChain _ _ _ _ _)) as [chain|];
    [|assumption].
  rewrite bind_eq. apply IH. now apply apply_connections_symmetric.
Qed.

Lemma dream_symmetric (cfg : Dreamer.Config) (now : Z)
    (explorer : option (list Dreamer.Discovery))
    (d d' : Dreamer.DreamState) (b b' : Engine)
    (res : Dreamer.DreamResult) (rnd : nat -> Q) (n n' : nat) :
  Dreamer.dream cfg now explorer d (Some b) rnd n = (d', Some b', res, n') ->
  symmetric (interests b) -> symmetric (interests b').
Proof.
  unfold Dreamer.dream. destruct (Dreamer.isDreaming d).
  - now intros [= <- <- <- <-].
  - destruct (_ <? 3)%nat; [now intros [= <- <- <- <-]|].
    rewrite bind_eq. intros E S.
    pose proof (dream_chains_symmetric cfg now explorer
                  (Dreamer.chainsPerDream cfg)
                  (Dreamer.mkRunning b (Dreamer.discoveredConnections d)
                                     [] [] []) rnd n S) as S'.
    destruct (Dreamer.dream_chains _ _ _ _ _ _ _) as [[completed st] n1].
    simpl in S', E. destruct completed; injection E as <- <- <- <-; exact S'.
Qed.

Lemma operation_symmetric (cfg : Config) (b b' : Engine) :
  operation cfg b b' -> symmetric (interests b) -> symmetric (interests b').
Proof.
  intros [b0 b0' [now topic strength b1 | now b1]
         | log mcfg now c c' b0 b0' r E
         | dcfg now explorer d d' b0 b0' res rnd n n' E].
  - apply addInterest_symmetric.
  - apply applyDecay_symmetric.
  - intros S. eapply symmetric_same_links; [exact S|].
    eapply consolidate_same_links; eassumption.
  - eapply dream_symmetric; eassumption.
Qed.

(** X2. In every graph reachable by the operations the adjacency is
    symmetric and closed: a topic listed by a node is the key of a node
    of the graph, which lists the first one back.  Removing an interest
    from such a graph keeps it so, and no remaining node lists the
    removed topic. *)
Theorem reachable_symmetric (cfg : Config) (b : Engine) :
  reachable cfg b ->
  symmetric (interests b)
  /\ forall t,
       symmetric (interests (removeInterest t b))
       /\ forall k n,
            JsMap.get k (interests (removeInterest t b)) = Some n ->
            ~ In t (connections n).
Proof.
  intros Hr.
  assert (S : symmetric (interests b)).
  { induction Hr as [|b b' _ IH Op]; [intros k n t; discriminate|].
    eapply operation_symmetric; eassumption. }
  split; [exact S|]. intros t.
  pose proof (removeInterest_symmetric t b S) as S'.
  split; [exact S'|]. intros k n Hk Hin.
  destruct (S' k n t Hk Hin) as (nt & Hnt & _).
  rewrite removeInterest_gone in Hnt. discriminate.
Qed.

Lemma reachable_symmetric_witness :
  exists n,
    JsMap.get "machine learning" (interests Sample.two_topics) = Some n
    /\ In "deep learning"%string (connections n)
    /\ exists n',
         JsMap.get "deep learning" (interests Sample.two_topics) = Some n'
         /\ In "machine learning"%string (connections n').
Proof.
  assert (G : exists n,
             JsMap.get "machine learning" (interests Sample.two_topics)
             = Some n /\ In "deep learning"%string (connections n))
    by (eexists; split; [vm_compute; reflexivity | simpl; tauto]).
  destruct G as (n & G & Hin). exists n. split; [exact G|].
  split; [exact Hin|].
  exact (proj1 (reachable_symmetric default_config Sample.two_topics
                  two_topics_reachable)
               "machine learning"%string n "deep learning"%string G Hin).
Defined.

End AdjacencyProps.

(** ** Insertion and eviction *)

Module InsertionProps.
Import Js JsFacts JsMapFacts Brain Spec GraphProps HysteresisProps RandFacts.
Import LinkProps AdjacencyProps.

Lemma core_visit_rest (cfg : Config) (n : InterestNode) :
  createdAt (core_visit cfg n) = createdAt n
  /\ keywords (core_visit cfg n) = keywords n
  /\ promotedAt (core_visit cfg n) = promotedAt n
  /\ dreamConnections (core_visit cfg n) = dreamConnections n.
Proof.
  unfold core_visit.
  destruct (geb (weight n) (coreThreshold cfg)), (isCore n),
    (MemoryType_eqb (memoryType n) Core); simpl; repeat split.
Qed.

(** The graph [addInterest] links the new node into: the graph it was
    given, less the evicted node when the capacity is reached. *)
Lemma addInterest_new (cfg : Config) (now : Z) (t : string) (strength : Q)
    (b : Engine) :
  JsMap.get (trim (toLowerCase t)) (interests b) = None ->
  exists b0,
    b0 = (if (maxShortTermInterests cfg <=? JsMap.size (interests b))%nat
          then removeWeakestInterest b else b)
    /\ JsMap.get (trim (toLowerCase t)) (interests b0) = None
    /\ fst (addInterest cfg now t strength b)
       = updateCoreStatus cfg
           (findAndCreateConnections cfg now (trim (toLowerCase t))
              (mkEngine (JsMap.set (trim (toLowerCase t))
                                   (createInterestNode cfg now t)
                                   (interests b0))
                        (connectionLog b0))).
Proof.
  intros A. eexists. split; [reflexivity|]. split.
  - destruct (_ <=? _)%nat; [|assumption].
    destruct (JsMap.get _ (interests (removeWeakestInterest b)))
      as [x|] eqn:Hx; [|reflexivity].
    apply (proj1 (removeWeakestInterest_carried b)) in Hx.
    destruct Hx as (n & Hn & _). congruence.
  - unfold addInterest. apply has_false in A. now rewrite A.
Qed.

(** The node under the normalised topic, after [addInterest]. *)
Lemma addInterest_stored (cfg : Config) (now : Z) (t : string)
    (strength : Q) (b : Engine) :
  exists x,
    JsMap.get (trim (toLowerCase t))
      (interests (fst (addInterest cfg now t strength b)))
    = Some (core_visit cfg x)
    /\ (JsMap.get (trim (toLowerCase t)) (interests b) = None ->
        exists nc, x = set_connections nc (createInterestNode cfg now t)).
Proof.
  set (key := trim (toLowerCase t)).
  destruct (JsMap.get key (interests b)) as [node|] eqn:Hk.
  - rewrite (addInterest_existing _ _ _ _ _ _ Hk). fold key.
    rewrite get_updateCoreStatus,
      (get_reinforceInterest _ _ _ _ _ _ _ Hk), String.eqb_refl, Hk.
    simpl. eexists. split; [reflexivity | discriminate].
  - destruct (addInterest_new cfg now t strength b Hk) as (b0 & _ & A0 & E).
    rewrite E. fold key in A0 |- *. rewrite get_updateCoreStatus.
    match goal with
    | |- context [findAndCreateConnections cfg now key ?e] =>
        destruct (get_findAndCreateConnections cfg now key e
                    (createInterestNode cfg now t) key) as (nc & _ & G)
    end.
    { simpl. rewrite get_set. now rewrite String.eqb_refl. }
    rewrite G, String.eqb_refl. simpl. eexists. split; [reflexivity|].
    intros _. now exists nc.
Qed.

(** X3. [addInterest] always returns the node stored under the
    normalised topic.  For a topic that was not in the graph this is a
    fresh node: it carries the normalised topic, the initial weight, an
    access count of one, the current time as creation and activity
    stamps and the keywords of the topic as given, and it is flagged
    core exactly when the initial weight reaches [coreThreshold]. *)
Theorem addInterest_returns_node (cfg : Config) (now : Z) (t : string)
    (strength : Q) (b : Engine) :
  let key := trim (toLowerCase t) in
  exists n,
    snd (addInterest cfg now t strength b) = Some n
    /\ JsMap.get key (interests (fst (addInterest cfg now t strength b)))
       = Some n
    /\ (JsMap.get key (interests b) = None ->
        topic n = key
        /\ weight n = initialWeight cfg
        /\ accessCount n = 1%Z
        /\ lastActive n = now
        /\ createdAt n = now
        /\ keywords n = Some (extractKeywords t)
        /\ promotedAt n = None
        /\ isCore n = geb (initialWeight cfg) (coreThreshold cfg)).
Proof.
  intros key.
  destruct (addInterest_stored cfg now t strength b) as (x & G & New).
  fold key in G, New. exists (core_visit cfg x).
  split; [exact G|]. split; [exact G|]. intros Hk.
  destruct (New Hk) as (nc & ->).
  match goal with
  | |- context [core_visit cfg ?x] =>
      destruct (core_visit_fields cfg x) as (F1 & F2 & _ & F4 & F5 & F6);
      destruct (core_visit_rest cfg x) as (R1 & R2 & R3 & _)
  end.
  rewrite F1, F2, F4, F5, F6, R1, R2, R3. now repeat split.
Qed.

(** X4. A new interest added below the capacity is linked to exactly
    the topics of the graph whose keyword similarity with it reaches
    [connectionThreshold]; each of them lists the new topic back and
    gains 0.05, capped at [maxWeight]; the other nodes are left as they
    were, up to the re-evaluation of their core status. *)
Theorem addInterest_links_similar (cfg : Config) (now : Z) (t : string)
    (strength : Q) (b : Engine) :
  let key := trim (toLowerCase t) in
  let b' := fst (addInterest cfg now t strength b) in
  JsMap.get key (interests b) = None ->
  (JsMap.size (interests b) < maxShortTermInterests cfg)%nat ->
  (exists n,
      JsMap.get key (interests b') = Some n
      /\ forall u,
           In u (connections n)
           <-> In u (JsMap.keys (interests b))
               /\ connectionThreshold cfg <= calculateSimilarity key u)
  /\ forall u nu,
       JsMap.get u (interests b) = Some nu ->
       exists nu',
         JsMap.get u (interests b') = Some nu'
         /\ (connectionThreshold cfg <= calculateSimilarity key u ->
             In key (connections nu')
             /\ weight nu' = Qmin (weight nu + (5 # 100)) (maxWeight cfg))
         /\ (calculateSimilarity key u < connectionThreshold cfg ->
             nu' = core_visit cfg nu).
Proof.
  intros key b' Hk Hsize. unfold b'.
  destruct (addInterest_new cfg now t strength b Hk) as (b0 & E0 & A0 & E).
  assert (L : (maxShortTermInterests cfg <=? JsMap.size (interests b))%nat
              = false) by (apply Nat.leb_gt; exact Hsize).
  rewrite L in E0. subst b0. rewrite E. fold key in A0 |- *.
  set (e := mkEngine (JsMap.set key (createInterestNode cfg now t)
                                (interests b)) (connectionLog b)).
  assert (Ge : JsMap.get key (interests e)
               = Some (createInterestNode cfg now t))
    by (simpl; rewrite get_set; now rewrite String.eqb_refl).
  assert (Ke : forall u, In u (JsMap.keys (interests e)) /\ u <> key
                         <-> In u (JsMap.keys (interests b))).
  { intros u. simpl. rewrite (set_absent _ _ _ A0).
    unfold JsMap.keys. rewrite map_app, in_app_iff. simpl. split.
    - intros [[H | [H | []]] N]; [assumption | congruence].
    - intros H. split; [now left|]. intros ->.
      apply In_keys_get in H. destruct H as [v Hv]. congruence. }
  split.
  - destruct (get_findAndCreateConnections cfg now key e _ key Ge)
      as (nc & P & G).
    rewrite get_updateCoreStatus, G, String.eqb_refl. simpl.
    eexists. split; [reflexivity|]. intros u.
    match goal with
    | |- context [core_visit cfg ?x] =>
        destruct (core_visit_fields cfg x) as (_ & _ & -> & _)
    end.
    simpl. rewrite P. simpl. unfold similar. rewrite geb_true, <- Ke.
    tauto.
  - intros u nu Hu.
    assert (N : key <> u) by (intros ->; congruence).
    destruct (get_findAndCreateConnections cfg now key e _ u Ge)
      as (nc & _ & G).
    rewrite get_updateCoreStatus, G.
    assert (En : String.eqb key u = false) by now apply String.eqb_neq.
    rewrite En. simpl. rewrite get_set, En, Hu. simpl.
    eexists. split; [reflexivity|].
    destruct (core_visit_fields cfg (linked cfg key u nu))
      as (_ & -> & -> & _).
    unfold linked, link_visit. simpl.
    assert (En' : String.eqb u key = false)
      by (apply String.eqb_neq; congruence).
    rewrite En'. split.
    + intros Hs. apply geb_true in Hs. rewrite Hs. simpl. split.
      * destruct (includes key (connections nu)) eqn:I.
        -- now apply includes_In.
        -- rewrite in_app_iff. simpl. tauto.
      * reflexivity.
    + intros Hs. apply geb_false in Hs. now rewrite Hs.
Qed.

Lemma addInterest_links_witness :
  exists n,
    JsMap.get "deep learning" (interests Sample.two_topics) = Some n
    /\ In "machine learning"%string (connections n).
Proof.
  destruct (addInterest_links_similar default_config 10 "deep learning"
              (1 # 10)
              (fst (addInterest default_config 0 "Machine Learning" (1 # 10)
                                new_engine)))
    as [(n & G & L) _].
  - vm_compute. reflexivity.
  - vm_compute. lia.
  - exists n. split; [exact G|]. apply L. split.
    + vm_compute. tauto.
    + vm_compute. discriminate.
Defined.

(** *** The keys of the graph *)

Lemma size_keys {V : Type} (m : JsMap.t V) :
  JsMap.size m = List.length (JsMap.keys m).
Proof. unfold JsMap.size, JsMap.keys. now rewrite length_map. Qed.

Lemma removeInterest_size (t : string) (b : Engine) :
  (JsMap.size (interests (removeInterest t b)) <= JsMap.size (interests b))%nat.
Proof.
  unfold removeInterest. destruct (JsMap.get t (interests b)); [|lia].
  simpl. rewrite !size_keys, keys_delete.
  rewrite (keys_fold_modify (fun _ => unlinked t)). apply filter_length_le.
Qed.

Lemma removeWeakestInterest_size (b : Engine) :
  (JsMap.size (interests (removeWeakestInterest b))
   <= JsMap.size (interests b))%nat.
Proof.
  unfold removeWeakestInterest.
  destruct (fold_left weakest_visit (interests b) None) as [[w q]|]; [|lia].
  destruct (String.eqb w EmptyString); [lia | apply removeInterest_size].
Qed.

(** X5. [addInterest] on a topic whose normalised form is a key of the
    graph leaves the keys as they are, whatever the case and the outer
    spaces of the topic: adding a topic twice creates one node.  A new
    topic added below the capacity is appended to the keys, and no call
    makes the graph grow by more than one node. *)
Theorem addInterest_keys (cfg : Config) (now : Z) (t : string)
    (strength : Q) (b : Engine) :
  let key := trim (toLowerCase t) in
  let b' := fst (addInterest cfg now t strength b) in
  (JsMap.get key (interests b) <> None ->
   JsMap.keys (interests b') = JsMap.keys (interests b))
  /\ (JsMap.get key (interests b) = None ->
      (JsMap.size (interests b) < maxShortTermInterests cfg)%nat ->
      JsMap.keys (interests b') = JsMap.keys (interests b) ++ [key])
  /\ (JsMap.size (interests b') <= S (JsMap.size (interests b)))%nat
  /\ forall now' t' strength',
       trim (toLowerCase t') = key ->
       JsMap.keys (interests (fst (addInterest cfg now' t' strength' b')))
       = JsMap.keys (interests b').
Proof.
  intros key b'.
  assert (Old : forall now0 t0 s0 b0,
             JsMap.get (trim (toLowerCase t0)) (interests b0) <> None ->
             JsMap.keys (interests (fst (addInterest cfg now0 t0 s0 b0)))
             = JsMap.keys (interests b0)).
  { intros now0 t0 s0 b0 H.
    destruct (JsMap.get _ (interests b0)) as [node|] eqn:Hk; [|congruence].
    rewrite (addInterest_existing _ _ _ _ _ _ Hk).
    unfold updateCoreStatus. simpl. rewrite keys_map_values.
    apply reinforceInterest_carried. }
  assert (New : JsMap.get key (interests b) = None ->
                exists b0,
                  b0 = (if (maxShortTermInterests cfg
                            <=? JsMap.size (interests b))%nat
                        then removeWeakestInterest b else b)
                  /\ JsMap.keys (interests b')
                     = JsMap.keys (interests b0) ++ [key]).
  { intros Hk.
    destruct (addInterest_new cfg now t strength b Hk) as (b0 & E0 & A0 & E).
    exists b0. split; [exact E0|]. unfold b'. rewrite E.
    unfold updateCoreStatus. simpl. rewrite keys_map_values.
    rewrite (proj2 (findAndCreateConnections_carried _ _ _ _)). simpl.
    fold key in A0 |- *. rewrite (set_absent _ _ _ A0).
    unfold JsMap.keys. now rewrite map_app. }
  split; [apply Old|]. split; [|split].
  - intros Hk Hsize. destruct (New Hk) as (b0 & E0 & K).
    assert (L : (maxShortTermInterests cfg <=? JsMap.size (interests b))%nat
                = false) by (apply Nat.leb_gt; exact Hsize).
    rewrite L in E0. now subst b0.
  - destruct (JsMap.get key (interests b)) as [node|] eqn:Hk.
    + rewrite !size_keys. unfold b', key. rewrite Old; [lia|].
      fold key. congruence.
    + destruct (New eq_refl) as (b0 & E0 & K).
      rewrite (size_keys (interests b')), K, length_app, <- size_keys.
      simpl. subst b0. destruct (_ <=? _)%nat; [|lia].
      pose proof (removeWeakestInterest_size b). lia.
  - intros now' t' strength' Et. apply Old. rewrite Et.
    destruct (addInterest_stored cfg now t strength b) as (x & G & _).
    fold key in G. unfold b'. congruence.
Qed.

(** *** Eviction *)

(** What the scan of [removeWeakestInterest] has found after the
    entries [seen]. *)
Lemma weakest_scan (m : JsMap.t InterestNode) :
  forall seen best,
    match best with
    | None => forall e, In e seen -> isCore (snd e) = true
    | Some (k, w) =>
        (exists n, In (k, n) seen /\ isCore n = false /\ weight n = w)
        /\ forall e, In e seen -> isCore (snd e) = false -> w <= weight (snd e)
    end ->
    match fold_left weakest_visit m best with
    | None => forall e, In e (seen ++ m) -> isCore (snd e) = true
    | Some (k, w) =>
        (exists n, In (k, n) (seen ++ m) /\ isCore n = false /\ weight n = w)
        /\ forall e, In e (seen ++ m) -> isCore (snd e) = false ->
                     w <= weight (snd e)
    end.
Proof.
  induction m as [|[k0 n0] m IH]; intros seen best Inv; simpl.
  - rewrite app_nil_r. exact Inv.
  - replace (seen ++ (k0, n0) :: m) with ((seen ++ [(k0, n0)]) ++ m)
      by (rewrite <- app_assoc; reflexivity).
    apply IH. unfold weakest_visit.
    destruct (isCore n0) eqn:C; simpl.
    + destruct best as [[k w]|].
      * destruct Inv as [(n & Hn & Hc & Hw) Hmin]. split.
        -- exists n. rewrite in_app_iff. tauto.
        -- intros e He. apply in_app_iff in He.
           destruct He as [He | [<- | []]]; [now apply Hmin|].
           simpl. congruence.
      * intros e He. apply in_app_iff in He.
        destruct He as [He | [<- | []]]; [now apply Inv | exact C].
    + destruct best as [[k w]|].
      * destruct Inv as [(n & Hn & Hc & Hw) Hmin].
        destruct (ltb (weight n0) w) eqn:L.
        -- apply ltb_true in L. split.
           ++ exists n0. rewrite in_app_iff. simpl. tauto.
           ++ intros e He Hce. apply in_app_iff in He.
              destruct He as [He | [<- | []]]; [|apply Qle_refl].
              apply Qlt_le_weak. eapply Qlt_le_trans; [exact L|].
              now apply Hmin.
        -- apply ltb_false in L. split.
           ++ exists n. rewrite in_app_iff. tauto.
           ++ intros e He Hce. apply in_app_iff in He.
              destruct He as [He | [<- | []]]; [now apply Hmin | exact L].
      * split.
        -- exists n0. rewrite in_app_iff. simpl. tauto.
        -- intros e He Hce. apply in_app_iff in He.
           destruct He as [He | [<- | []]]; [|apply Qle_refl].
           apply Inv in He. congruence.
Qed.

(** X6. [removeWeakestInterest] removes at most one node, and never a
    core one nor the node of the empty topic: the node it removes is
    not flagged core and no node that is not flagged core weighs less.
    When every node is flagged core it removes nothing. *)
Theorem removeWeakestInterest_spares_core (b : Engine) :
  NoDup (JsMap.keys (interests b)) ->
  let b' := removeWeakestInterest b in
  (forall k n,
      JsMap.get k (interests b) = Some n ->
      JsMap.get k (interests b') = None ->
      isCore n = false
      /\ k <> EmptyString
      /\ (forall k2 n2,
             JsMap.get k2 (interests b) = Some n2 -> isCore n2 = false ->
             weight n <= weight n2)
      /\ forall k2,
           JsMap.get k2 (interests b) <> None ->
           JsMap.get k2 (interests b') = None -> k2 = k)
  /\ ((forall k n, JsMap.get k (interests b) = Some n -> isCore n = true) ->
      b' = b).
Proof.
  intros N b'. pose proof (weakest_scan (interests b) [] None) as W.
  simpl in W. specialize (W (fun e F => match F with end)).
  unfold b', removeWeakestInterest.
  destruct (fold_left weakest_visit (interests b) None) as [[w q]|].
  - destruct W as [(nw & Hnw & Hcw & Hqw) Hmin]. split.
    + intros k n Hk Hgone.
      destruct (String.eqb_spec w EmptyString) as [->|Nw]; [congruence|].
      assert (Gone : forall k2,
                 JsMap.get k2 (interests b) <> None ->
                 JsMap.get k2 (interests (removeInterest w b)) = None ->
                 k2 = w).
      { intros k2 H2 G2.
        destruct (string_dec k2 w) as [E|E]; [assumption|].
        apply (NoDup_keys_get _ _ _ N) in Hnw.
        rewrite (get_removeInterest_other w b nw k2 Hnw E) in G2.
        destruct (JsMap.get k2 (interests b)); [discriminate | congruence]. }
      assert (Ek : k = w) by (apply Gone; congruence).
      subst k. apply (NoDup_keys_get _ _ _ N) in Hnw.
      assert (n = nw) by congruence. subst nw.
      repeat split; try assumption.
      intros k2 n2 H2 C2. rewrite Hqw.
      apply (Hmin (k2, n2)); [now apply get_In | exact C2].
    + intros All. exfalso.
      apply (NoDup_keys_get _ _ _ N) in Hnw. apply All in Hnw. congruence.
  - split; [congruence | reflexivity].
Qed.

Lemma removeWeakestInterest_witness :
  JsMap.get "deep learning" (interests (removeWeakestInterest Sample.two_topics))
  = None
  /\ exists n,
       JsMap.get "deep learning" (interests Sample.two_topics) = Some n
       /\ isCore n = false.
Proof.
  assert (G : exists n,
             JsMap.get "deep learning" (interests Sample.two_topics) = Some n)
    by (eexists; vm_compute; reflexivity).
  destruct G as [n G].
  assert (Gone : JsMap.get "deep learning"
                   (interests (removeWeakestInterest Sample.two_topics))
                 = None) by (vm_compute; reflexivity).
  split; [exact Gone|]. exists n. split; [exact G|].
  exact (proj1 (proj1 (removeWeakestInterest_spares_core Sample.two_topics
                         (proj1 (reachable_ok _ _ two_topics_reachable)))
                      "deep learning"%string n G Gone)).
Defined.

End InsertionProps.

(** ** Queries and snapshots of the graph *)

Module QueryProps.
Import Js JsFacts JsMapFacts Brain Spec GraphProps HysteresisProps.

(** *** Ranking *)

Lemma insert_by_weight_perm (x : InterestNode) (l : list InterestNode) :
  Permutation (insert_by_weight x l) (x :: l).
Proof.
  induction l as [|y l IH]; simpl; [reflexivity|].
  destruct (ltb _ _); [|reflexivity].
  rewrite IH. apply perm_swap.
Qed.

Lemma insert_by_weight_sorted (x : InterestNode) (l : list InterestNode) :
  by_weight l -> by_weight (insert_by_weight x l).
Proof.
  unfold by_weight. induction 1 as [|y l Hl IH Hy]; simpl.
  - repeat constructor.
  - destruct (ltb (weight x) (weight y)) eqn:E.
    + apply ltb_true in E. constructor; [exact IH|].
      apply Forall_forall. intros z Hz.
      apply (Permutation_in _ (insert_by_weight_perm x l)) in Hz.
      destruct Hz as [<- | Hz]; [now apply Qlt_le_weak|].
      apply (proj1 (Forall_forall _ _) Hy z Hz).
    + apply ltb_false in E. constructor; [now constructor|].
      constructor; [exact E|].
      apply Forall_forall. intros z Hz.
      eapply Qle_trans; [|exact E].
      apply (proj1 (Forall_forall _ _) Hy z Hz).
Qed.

Lemma getInterestsSorted_perm (b : Engine) :
  Permutation (getInterestsSorted b) (JsMap.values (interests b)).
Proof.
  unfold getInterestsSorted.
  induction (JsMap.values (interests b)) as [|x l IH]; simpl; [reflexivity|].
  rewrite insert_by_weight_perm. now constructor.
Qed.

Lemma getInterestsSorted_sorted (b : Engine) :
  by_weight (getInterestsSorted b).
Proof.
  unfold getInterestsSorted.
  induction (JsMap.values (interests b)) as [|x l IH]; simpl.
  - constructor.
  - now apply insert_by_weight_sorted.
Qed.

Lemma by_weight_split (l1 l2 : list InterestNode) :
  by_weight (l1 ++ l2) ->
  forall x y, In x l1 -> In y l2 -> weight y <= weight x.
Proof.
  unfold by_weight. induction l1 as [|z l1 IH]; simpl; [intros _ x y []|].
  intros S x y Hx Hy. inversion S as [|? ? S' F]; subst.
  destruct Hx as [<- | Hx]; [|now apply IH].
  apply (proj1 (Forall_forall _ _) F y). rewrite in_app_iff. now right.
Qed.

(** X7. [getInterestsSorted] returns the nodes of the graph ordered by
    weight, heaviest first, and [getTopInterests(count)] its first
    [count] ones: as many nodes as asked for, or all of them when there
    are fewer, each at least as heavy as every node left out. *)
Theorem getTopInterests_heaviest (count : nat) (b : Engine) :
  let top := getTopInterests count b in
  by_weight (getInterestsSorted b)
  /\ List.length top = Nat.min count (JsMap.size (interests b))
  /\ exists rest,
       getInterestsSorted b = top ++ rest
       /\ Permutation (top ++ rest) (JsMap.values (interests b))
       /\ forall x y, In x top -> In y rest -> weight y <= weight x.
Proof.
  intros top. pose proof (getInterestsSorted_sorted b) as S.
  pose proof (getInterestsSorted_perm b) as P.
  split; [exact S|]. split.
  - unfold top, getTopInterests. rewrite length_firstn.
    rewrite (Permutation_length P). unfold JsMap.size, JsMap.values.
    now rewrite length_map.
  - exists (skipn count (getInterestsSorted b)).
    unfold top, getTopInterests. rewrite firstn_skipn.
    split; [reflexivity|]. split; [exact P|].
    apply by_weight_split. now rewrite firstn_skipn.
Qed.

(** *** Statistics *)

Lemma status_count (l : list InterestNode) :
  (forall n, In n l -> isCore n = true -> memoryType n = Core) ->
  (List.length (filter (fun i => MemoryType_eqb (memoryType i) ShortTerm) l)
   + List.length (filter (fun i => MemoryType_eqb (memoryType i) LongTerm) l)
   + List.length (filter isCore l) <= List.length l)%nat
  /\ ((forall n, In n l -> memoryType n = Core -> isCore n = true) ->
      (List.length (filter (fun i => MemoryType_eqb (memoryType i) ShortTerm) l)
       + List.length (filter (fun i => MemoryType_eqb (memoryType i) LongTerm) l)
       + List.length (filter isCore l) = List.length l)%nat).
Proof.
  induction l as [|x l IH]; intros H; [simpl; split; [lia | reflexivity]|].
  destruct IH as [IH1 IH2]; [intros n Hn; apply H; now right|].
  pose proof (H x (or_introl eq_refl)) as Hx.
  split.
  - simpl. destruct (isCore x).
    + rewrite (Hx eq_refl). simpl. lia.
    + destruct (memoryType x); simpl; lia.
  - intros H'. specialize (IH2 (fun n Hn => H' n (or_intror Hn))).
    pose proof (H' x (or_introl eq_refl)) as Hx'.
    simpl. destruct (isCore x).
    + rewrite (Hx eq_refl). simpl. lia.
    + destruct (memoryType x); simpl; try lia.
      specialize (Hx' eq_refl). discriminate.
Qed.

Lemma values_get {V : Type} (m : JsMap.t V) (v : V) :
  NoDup (JsMap.keys m) -> In v (JsMap.values m) ->
  exists k, JsMap.get k m = Some v.
Proof.
  intros N H. apply in_map_iff in H. destruct H as ([k v'] & <- & H).
  exists k. now apply NoDup_keys_get.
Qed.

(** X8. The counters of [getStats]: [total] is the size of the graph,
    and in every graph reachable by the operations the short-term,
    long-term and core counts add up to at most [total] (the core count
    is that of the [isCore] flags).  They add up to exactly [total]
    when [addInterest] or a decay tick has just run. *)
Theorem getStats_counts (cfg : Config) (b : Engine) :
  reachable cfg b ->
  stats_total (getStats b) = JsMap.size (interests b)
  /\ (stats_shortTerm (getStats b) + stats_longTerm (getStats b)
      + stats_core (getStats b) <= stats_total (getStats b))%nat
  /\ forall b',
       reevaluation cfg b b' ->
       (stats_shortTerm (getStats b') + stats_longTerm (getStats b')
        + stats_core (getStats b') = stats_total (getStats b'))%nat.
Proof.
  intros Hr. pose proof (reachable_ok cfg b Hr) as [N I].
  split; [|split].
  - unfold getStats, JsMap.size, JsMap.values. simpl. now rewrite length_map.
  - unfold getStats. simpl. apply status_count.
    intros n Hn. destruct (values_get _ _ N Hn) as [k Hk]. now apply (I k).
  - intros b' R.
    assert (Hr' : reachable cfg b')
      by (eapply reach_step; [exact Hr | now apply op_graph]).
    pose proof (reachable_ok cfg b' Hr') as [N' I'].
    unfold getStats. simpl. apply status_count.
    + intros n Hn. destruct (values_get _ _ N' Hn) as [k Hk].
      now apply (I' k).
    + intros n Hn Hm. destruct (values_get _ _ N' Hn) as [k Hk].
      destruct (reevaluation_pre cfg _ _ R) as (pre & -> & G & _).
      rewrite get_updateCoreStatus in Hk.
      destruct (JsMap.get k (interests pre)) as [x|] eqn:Hx; [|discriminate].
      simpl in Hk. injection Hk as <-.
      destruct (core_visit_fields cfg x) as (_ & _ & _ & _ & _ & ->).
      rewrite core_visit_memoryType in Hm.
      destruct (geb (weight x) (coreThreshold cfg)); [reflexivity|].
      destruct (MemoryType_eqb (memoryType x) Core) eqn:E; [discriminate|].
      apply MemoryType_eqb_eq in Hm. congruence.
Qed.

Lemma getStats_counts_witness :
  stats_total (getStats Sample.two_topics) = 2%nat
  /\ (stats_shortTerm (getStats Sample.two_topics)
      + stats_longTerm (getStats Sample.two_topics)
      + stats_core (getStats Sample.two_topics) <= 2)%nat.
Proof.
  destruct (getStats_counts default_config Sample.two_topics
              two_topics_reachable) as (T & L & _).
  split; [exact T|]. rewrite T in L. exact L.
Defined.

(** *** Snapshots *)

Lemma of_entries_app {V : Type} (l : list (string * V)) :
  forall acc,
    NoDup (JsMap.keys (acc ++ l)) ->
    fold_left (fun m e => JsMap.set (fst e) (snd e) m) l acc = acc ++ l.
Proof.
  induction l as [|[k v] l IH]; intros acc N; simpl.
  - now rewrite app_nil_r.
  - assert (A : JsMap.get k acc = None).
    { destruct (JsMap.get k acc) as [x|] eqn:Hx; [|reflexivity].
      exfalso. apply get_In_keys in Hx.
      unfold JsMap.keys in N. rewrite map_app in N. simpl in N.
      apply NoDup_remove_2 in N. apply N. rewrite in_app_iff. now left. }
    rewrite (set_absent _ _ _ A).
    replace (acc ++ (k, v) :: l) with ((acc ++ [(k, v)]) ++ l) in *
      by (rewrite <- app_assoc; reflexivity).
    now apply IH.
Qed.

Lemma of_entries_id {V : Type} (m : JsMap.t V) :
  NoDup (JsMap.keys m) -> JsMap.of_entries m = m.
Proof. intros N. unfold JsMap.of_entries. now rewrite of_entries_app. Qed.

(** X9. [import(export())] restores the graph: the interests, with
    their order, and the connection log are those that were exported,
    whatever the engine held before the import.  A snapshot whose
    version is not 1 is refused and leaves the engine as it was. *)
Theorem import_export_round_trip (now : Z) (b b0 : Engine)
    (data : Snapshot) :
  (NoDup (JsMap.keys (interests b)) ->
   import (export now b) b0 = (b, Imported))
  /\ (snap_version data <> 1%Z ->
      import data b0 = (b0, IncompatibleVersion)).
Proof.
  split.
  - intros N. unfold import, export. simpl.
    rewrite (of_entries_id _ N). now destruct b.
  - intros H. unfold import. apply Z.eqb_neq in H. now rewrite H.
Qed.

End QueryProps.

(** ** Promotion and clustering *)

Module PromotionProps.
Import Js JsFacts JsMapFacts Brain Spec Memory GraphProps HysteresisProps.
Import ConsolidatorProps QueryProps.

(** *** The promotion score *)

Lemma of_Z_nonneg (z : Z) : (0 <= z)%Z -> 0 <= of_Z z.
Proof.
  intros H. unfold of_Z. change 0 with (inject_Z 0). now rewrite <- Zle_Qle.
Qed.

(** X10. The promotion score of a node that was not active after the
    time of the pass is at most 1, as are its four components; the
    connection and recency components are never negative, and the
    score is not negative when the weight and the access component are
    not. *)
Theorem scoreForPromotion_bounds (log : Q -> Q) (now : Z)
    (node : InterestNode) :
  (lastActive node <= now)%Z ->
  let s := scoreForPromotion log now node in
  total s <= 1
  /\ bd_weight (breakdown s) <= 1
  /\ 0 <= bd_connections (breakdown s) <= 1
  /\ bd_access (breakdown s) <= 1
  /\ 0 <= bd_recency (breakdown s) <= 1
  /\ (0 <= weight node -> 0 <= bd_access (breakdown s) -> 0 <= total s).
Proof.
  intros Ht. unfold scoreForPromotion. cbv zeta.
  cbn [total breakdown bd_weight bd_connections bd_access bd_recency].
  set (w := Qmin (weight node / 1) 1).
  set (c := Qmin (of_nat (List.length (connections node)) / 10) 1).
  set (a := Qmin (log (of_Z (accessCount node + 1)) / log (of_Z (50 + 1))) 1).
  set (r := Qmax (1 - of_Z (now - lastActive node)
                      / of_Z (7 * 24 * 60 * 60 * 1000)) 0).
  assert (Hw : w <= 1) by apply Q.le_min_r.
  assert (Hc : 0 <= c <= 1).
  { split; [|apply Q.le_min_r]. apply Q.min_glb; [|discriminate].
    apply Qle_shift_div_l; [reflexivity|].
    rewrite Qmult_0_l. apply of_nat_nonneg. }
  assert (Ha : a <= 1) by apply Q.le_min_r.
  assert (Hr : 0 <= r <= 1).
  { split; [apply Q.le_max_r|]. apply Q.max_lub; [|discriminate].
    assert (A : 0 <= of_Z (now - lastActive node)
                     / of_Z (7 * 24 * 60 * 60 * 1000)).
    { apply Qle_shift_div_l; [reflexivity|].
      rewrite Qmult_0_l. apply of_Z_nonneg. lia. }
    lra. }
  repeat split; try tauto; try lra.
  intros W A.
  assert (Hw0 : 0 <= w).
  { apply Q.min_glb; [|discriminate].
    apply Qle_shift_div_l; [reflexivity|]. now rewrite Qmult_0_l. }
  fold a in A. lra.
Qed.

Lemma scoreForPromotion_bounds_witness :
  exists n,
    JsMap.get "machine learning" (interests Sample.two_topics) = Some n
    /\ total (scoreForPromotion (fun x => x) 10 n) <= 1.
Proof.
  assert (G : exists n,
             JsMap.get "machine learning" (interests Sample.two_topics)
             = Some n /\ (lastActive n <= 10)%Z)
    by (eexists; split; [vm_compute; reflexivity | vm_compute; discriminate]).
  destruct G as (n & G & L). exists n. split; [exact G|].
  exact (proj1 (scoreForPromotion_bounds (fun x => x) 10 n L)).
Defined.

(** *** The consolidation pass on the graph *)






(** *** Long-term memory *)







End PromotionProps.

(** ** Clustering *)

Module ClusterProps.
Import Js JsFacts JsMapFacts Brain Spec Memory GraphProps HysteresisProps.
Import QueryProps.

Lemma findBestCluster_key (cfg : Memory.Config)
    (clusters : JsMap.t (list string)) (memory : InterestNode)
    (name : string) :
  findBestCluster cfg clusters memory = Some name ->
  In name (JsMap.keys clusters).
Proof.
  unfold findBestCluster.
  assert (F : forall l best,
             (forall n, fst best = Some n -> In n (JsMap.keys clusters)) ->
             incl l clusters ->
             forall n,
               fst (fold_left
                      (fun (best : option string * Q)
                           (e : string * list string) =>
                         let '(clusterName, topics) := e in
                         let totalSimilarity :=
                           fold_left
                             (fun acc t =>
                                acc + calculateSimilarity (topic memory) t)
                             topics 0 in
                         let avgSimilarity :=
                           if (0 <? List.length topics)%nat
                           then totalSimilarity
                                / Js.of_nat (List.length topics)
                           else 0 in
                         if Js.gtb avgSimilarity
                                   (clusterSimilarityThreshold cfg)
                            && Js.gtb avgSimilarity (snd best)
                         then (Some clusterName, avgSimilarity)
                         else best) l best) = Some n ->
               In n (JsMap.keys clusters)).
  { induction l as [|[cn ts] l IH]; intros best Hb Hl n; simpl.
    - apply Hb.
    - apply IH.
      + destruct (_ && _); [|exact Hb]. simpl. intros n0 [= <-].
        change cn with (fst (cn, ts)). apply in_map, Hl. now left.
      + intros e He. apply Hl. now right. }
  apply F; [discriminate | apply incl_refl].
Qed.

Lemma modify_absent {V : Type} (k : string) (f : V -> V) (m : JsMap.t V) :
  ~ In k (JsMap.keys m) -> JsMap.modify k f m = m.
Proof.
  unfold JsMap.modify, JsMap.keys.
  induction m as [|[k0 v0] m IH]; simpl; [reflexivity|].
  intros H. destruct (String.eqb_spec k0 k) as [->|N]; [tauto|].
  rewrite IH; [reflexivity | tauto].
Qed.

(** A push on the cluster [k] adds one element to the clusters. *)
Lemma concat_modify_push (k x : string) (m : JsMap.t (list string)) :
  NoDup (JsMap.keys m) -> In k (JsMap.keys m) ->
  Permutation
    (List.concat (JsMap.values (JsMap.modify k (fun cl => cl ++ [x]) m)))
    (x :: List.concat (JsMap.values m)).
Proof.
  induction m as [|[k0 v0] m IH]; simpl; [tauto|].
  intros N H. inversion N as [|? ? Hk N']; subst.
  destruct (String.eqb_spec k0 k) as [->|Nk]; simpl.
  - fold (JsMap.modify k (fun cl => cl ++ [x]) m).
    rewrite (modify_absent _ _ _ Hk), <- app_assoc. simpl.
    symmetry. apply Permutation_middle.
  - destruct H as [E|H]; [congruence|].
    fold (JsMap.modify k (fun cl => cl ++ [x]) m).
    rewrite (IH N' H). symmetry. apply Permutation_middle.
Qed.

(** The push of a topic that is not assigned yet on an existing
    cluster. *)
Lemma clusters_push (name x : string) (cl : JsMap.t (list string))
    (asg : list string) :
  NoDup (JsMap.keys cl) ->
  Permutation (List.concat (JsMap.values cl)) asg ->
  NoDup asg ->
  incl (JsMap.keys cl) (asg ++ [x]) ->
  In name (JsMap.keys cl) -> ~ In x asg ->
  clusters_ok (JsMap.modify name (fun c => c ++ [x]) cl, asg ++ [x]).
Proof.
  intros N P D I Hn Hx. unfold clusters_ok. simpl.
  rewrite keys_modify. repeat split; try assumption.
  - rewrite (concat_modify_push _ _ _ N Hn), P.
    apply Permutation_cons_append.
  - now apply LinkProps.pushed_NoDup.
Qed.

(** The inner loop of [clusterMemories], over the topics connected to
    the memory. *)
Lemma cluster_connected (name : string) (cs : list string) :
  forall st,
    clusters_ok st -> In name (JsMap.keys (fst st)) ->
    let st' :=
      fold_left
        (fun (st' : JsMap.t (list string) * list string) connectedTopic =>
           if includes connectedTopic (snd st') then st'
           else (JsMap.modify name (fun cl => cl ++ [connectedTopic])
                              (fst st'),
                 snd st' ++ [connectedTopic]))
        cs st in
    clusters_ok st' /\ incl (snd st) (snd st').
Proof.
  induction cs as [|ct cs IH]; intros st Ok Hn; simpl.
  - split; [exact Ok | apply incl_refl].
  - destruct (includes ct (snd st)) eqn:E; [now apply IH|].
    destruct st as [cl asg]. simpl in *.
    destruct Ok as (N & P & D & I).
    assert (Hx : ~ In ct asg).
    { intros C. apply includes_In in C. congruence. }
    edestruct IH as [Ok' I'].
    + apply (clusters_push name ct cl asg); try assumption.
      now apply incl_appl.
    + simpl. now rewrite keys_modify.
    + split; [exact Ok'|]. simpl in I'.
      intros a Ha. apply I'. rewrite in_app_iff. now left.
Qed.

Lemma cluster_visit_ok (cfg : Memory.Config)
    (st : JsMap.t (list string) * list string) (memory : InterestNode) :
  clusters_ok st ->
  clusters_ok (cluster_visit cfg st memory)
  /\ incl (snd st) (snd (cluster_visit cfg st memory))
  /\ In (topic memory) (snd (cluster_visit cfg st memory)).
Proof.
  intros Ok. unfold cluster_visit. destruct st as [cl asg].
  destruct (includes (topic memory) asg) eqn:E.
  { apply includes_In in E.
    split; [exact Ok | split; [apply incl_refl | exact E]]. }
  assert (Hx : ~ In (topic memory) asg).
  { intros C. apply includes_In in C. congruence. }
  destruct Ok as (N & P & D & I). simpl in N, P, D, I.
  (* the cluster the memory joins, and the clusters once it exists *)
  assert (C1 : exists name cl1,
             match findBestCluster cfg cl memory with
             | Some n =>
                 if String.eqb n EmptyString
                 then (topic memory, JsMap.set (topic memory) [] cl)
                 else (n, cl)
             | None => (topic memory, JsMap.set (topic memory) [] cl)
             end = (name, cl1)
             /\ NoDup (JsMap.keys cl1)
             /\ Permutation (List.concat (JsMap.values cl1)) asg
             /\ incl (JsMap.keys cl1) (asg ++ [topic memory])
             /\ In name (JsMap.keys cl1)).
  { assert (New : exists name cl1,
               (topic memory, JsMap.set (topic memory) [] cl) = (name, cl1)
               /\ NoDup (JsMap.keys cl1)
               /\ Permutation (List.concat (JsMap.values cl1)) asg
               /\ incl (JsMap.keys cl1) (asg ++ [topic memory])
               /\ In name (JsMap.keys cl1)).
    { eexists. eexists. split; [reflexivity|].
      assert (A : JsMap.get (topic memory) cl = None).
      { destruct (JsMap.get (topic memory) cl) as [v|] eqn:Hv;
          [|reflexivity].
        exfalso. apply Hx, I. eapply get_In_keys, Hv. }
      rewrite (set_absent _ _ _ A).
      unfold JsMap.keys, JsMap.values. rewrite !map_app, concat_app. simpl.
      rewrite app_nil_r. repeat split.
      - apply LinkProps.pushed_NoDup; [exact N|].
        intros C. apply Hx, I, C.
      - exact P.
      - intros a Ha. apply in_app_iff in Ha. rewrite in_app_iff.
        destruct Ha as [Ha | Ha]; [left; now apply I | now right].
      - rewrite in_app_iff. simpl. tauto. }
    destruct (findBestCluster cfg cl memory) as [n|] eqn:F; [|exact New].
    destruct (String.eqb n EmptyString); [exact New|].
    exists n, cl. split; [reflexivity|]. repeat split; try assumption.
    - now apply incl_appl.
    - now apply findBestCluster_key in F. }
  destruct C1 as (name & cl1 & -> & N1 & P1 & I1 & Hn).
  pose proof (clusters_push name (topic memory) cl1 asg N1 P1 D I1 Hn Hx)
    as Ok2.
  edestruct (cluster_connected name (connections memory)) as [Ok3 I3];
    [exact Ok2 | simpl; now rewrite keys_modify|].
  simpl in I3. split; [exact Ok3 | split].
  - intros a Ha. apply I3. rewrite in_app_iff. now left.
  - apply I3. rewrite in_app_iff. simpl. tauto.
Qed.

Lemma cluster_fold_ok (cfg : Memory.Config) (ltm : list InterestNode) :
  forall st,
    clusters_ok st ->
    clusters_ok (fold_left (cluster_visit cfg) ltm st)
    /\ incl (snd st) (snd (fold_left (cluster_visit cfg) ltm st))
    /\ forall m, In m ltm ->
                 In (topic m) (snd (fold_left (cluster_visit cfg) ltm st)).
Proof.
  induction ltm as [|m0 ltm IH]; intros st Ok; simpl.
  - split; [exact Ok | split; [apply incl_refl | intros m []]].
  - destruct (cluster_visit_ok cfg st m0 Ok) as (Ok1 & I1 & T1).
    destruct (IH _ Ok1) as (Ok2 & I2 & T2).
    split; [exact Ok2 | split; [eapply incl_tran; eassumption|]].
    intros m [<- | Hm]; [now apply I2 | now apply T2].
Qed.

(** X13. [clusterMemories] partitions the topics it groups: the
    clusters have distinct names, no topic is in two clusters or twice
    in one, and the topic of every long-term memory is in a cluster.
    The long-term memories themselves are left as they were. *)
Theorem clusterMemories_partition (cfg : Memory.Config) (c : Consolidator) :
  let clusters := topicClusters (clusterMemories cfg c) in
  NoDup (JsMap.keys clusters)
  /\ NoDup (List.concat (JsMap.values clusters))
  /\ (forall m,
         In m (longTermMemory c) ->
         exists name cl,
           JsMap.get name clusters = Some cl /\ In (topic m) cl)
  /\ longTermMemory (clusterMemories cfg c) = longTermMemory c.
Proof.
  intros clusters. unfold clusters, clusterMemories. simpl.
  destruct (cluster_fold_ok cfg (longTermMemory c) ([], []))
    as ((N & P & D & I) & _ & T).
  { unfold clusters_ok. simpl.
    repeat split; [constructor | constructor | constructor|].
    intros a []. }
  repeat split.
  - exact N.
  - eapply Permutation_NoDup; [symmetry; exact P | exact D].
  - intros m Hm. apply T in Hm.
    apply (Permutation_in _ (Permutation_sym P)) in Hm.
    apply in_concat in Hm. destruct Hm as (cl & Hcl & Hin).
    destruct (values_get _ _ N Hcl) as [name Hname].
    now exists name, cl.
Qed.

End ClusterProps.

(** ** Dream sessions *)

Module ReplayProps.
Import Js JsFacts JsMapFacts Brain Spec GraphProps HysteresisProps RandFacts.
Import LinkProps AdjacencyProps InsertionProps QueryProps.

(** *** Random indices *)

(** [a[Math.floor(Math.random() * a.length)]] is an element of a
    non-empty array. *)
Lemma at_floor_unit {A : Type} (a : list A) (r : Q) :
  0 <= r -> r < 1 -> a <> [] ->
  exists v, Dreamer.at_floor a (r * of_nat (List.length a)) = Some v.
Proof.
  intros H0 H1 Ha. unfold Dreamer.at_floor.
  assert (L : (0 < List.length a)%nat)
    by (destruct a; [congruence | simpl; lia]).
  pose proof (of_nat_pos _ L) as Lq.
  set (x := r * of_nat (List.length a)).
  assert (X0 : 0 <= x) by (apply Qmult_le_0_compat; [assumption|];
                           now apply Qlt_le_weak).
  assert (X1 : x < of_nat (List.length a)).
  { unfold x. rewrite <- (Qmult_1_l (of_nat (List.length a))) at 2.
    now apply Qmult_lt_compat_r. }
  assert (F0 : (0 <= Qfloor x)%Z).
  { change 0%Z with (Qfloor 0). now apply Qfloor_resp_le. }
  assert (F1 : (Qfloor x < Z.of_nat (List.length a))%Z).
  { rewrite Zlt_Qlt. eapply Qle_lt_trans; [apply Qfloor_le | exact X1]. }
  assert (E : (Qfloor x <? 0)%Z = false) by (apply Z.ltb_ge; exact F0).
  rewrite E.
  destruct (nth_error a (Z.to_nat (Qfloor x))) as [v|] eqn:N; [eauto|].
  apply nth_error_None in N. lia.
Qed.

(** *** The shape of a chain *)

Section Walk.
Variable rnd : nat -> Q.
Variable b : Engine.

Lemma next_memory_graph (interests : list InterestNode)
    (current : InterestNode) (used : list string) :
  always rnd (Dreamer.next_memory b interests current used)
         (fun o => forall x, o = Some x ->
                             In x interests
                             \/ In x (JsMap.values (Brain.interests b))).
Proof.
  unfold Dreamer.next_memory.
  apply always_bind
    with (P := fun o => forall x, o = Some x ->
                                  In x (JsMap.values (Brain.interests b))).
  - unfold Dreamer.follow_connection.
    apply always_bind with (P := fun _ => True);
      [apply always_trivial | intros r _].
    destruct (_ && _); [|apply always_ret; discriminate].
    destruct (0 <? _)%nat; [|apply always_ret; discriminate].
    apply always_bind with (P := fun _ => True);
      [apply always_trivial | intros r' _].
    apply always_ret. destruct (Dreamer.at_floor _ _); [|discriminate].
    intros x Hx. apply get_In in Hx.
    change x with (snd (s, x)). now apply in_map.
  - intros followed Hf. destruct followed as [x0|].
    + apply always_ret. intros x [= <-]. right. now apply Hf.
    + unfold Dreamer.random_jump.
      destruct (0 <? _)%nat; [|apply always_ret; discriminate].
      apply always_bind with (P := fun _ => True);
        [apply always_trivial | intros r' _].
      apply always_ret. intros x Hx.
      apply at_floor_In, filter_In in Hx. tauto.
Qed.

Lemma chain_walk_shape (interests : list InterestNode) (steps : nat) :
  forall current used,
    always rnd (Dreamer.chain_walk steps b interests current used)
           (fun more =>
              (List.length more <= steps)%nat
              /\ forall x, In x more ->
                           In x interests
                           \/ In x (JsMap.values (Brain.interests b))).
Proof.
  induction steps as [|steps IH]; intros current used;
    cbn [Dreamer.chain_walk].
  - apply always_ret. split; [simpl; lia | intros x []].
  - eapply always_bind; [apply next_memory_graph | intros next Hn].
    destruct next as [x0|];
      [|apply always_ret; split; [simpl; lia | intros x []]].
    eapply always_bind; [apply IH | intros more [Hl Hg]].
    apply always_ret. split; [simpl; lia|].
    intros x [<- | Hx]; [now apply Hn | now apply Hg].
Qed.

End Walk.

(** X14. Replaying a chain on a reachable, non-empty graph with a
    random source that draws from [[0,1)] always yields a chain: it
    holds between one and [replayChainLength] memories (one when the
    configured length is zero), all of them nodes of the graph, and no
    topic twice. *)
Theorem generateMemoryChain_shape (bcfg : Config) (cfg : Dreamer.Config)
    (b : Engine) (rnd : nat -> Q) (n : nat) :
  Rand.unit_interval rnd ->
  reachable bcfg b ->
  (0 < JsMap.size (interests b))%nat ->
  exists chain,
    fst (Dreamer.generateMemoryChain cfg b (JsMap.values (interests b)) rnd n)
    = Some chain
    /\ (1 <= List.length chain)%nat
    /\ (List.length chain <= Nat.max 1 (Dreamer.replayChainLength cfg))%nat
    /\ NoDup (map topic chain)
    /\ incl chain (JsMap.values (interests b)).
Proof.
  intros U Hr Hs.
  assert (Ne : JsMap.values (interests b) <> []).
  { unfold JsMap.size in Hs. unfold JsMap.values.
    destruct (interests b); [simpl in Hs; lia | discriminate]. }
  destruct (U n) as [U0 U1].
  destruct (at_floor_unit (JsMap.values (interests b)) (rnd n) U0 U1 Ne)
    as [current Hc].
  pose proof (chain_walk_shape rnd b (JsMap.values (interests b))
                (Dreamer.replayChainLength cfg - 1) current [topic current]
                (S n)) as [Hl Hg].
  assert (E : fst (Dreamer.generateMemoryChain cfg b
                     (JsMap.values (interests b)) rnd n)
              = Some (current
                        :: fst (Dreamer.chain_walk
                                  (Dreamer.replayChainLength cfg - 1) b
                                  (JsMap.values (interests b)) current
                                  [topic current] rnd (S n)))).
  { unfold Dreamer.generateMemoryChain. rewrite bind_eq.
    unfold Rand.random at 1 2. cbn [fst snd]. rewrite Hc.
    rewrite bind_eq. reflexivity. }
  eexists. split; [exact E|]. cbn [List.length].
  split; [lia|]. split; [lia|].
  split.
  - exact (generateMemoryChain_distinct rnd b (reachable_links bcfg b Hr) cfg
             (JsMap.values (interests b)) n _ E).
  - intros x [<- | Hx].
    + eapply at_floor_In, Hc.
    + destruct (Hg x Hx); assumption.
Qed.

Lemma generateMemoryChain_witness :
  exists chain,
    fst (Dreamer.generateMemoryChain Dreamer.default_config Sample.square
           (JsMap.values (interests Sample.square)) (fun _ => 1 # 2) 0%nat)
    = Some chain
    /\ (List.length chain <= 5)%nat.
Proof.
  destruct (generateMemoryChain_shape default_config Dreamer.default_config
              Sample.square (fun _ => 1 # 2) 0%nat)
    as (chain & E & _ & L & _).
  - intros k. split; [discriminate | reflexivity].
  - exact square_reachable.
  - vm_compute. lia.
  - exists chain. split; [exact E | exact L].
Defined.

(** *** A dream session runs to its end *)

Lemma apply_connections_chains (cfg : Dreamer.Config) (now : Z)
    (conns : list Dreamer.PotentialConnection) :
  forall st,
    Dreamer.run_chains (fold_left (Dreamer.apply_connection cfg now) conns st)
    = Dreamer.run_chains st.
Proof.
  induction conns as [|conn conns IH]; intros st; simpl; [reflexivity|].
  rewrite IH. unfold Dreamer.apply_connection.
  destruct (Dreamer.isNewConnection _ _ _); [|reflexivity].
  now destruct (Dreamer.createDreamConnection _ _ _ _ _ _).
Qed.

Lemma values_keys_nonempty {V : Type} (m m' : JsMap.t V) :
  JsMap.keys m' = JsMap.keys m -> JsMap.values m <> [] ->
  JsMap.values m' <> [].
Proof.
  unfold JsMap.keys, JsMap.values. intros K H C.
  apply (f_equal (@List.length _)) in K. rewrite !length_map in K.
  apply H. destruct m; [reflexivity|].
  apply map_eq_nil in C. subst m'. discriminate.
Qed.

Lemma generateMemoryChain_some (cfg : Dreamer.Config) (b : Engine)
    (interests : list InterestNode) (rnd : nat -> Q) (n : nat) :
  Rand.unit_interval rnd -> interests <> [] ->
  exists chain,
    fst (Dreamer.generateMemoryChain cfg b interests rnd n) = Some chain.
Proof.
  intros U Ne. destruct (U n) as [U0 U1].
  destruct (at_floor_unit interests (rnd n) U0 U1 Ne) as [current Hc].
  unfold Dreamer.generateMemoryChain. rewrite bind_eq.
  unfold Rand.random at 1 2. cbn [fst snd]. rewrite Hc.
  rewrite bind_eq. eexists. reflexivity.
Qed.

Lemma dream_chains_completes (cfg : Dreamer.Config) (now : Z)
    (explorer : option (list Dreamer.Discovery)) (rnd : nat -> Q)
    (count : nat) :
  Rand.unit_interval rnd ->
  forall st n,
    JsMap.values (interests (Dreamer.run_brain st)) <> [] ->
    fst (fst (Dreamer.dream_chains cfg now explorer count st rnd n)) = true
    /\ List.length
         (Dreamer.run_chains
            (snd (fst (Dreamer.dream_chains cfg now explorer count st rnd n))))
       = (List.length (Dreamer.run_chains st) + count)%nat.
Proof.
  intros U. induction count as [|count IH]; intros st n Ne;
    cbn [Dreamer.dream_chains].
  - split; [reflexivity | simpl; lia].
  - rewrite bind_eq.
    destruct (generateMemoryChain_some cfg (Dreamer.run_brain st)
                (JsMap.values (interests (Dreamer.run_brain st))) rnd n U Ne)
      as [chain E].
    rewrite E, bind_eq.
    match goal with
    | |- context [Dreamer.dream_chains cfg now explorer count ?s rnd ?m] =>
        destruct (IH s m) as [C L]
    end.
    + eapply values_keys_nonempty; [|exact Ne].
      match goal with
      | |- context [fold_left _ ?l ?s] =>
          apply (apply_connections_steady cfg now l s)
      end.
    + split; [exact C|]. rewrite L, apply_connections_chains. simpl.
      rewrite length_app. simpl. lia.
Qed.

(** X15. A dream session on a graph of at least three interests, with
    no session running and a random source that draws from [[0,1)],
    runs to its end: it succeeds, replays [chainsPerDream] chains,
    reports at most five insights, appends the session to the dream
    log, leaves the engine ready for the next session and keeps the
    keys of the graph as they were. *)
Theorem dream_completes (cfg : Dreamer.Config) (now : Z)
    (explorer : option (list Dreamer.Discovery)) (d : Dreamer.DreamState)
    (b : Engine) (rnd : nat -> Q) (n : nat) :
  Rand.unit_interval rnd ->
  Dreamer.isDreaming d = false ->
  (3 <= JsMap.size (interests b))%nat ->
  exists d' b' session n',
    Dreamer.dream cfg now explorer d (Some b) rnd n
    = (d', Some b', Dreamer.Success session, n')
    /\ Dreamer.isDreaming d' = false
    /\ Dreamer.dreamLog d' = Dreamer.dreamLog d ++ [session]
    /\ List.length (Dreamer.chains session) = Dreamer.chainsPerDream cfg
    /\ (List.length (Dreamer.insights session) <= 5)%nat
    /\ JsMap.keys (interests b') = JsMap.keys (interests b).
Proof.
  intros U Hd Hs. unfold Dreamer.dream. rewrite Hd.
  assert (L : (List.length (JsMap.values (interests b)) <? 3)%nat = false).
  { apply Nat.ltb_ge. unfold JsMap.values. rewrite length_map. exact Hs. }
  rewrite L, bind_eq.
  assert (Ne : JsMap.values (interests b) <> []).
  { intros C. rewrite C in L. discriminate. }
  pose proof (dream_chains_completes cfg now explorer rnd
                (Dreamer.chainsPerDream cfg) U
                (Dreamer.mkRunning b (Dreamer.discoveredConnections d)
                                   [] [] []) n Ne) as [C Len].
  pose proof (dream_chains_steady cfg now explorer
                (Dreamer.chainsPerDream cfg)
                (Dreamer.mkRunning b (Dreamer.discoveredConnections d)
                                   [] [] []) rnd n) as [K _].
  destruct (Dreamer.dream_chains _ _ _ _ _ _ _) as [[completed st] n1].
  simpl in C, Len, K |- *. subst completed.
  eexists. eexists. eexists. eexists. split; [reflexivity|].
  simpl. repeat split; try assumption.
  unfold Dreamer.generateInsights. apply firstn_le_length.
Qed.

Lemma dream_completes_witness :
  exists d' b' session n',
    Dreamer.dream Dreamer.default_config 100 None Dreamer.new_dreamer
                  (Some Sample.square) (fun _ => 0) 0%nat
    = (d', Some b', Dreamer.Success session, n')
    /\ List.length (Dreamer.chains session) = 10%nat.
Proof.
  destruct (dream_completes Dreamer.default_config 100 None
              Dreamer.new_dreamer Sample.square (fun _ => 0) 0%nat)
    as (d' & b' & session & n' & E & _ & _ & L & _).
  - intros k. split; [discriminate | reflexivity].
  - reflexivity.
  - vm_compute. lia.
  - exists d', b', session, n'. split; [exact E | exact L].
Defined.

(** *** What a dream changes *)

Lemma dreamt_refl (n : InterestNode) : dreamt n n.
Proof.
  unfold dreamt. repeat split; try reflexivity.
  - apply incl_refl.
  - apply Q.le_min_l.
  - apply Q.le_max_l.
Qed.

Lemma dreamt_trans (x y z : InterestNode) :
  dreamt x y -> dreamt y z -> dreamt x z.
Proof.
  unfold dreamt.
  intros (A1 & A2 & A3 & A4 & A5 & A6 & A7 & A8 & A9 & A10 & A11)
         (B1 & B2 & B3 & B4 & B5 & B6 & B7 & B8 & B9 & B10 & B11).
  repeat split; try congruence.
  - eapply incl_tran; eassumption.
  - eapply Qle_trans; [|exact B10].
    apply Q.min_glb; [exact A10 | apply Q.le_min_r].
  - eapply Qle_trans; [exact B11|].
    apply Q.max_lub; [exact A11 | apply Q.le_max_r].
Qed.

Lemma dreamt_graph_refl (m : JsMap.t InterestNode) : dreamt_graph m m.
Proof.
  split; [reflexivity|]. intros k n H. exists n.
  split; [assumption | apply dreamt_refl].
Qed.

Lemma dreamt_graph_trans (m1 m2 m3 : JsMap.t InterestNode) :
  dreamt_graph m1 m2 -> dreamt_graph m2 m3 -> dreamt_graph m1 m3.
Proof.
  intros [K1 H1] [K2 H2]. split; [congruence|].
  intros k n3 H. apply H2 in H. destruct H as (n2 & G2 & D2).
  apply H1 in G2. destruct G2 as (n1 & G1 & D1).
  exists n1. split; [assumption|]. eapply dreamt_trans; eassumption.
Qed.

Lemma dreamt_graph_modify (k : string) (f : InterestNode -> InterestNode)
    (m : JsMap.t InterestNode) :
  (forall n, dreamt n (f n)) -> dreamt_graph m (JsMap.modify k f m).
Proof.
  intros Hf. split; [apply keys_modify|].
  intros k' n'. rewrite get_modify.
  destruct (String.eqb k k').
  - destruct (JsMap.get k' m) as [n|]; [|discriminate].
    simpl. intros [= <-]. exists n. split; [reflexivity | apply Hf].
  - intros H. exists n'. split; [assumption | apply dreamt_refl].
Qed.

Lemma boost_dreamt (amount : Q) (n : InterestNode) :
  0 <= amount -> dreamt n (Dreamer.boost amount n).
Proof.
  intros H. unfold dreamt, Dreamer.boost. simpl.
  repeat split; try reflexivity.
  - apply incl_refl.
  - apply Q.min_le_compat_r. lra.
  - eapply Qle_trans; [apply Q.le_min_r | apply Q.le_max_r].
Qed.

Lemma push_connection_dreamt (t : string) (n : InterestNode) :
  dreamt n (Dreamer.push_connection t n).
Proof.
  unfold Dreamer.push_connection.
  destruct (includes t (connections n)); [apply dreamt_refl|].
  unfold dreamt. simpl. repeat split; try reflexivity.
  - apply incl_appl, incl_refl.
  - apply Q.le_min_l.
  - apply Q.le_max_l.
Qed.

Lemma set_dreamConnections_dreamt (l : list (string * Z))
    (n : InterestNode) :
  dreamt n (set_dreamConnections l n).
Proof.
  unfold dreamt. simpl. repeat split; try reflexivity.
  - apply incl_refl.
  - apply Q.le_min_l.
  - apply Q.le_max_l.
Qed.

Lemma apply_connection_dreamt (cfg : Dreamer.Config) (now : Z)
    (st : Dreamer.Running) (conn : Dreamer.PotentialConnection) :
  0 <= Dreamer.serendipityBoost cfg ->
  dreamt_graph (interests (Dreamer.run_brain st))
               (interests (Dreamer.run_brain
                             (Dreamer.apply_connection cfg now st conn))).
Proof.
  intros Hs.
  assert (Hb : 0 <= Dreamer.serendipityBoost cfg * (5 # 10))
    by (apply Qmult_le_0_compat; [assumption | discriminate]).
  unfold Dreamer.apply_connection.
  destruct (Dreamer.isNewConnection _ _ _).
  - unfold Dreamer.createDreamConnection.
    destruct (JsMap.get _ _); [|apply dreamt_graph_refl].
    destruct (JsMap.get _ _); [|apply dreamt_graph_refl].
    simpl.
    eapply dreamt_graph_trans;
      [|apply dreamt_graph_modify; intros n; apply set_dreamConnections_dreamt].
    eapply dreamt_graph_trans;
      [|apply dreamt_graph_modify; intros n; now apply boost_dreamt].
    eapply dreamt_graph_trans;
      [|apply dreamt_graph_modify; intros n; now apply boost_dreamt].
    eapply dreamt_graph_trans;
      [|apply dreamt_graph_modify; intros n; apply push_connection_dreamt].
    apply dreamt_graph_modify. intros n. apply push_connection_dreamt.
  - unfold Dreamer.strengthenConnection.
    destruct (JsMap.get _ _); [|apply dreamt_graph_refl].
    destruct (JsMap.get _ _); [|apply dreamt_graph_refl].
    simpl.
    eapply dreamt_graph_trans;
      [|apply dreamt_graph_modify; intros n; apply boost_dreamt; discriminate].
    apply dreamt_graph_modify. intros n. apply boost_dreamt. discriminate.
Qed.

Lemma dream_chains_dreamt (cfg : Dreamer.Config) (now : Z)
    (explorer : option (list Dreamer.Discovery)) (count : nat) :
  0 <= Dreamer.serendipityBoost cfg ->
  forall st rnd n,
    dreamt_graph (interests (Dreamer.run_brain st))
      (interests
         (Dreamer.run_brain
            (snd (fst (Dreamer.dream_chains cfg now explorer count st
                                            rnd n))))).
Proof.
  intros Hs. induction count as [|count IH]; intros st rnd n;
    cbn [Dreamer.dream_chains]; [apply dreamt_graph_refl|].
  rewrite bind_eq.
  destruct (fst (Dreamer.generateMemoryChain _ _ _ _ _)) as [chain|];
    [|apply dreamt_graph_refl].
  rewrite bind_eq. eapply dreamt_graph_trans; [|apply IH].
  generalize (fst (Dreamer.analyzeChainForConnections cfg now explorer chain
                     rnd (snd (Dreamer.generateMemoryChain cfg
                                 (Dreamer.run_brain st)
                                 (JsMap.values
                                    (interests (Dreamer.run_brain st)))
                                 rnd n)))).
  intros conns.
  assert (F : forall l st0,
             dreamt_graph (interests (Dreamer.run_brain st0))
               (interests
                  (Dreamer.run_brain
                     (fold_left (Dreamer.apply_connection cfg now) l st0)))).
  { induction l as [|conn l IHl]; intros st0; simpl;
      [apply dreamt_graph_refl|].
    eapply dreamt_graph_trans; [|apply IHl].
    now apply apply_connection_dreamt. }
  apply (F conns
           (Dreamer.mkRunning (Dreamer.run_brain st)
              (Dreamer.run_discovered st) (Dreamer.run_chains st ++ [chain])
              (Dreamer.run_new st) (Dreamer.run_strengthened st))).
Qed.

Lemma apply_connections_log (cfg : Dreamer.Config) (now : Z)
    (conns : list Dreamer.PotentialConnection) :
  forall st,
    connectionLog
      (Dreamer.run_brain
         (fold_left (Dreamer.apply_connection cfg now) conns st))
    = connectionLog (Dreamer.run_brain st).
Proof.
  induction conns as [|conn conns IH]; intros st; simpl; [reflexivity|].
  rewrite IH. unfold Dreamer.apply_connection.
  destruct (Dreamer.isNewConnection _ _ _).
  - unfold Dreamer.createDreamConnection.
    destruct (JsMap.get _ _); [|reflexivity].
    destruct (JsMap.get _ _); reflexivity.
  - unfold Dreamer.strengthenConnection.
    destruct (JsMap.get _ _); [|reflexivity].
    destruct (JsMap.get _ _); reflexivity.
Qed.

Lemma dream_chains_log (cfg : Dreamer.Config) (now : Z)
    (explorer : option (list Dreamer.Discovery)) (count : nat) :
  forall st rnd n,
    connectionLog
      (Dreamer.run_brain
         (snd (fst (Dreamer.dream_chains cfg now explorer count st rnd n))))
    = connectionLog (Dreamer.run_brain st).
Proof.
  induction count as [|count IH]; intros st rnd n;
    cbn [Dreamer.dream_chains]; [reflexivity|].
  rewrite bind_eq.
  destruct (fst (Dreamer.generateMemoryChain _ _ _ _ _)) as [chain|];
    [|reflexivity].
  rewrite bind_eq, IH. now rewrite apply_connections_log.
Qed.

(** X16. Whatever its outcome, a dream session adds and removes no node
    and keeps the order of the keys; of a node it changes at most the
    adjacency, which it only extends, the dream connections and the
    weight, which it moves towards 1 without crossing it: topic, time
    stamps, access count, keywords, core flag and memory type are left
    as they were (the boost of the configuration being non-negative).
    The connection log of the graph is left as it was. *)
Theorem dream_only_lifts (cfg : Dreamer.Config) (now : Z)
    (explorer : option (list Dreamer.Discovery))
    (d d' : Dreamer.DreamState) (b b' : Engine)
    (res : Dreamer.DreamResult) (rnd : nat -> Q) (n n' : nat) :
  0 <= Dreamer.serendipityBoost cfg ->
  Dreamer.dream cfg now explorer d (Some b) rnd n = (d', Some b', res, n') ->
  dreamt_graph (interests b) (interests b')
  /\ connectionLog b' = connectionLog b.
Proof.
  intros Hs. unfold Dreamer.dream. destruct (Dreamer.isDreaming d).
  - intros [= <- <- <- <-]. split; [apply dreamt_graph_refl | reflexivity].
  - destruct (_ <? 3)%nat.
    + intros [= <- <- <- <-]. split; [apply dreamt_graph_refl | reflexivity].
    + rewrite bind_eq.
      pose proof (dream_chains_dreamt cfg now explorer
                    (Dreamer.chainsPerDream cfg) Hs
                    (Dreamer.mkRunning b (Dreamer.discoveredConnections d)
                                       [] [] []) rnd n) as S.
      pose proof (dream_chains_log cfg now explorer
                    (Dreamer.chainsPerDream cfg)
                    (Dreamer.mkRunning b (Dreamer.discoveredConnections d)
                                       [] [] []) rnd n) as Lg.
      destruct (Dreamer.dream_chains _ _ _ _ _ _ _) as [[completed st] n1].
      simpl in S, Lg |- *.
      destruct completed; intros [= <- <- <- <-]; split; assumption.
Qed.

Lemma dream_only_lifts_witness :
  exists b',
    dreamt_graph (interests Sample.square) (interests b')
    /\ exists n',
         JsMap.get "alpha beta" (interests b') = Some n' /\ weight n' == 1.
Proof.
  eexists. split.
  - refine (proj1 (dream_only_lifts Dreamer.default_config 100 None
                     Dreamer.new_dreamer _ Sample.square _ _ (fun _ => 0)
                     0%nat _ _ _)).
    + discriminate.
    + vm_compute. reflexivity.
  - eexists. split; vm_compute; reflexivity.
Defined.

(** *** Dream connections *)

(** X17. [createDreamConnection] on two topics of the graph links them
    in both directions, so that the connection is no longer new
    whichever way it is asked, and records the discovery; when either
    topic is not in the graph it changes nothing. *)
Theorem createDreamConnection_links_both (cfg : Dreamer.Config) (now : Z)
    (x y : string) (sim : Q) (b : Engine)
    (disc : list Dreamer.DiscoveredConnection) :
  let st' := Dreamer.createDreamConnection cfg now x y sim (b, disc) in
  (JsMap.get x (interests b) = None \/ JsMap.get y (interests b) = None ->
   st' = (b, disc))
  /\ (JsMap.get x (interests b) <> None ->
      JsMap.get y (interests b) <> None ->
      Dreamer.isNewConnection (fst st') x y = false
      /\ Dreamer.isNewConnection (fst st') y x = false
      /\ snd st' = disc ++ [Dreamer.mkDiscovered x y sim now]).
Proof.
  intros st'. unfold st', Dreamer.createDreamConnection. split.
  - intros [H | H]; rewrite H; [reflexivity|].
    now destruct (JsMap.get x (interests b)).
  - intros Hx Hy.
    destruct (JsMap.get x (interests b)) as [nx|] eqn:Ex; [|congruence].
    destruct (JsMap.get y (interests b)) as [ny|] eqn:Ey; [|congruence].
    cbn [fst snd interests].
    set (m2 := JsMap.modify y (Dreamer.push_connection x)
                 (JsMap.modify x (Dreamer.push_connection y) (interests b))).
    assert (L : forall k,
               option_map connections
                 (JsMap.get k
                    (JsMap.modify x
                       (fun n => set_dreamConnections
                                   (dreamConnections n ++ [(y, now)]) n)
                       (JsMap.modify y
                          (Dreamer.boost (Dreamer.serendipityBoost cfg
                                          * (5 # 10)))
                          (JsMap.modify x
                             (Dreamer.boost (Dreamer.serendipityBoost cfg
                                             * (5 # 10))) m2))))
               = option_map connections (JsMap.get k m2)).
    { intros k.
      rewrite (same_links_modify x
                 (fun n => set_dreamConnections
                             (dreamConnections n ++ [(y, now)]) n)
                 _ (fun n => eq_refl) k).
      rewrite (same_links_modify y
                 (Dreamer.boost (Dreamer.serendipityBoost cfg * (5 # 10)))
                 _ (fun n => eq_refl) k).
      now rewrite (same_links_modify x
                     (Dreamer.boost (Dreamer.serendipityBoost cfg * (5 # 10)))
                     _ (fun n => eq_refl) k). }
    assert (G : forall k u n,
               JsMap.get k (interests b) = Some n ->
               (x = k /\ u = y) \/ (y = k /\ u = x) ->
               exists n2,
                 JsMap.get k m2 = Some n2 /\ In u (connections n2)).
    { intros k u n Hk Hu. unfold m2. rewrite !get_modify, Hk.
      destruct (String.eqb_spec y k) as [Ey'|Ny],
               (String.eqb_spec x k) as [Ex'|Nx]; simpl;
        eexists; (split; [reflexivity|]);
        rewrite ?push_connection_In; intuition congruence. }
    unfold Dreamer.isNewConnection. cbn [interests].
    repeat split.
    + destruct (G x y nx Ex (or_introl (conj eq_refl eq_refl)))
        as (n2 & G2 & I2).
      pose proof (L x) as Lx. rewrite G2 in Lx.
      match type of Lx with
      | option_map connections ?g = _ => destruct g as [n5|]
      end; [|discriminate].
      simpl in Lx. injection Lx as Lx. rewrite Lx.
      apply negb_false_iff, includes_In, I2.
    + destruct (G y x ny Ey (or_intror (conj eq_refl eq_refl)))
        as (n2 & G2 & I2).
      pose proof (L y) as Ly. rewrite G2 in Ly.
      match type of Ly with
      | option_map connections ?g = _ => destruct g as [n5|]
      end; [|discriminate].
      simpl in Ly. injection Ly as Ly. rewrite Ly.
      apply negb_false_iff, includes_In, I2.
Qed.

(** *** Insights *)

Lemma fold_chains (chains : list (list InterestNode)) :
  forall freq,
    fold_left (fun freq chain =>
                 fold_left Dreamer.count_topic (map topic chain) freq)
              chains freq
    = fold_left Dreamer.count_topic (replayed chains) freq.
Proof.
  unfold replayed.
  induction chains as [|chain chains IH]; intros freq; simpl; [reflexivity|].
  now rewrite fold_left_app, IH.
Qed.

Lemma count_topic_get (ts : list string) (t : string) :
  forall freq,
    JsMap.get t (fold_left Dreamer.count_topic ts freq)
    = match count_occ string_dec ts t with
      | O => JsMap.get t freq
      | S c =>
          Some (S c + match JsMap.get t freq with
                      | Some x => x
                      | None => 0
                      end)%nat
      end.
Proof.
  induction ts as [|t0 ts IH]; intros freq; simpl; [reflexivity|].
  rewrite IH. unfold Dreamer.count_topic. rewrite !get_set.
  destruct (string_dec t0 t) as [->|N].
  - rewrite String.eqb_refl.
    destruct (count_occ string_dec ts t); f_equal; lia.
  - apply String.eqb_neq in N. now rewrite N.
Qed.

Lemma keys_set_NoDup {V : Type} (k : string) (v : V) (m : JsMap.t V) :
  NoDup (JsMap.keys m) -> NoDup (JsMap.keys (JsMap.set k v m)).
Proof.
  intros N. destruct (JsMap.get k m) as [x|] eqn:E.
  - assert (K : JsMap.keys (JsMap.set k v m) = JsMap.keys m).
    { clear N. revert E. induction m as [|[k0 v0] m IH]; simpl;
        [discriminate|].
      destruct (String.eqb k0 k); [reflexivity|].
      intros H. simpl. now rewrite IH. }
    now rewrite K.
  - rewrite (set_absent _ _ _ E). unfold JsMap.keys. rewrite map_app.
    simpl. apply pushed_NoDup; [exact N|].
    intros C. apply In_keys_get in C. destruct C as [x Hx]. congruence.
Qed.

Lemma count_topic_NoDup (ts : list string) :
  forall freq,
    NoDup (JsMap.keys freq) ->
    NoDup (JsMap.keys (fold_left Dreamer.count_topic ts freq)).
Proof.
  induction ts as [|t ts IH]; intros freq N; simpl; [exact N|].
  apply IH. unfold Dreamer.count_topic. now apply keys_set_NoDup.
Qed.

Lemma firstn_In {A : Type} (k : nat) (l : list A) (x : A) :
  In x (firstn k l) -> In x l.
Proof.
  intros H. rewrite <- (firstn_skipn k l), in_app_iff. now left.
Qed.

(** X18. [generateInsights] reports at most five insights.  A theme is
    a topic replayed at least twice, with the number of times it was
    replayed in the session; a bridge comes from a chain of at least
    four memories and names its first, last and middle topics. *)
Theorem generateInsights_sound (chains : list (list InterestNode)) :
  (List.length (Dreamer.generateInsights chains) <= 5)%nat
  /\ forall i,
       In i (Dreamer.generateInsights chains) ->
       match i with
       | Dreamer.Theme t f =>
           (2 <= f)%nat /\ f = count_occ string_dec (replayed chains) t
       | Dreamer.Bridge from to bridge =>
           exists chain first last mid,
             In chain chains
             /\ (4 <= List.length chain)%nat
             /\ nth_error chain 0 = Some first
             /\ nth_error chain (List.length chain - 1) = Some last
             /\ nth_error chain (List.length chain / 2) = Some mid
             /\ from = topic first /\ to = topic last
             /\ bridge = topic mid
       end.
Proof.
  unfold Dreamer.generateInsights. split; [apply firstn_le_length|].
  intros i Hi. apply firstn_In, in_app_iff in Hi.
  rewrite fold_chains in Hi. destruct Hi as [Hi | Hi].
  - apply in_flat_map in Hi. destruct Hi as ([t f] & He & Hi).
    cbn [fst snd] in Hi.
    destruct (2 <=? f)%nat eqn:E2; [|now apply in_nil in Hi].
    destruct Hi as [<- | Hi]; [|now apply in_nil in Hi].
    apply Nat.leb_le in E2. split; [exact E2|].
    assert (N : NoDup (JsMap.keys
                         (fold_left Dreamer.count_topic (replayed chains)
                                    JsMap.empty)))
      by (apply count_topic_NoDup; constructor).
    apply (NoDup_keys_get _ _ _ N) in He.
    rewrite count_topic_get in He. cbn [JsMap.get JsMap.empty] in He.
    destruct (count_occ string_dec (replayed chains) t);
      [discriminate|].
    injection He as <-. lia.
  - apply in_flat_map in Hi. destruct Hi as (chain & Hc & Hi).
    destruct (4 <=? List.length chain)%nat eqn:E4;
      [|now apply in_nil in Hi].
    apply Nat.leb_le in E4.
    destruct chain as [|first rest]; [now apply in_nil in Hi|].
    destruct (nth_error (first :: rest) (List.length (first :: rest) - 1))
      as [last|] eqn:El; [|now apply in_nil in Hi].
    destruct (nth_error (first :: rest) (List.length (first :: rest) / 2))
      as [mid|] eqn:Em; [|now apply in_nil in Hi].
    destruct Hi as [<- | Hi]; [|now apply in_nil in Hi].
    exists (first :: rest), first, last, mid.
    repeat split; try assumption.
Qed.

End ReplayProps.

(** ** Strategies: selection, inheritance and survival *)

Module StrategyProps.
Import Js JsFacts Spec Genetics RandFacts EvolutionProps.

(** *** Sorting by fitness *)

Lemma insert_by_fitness_perm (x : Strategy) (l : list Strategy) :
  Permutation (insert_by_fitness x l) (x :: l).
Proof.
  induction l as [|y l IH]; simpl; [reflexivity|].
  destruct (ltb _ _); [|reflexivity].
  rewrite IH. apply perm_swap.
Qed.

Lemma insert_by_fitness_sorted (x : Strategy) (l : list Strategy) :
  by_fitness l -> by_fitness (insert_by_fitness x l).
Proof.
  unfold by_fitness. induction 1 as [|y l Hl IH Hy]; simpl.
  - repeat constructor.
  - destruct (ltb (fitness x) (fitness y)) eqn:E.
    + apply ltb_true in E. constructor; [exact IH|].
      apply Forall_forall. intros z Hz.
      apply (Permutation_in _ (insert_by_fitness_perm x l)) in Hz.
      destruct Hz as [<- | Hz]; [now apply Qlt_le_weak|].
      apply (proj1 (Forall_forall _ _) Hy z Hz).
    + apply ltb_false in E. constructor; [now constructor|].
      constructor; [exact E|].
      apply Forall_forall. intros z Hz.
      eapply Qle_trans; [|exact E].
      apply (proj1 (Forall_forall _ _) Hy z Hz).
Qed.

Lemma sort_by_fitness_perm (l : list Strategy) :
  Permutation (sort_by_fitness l) l.
Proof.
  unfold sort_by_fitness.
  induction l as [|x l IH]; simpl; [reflexivity|].
  rewrite insert_by_fitness_perm. now constructor.
Qed.

Lemma sort_by_fitness_sorted (l : list Strategy) :
  by_fitness (sort_by_fitness l).
Proof.
  unfold sort_by_fitness.
  induction l as [|x l IH]; simpl; [constructor|].
  now apply insert_by_fitness_sorted.
Qed.

Lemma by_fitness_split (l1 l2 : list Strategy) :
  by_fitness (l1 ++ l2) ->
  forall x y, In x l1 -> In y l2 -> fitness y <= fitness x.
Proof.
  unfold by_fitness. induction l1 as [|z l1 IH]; simpl; [intros _ x y []|].
  intros S x y Hx Hy. inversion S as [|? ? S' F]; subst.
  destruct Hx as [<- | Hx]; [|now apply IH].
  apply (proj1 (Forall_forall _ _) F y). rewrite in_app_iff. now right.
Qed.

Lemma firstn_min {A : Type} (k : nat) (l : list A) :
  firstn k l = firstn (Nat.min k (List.length l)) l.
Proof.
  destruct (Nat.le_ge_cases k (List.length l)) as [H | H].
  - now rewrite Nat.min_l.
  - rewrite Nat.min_r by assumption.
    now rewrite firstn_all, firstn_all2.
Qed.

(** X19. Elitism: [evolve()] on a population of at least two
    strategies sorts it by fitness and opens the new generation with
    its [elitismCount] fittest strategies (all of them when there are
    fewer), unchanged but for their generation number: same id,
    fitness, counters and genes.  No strategy left out is fitter than
    one that survives, and the history entry of the pass records the
    generation that was replaced and the fitness and id of its fittest
    strategy. *)
Theorem evolve_elitism (cfg : Config) (now : Z) (e : Evolution)
    (rnd : nat -> Q) (n : nat) :
  (2 <= List.length (population e))%nat ->
  let sorted := sort_by_fitness (population e) in
  let k := Nat.min (elitismCount cfg) (List.length (population e)) in
  let e' := fst (fst (evolve cfg now e rnd n)) in
  Permutation sorted (population e)
  /\ by_fitness sorted
  /\ firstn k (population e')
     = map (set_generation (current_generation e + 1)) (firstn k sorted)
  /\ (forall x y,
         In x (firstn k sorted) -> In y (skipn k sorted) ->
         fitness y <= fitness x)
  /\ exists entry best,
       evolutionHistory e' = evolutionHistory e ++ [entry]
       /\ h_generation entry = current_generation e
       /\ In best (population e)
       /\ h_bestFitness entry = fitness best
       /\ h_bestStrategy entry = id best
       /\ forall s, In s (population e) -> fitness s <= fitness best.
Proof.
  intros Hlen sorted k e'.
  pose proof (sort_by_fitness_perm (population e)) as P.
  pose proof (sort_by_fitness_sorted (population e)) as S.
  fold sorted in P, S.
  assert (Ls : List.length sorted = List.length (population e))
    by apply sort_by_fitness_length.
  split; [exact P|]. split; [exact S|].
  assert (Hk : firstn (elitismCount cfg) sorted = firstn k sorted).
  { unfold k. rewrite <- Ls. apply firstn_min. }
  assert (Hne : sorted <> [])
    by (intros C; rewrite C in Ls; simpl in Ls; lia).
  assert (E' : exists offspring best rest entry,
             sorted = best :: rest
             /\ population e'
                = map (set_generation (current_generation e + 1))
                      (firstn k sorted) ++ offspring
             /\ evolutionHistory e' = evolutionHistory e ++ [entry]
             /\ h_generation entry = current_generation e
             /\ h_bestFitness entry = fitness best
             /\ h_bestStrategy entry = id best).
  { unfold e', evolve.
    assert (E : (List.length (population e) <? 2)%nat = false)
      by (apply Nat.ltb_ge; exact Hlen).
    rewrite E, bind_eq. fold sorted. rewrite Hk.
    destruct (fill_some cfg now (current_generation e) sorted rnd
                (populationSize cfg
                 - List.length (map (set_generation (current_generation e + 1))
                                    (firstn k sorted))) Hne n)
      as (offspring & Ho & _).
    rewrite Ho. destruct sorted as [|best rest] eqn:Es; [congruence|].
    unfold Rand.ret. cbn [fst population evolutionHistory].
    exists offspring, best, rest. eexists.
    split; [reflexivity|]. split; [reflexivity|].
    split; [reflexivity|]. now repeat split. }
  destruct E' as (offspring & best & rest & entry & Es & Ep & Eh & G1 & G2 & G3).
  split; [|split].
  - rewrite Ep.
    assert (Lk : List.length (map (set_generation (current_generation e + 1))
                                  (firstn k sorted)) = k).
    { rewrite length_map, length_firstn, Ls. unfold k. lia. }
    rewrite <- Lk at 1. rewrite firstn_app, Nat.sub_diag, firstn_O, app_nil_r.
    apply firstn_all.
  - apply by_fitness_split. now rewrite firstn_skipn.
  - exists entry, best. repeat split; try assumption.
    + apply (Permutation_in _ P). rewrite Es. now left.
    + intros s Hs. apply (Permutation_in _ (Permutation_sym P)) in Hs.
      rewrite Es in Hs, S. destruct Hs as [<- | Hs]; [apply Qle_refl|].
      inversion S as [|? ? _ F]; subst.
      apply (proj1 (Forall_forall _ _) F s Hs).
Qed.

Lemma evolve_elitism_witness :
  firstn 2 (population
              (fst (fst (evolve default_config 100 Sample.trio
                                (fun _ => 1 # 2) 0%nat))))
  = map (set_generation 1)
        [Sample.uniform_strategy 2 2 (1 # 2);
         Sample.uniform_strategy 1 1 (1 # 4)].
Proof.
  assert (H : (2 <= List.length (population Sample.trio))%nat)
    by (simpl; lia).
  exact (proj1 (proj2 (proj2 (evolve_elitism default_config 100 Sample.trio
                                (fun _ => 1 # 2) 0%nat H)))).
Defined.

(** *** Offspring *)

Lemma pick_from (p1 p2 : Q) (rnd : nat -> Q) :
  always rnd (pick p1 p2) (fun c => from_parents c p1 p2).
Proof.
  intros n. unfold pick. rewrite bind_eq. unfold Rand.ret. cbn [fst].
  destruct (ltb _ _); [now left | now right].
Qed.

Lemma createRandomStrategy_newborn (now gen : Z) (rnd : nat -> Q) :
  always rnd (createRandomStrategy now gen) (newborn now gen).
Proof.
  intros n. unfold createRandomStrategy, generateId.
  rewrite !bind_eq. unfold Rand.ret. cbn [fst]. now repeat split.
Qed.

(** X20. Uniform crossover: every gene of the child, scalar or
    [apiPreferences] entry, is the gene of one of its two parents, and
    the child starts as a fresh strategy, with no fitness and no
    history. *)
Theorem crossover_inherits (now gen : Z) (parent1 parent2 : Strategy)
    (rnd : nat -> Q) (n : nat) :
  let child := fst (crossover now gen parent1 parent2 rnd n) in
  inherits (genes child) (genes parent1) (genes parent2)
  /\ newborn now gen child.
Proof.
  revert n. change (always rnd (crossover now gen parent1 parent2)
                           (fun child =>
                              inherits (genes child) (genes parent1)
                                       (genes parent2)
                              /\ newborn now gen child)).
  unfold crossover.
  eapply always_bind; [apply createRandomStrategy_newborn|].
  intros offspring Ho.
  do 13 (eapply always_bind; [apply pick_from | intros ? ?]).
  apply always_ret. split.
  - unfold inherits. simpl. tauto.
  - unfold newborn in *. simpl. tauto.
Qed.

Lemma mutate_scalar_near (cfg : Config) (g : Q) (rnd : nat -> Q) :
  Rand.unit_interval rnd -> in_unit g ->
  always rnd (mutate_scalar cfg g) (near g).
Proof.
  intros U [G0 G1] n. unfold mutate_scalar. rewrite bind_eq.
  destruct (ltb _ _).
  - rewrite bind_eq. unfold Rand.ret. cbn [fst].
    destruct (U (snd (Rand.random rnd n))) as [M0 M1].
    set (m := fst (Rand.random rnd (snd (Rand.random rnd n)))).
    change (0 <= m) in M0. change (m < 1) in M1.
    split; [apply clamp_unit|]. split.
    + eapply Qle_trans; [|apply Q.le_max_r].
      apply Q.min_glb; lra.
    + apply Q.max_lub; [lra|].
      eapply Qle_trans; [apply Q.le_min_r|]. lra.
  - unfold Rand.ret. cbn [fst]. split; [now split|]. split; lra.
Qed.

(** X21. Mutation moves every scalar gene by at most 0.15 and keeps it
    in [[0,1]], and keeps every [apiPreferences] entry in [[0,1]]; the
    identity, fitness and counters of the strategy are left as they
    were.  (The genes are taken in [[0,1]] and the random source draws
    from [[0,1)].) *)
Theorem mutate_small_steps (cfg : Config) (strategy : Strategy)
    (rnd : nat -> Q) (n : nat) :
  Rand.unit_interval rnd ->
  genes_in_unit (genes strategy) ->
  let mutant := fst (mutate cfg strategy rnd n) in
  scalars_near (genes strategy) (genes mutant)
  /\ api_in_unit (apiPreferences (genes mutant))
  /\ id mutant = id strategy
  /\ fitness mutant = fitness strategy
  /\ explorations mutant = explorations strategy
  /\ discoveries mutant = discoveries strategy
  /\ generation mutant = generation strategy.
Proof.
  intros U G. revert n.
  change (always rnd (mutate cfg strategy)
            (fun mutant =>
               scalars_near (genes strategy) (genes mutant)
               /\ api_in_unit (apiPreferences (genes mutant))
               /\ id mutant = id strategy
               /\ fitness mutant = fitness strategy
               /\ explorations mutant = explorations strategy
               /\ discoveries mutant = discoveries strategy
               /\ generation mutant = generation strategy)).
  unfold mutate. unfold genes_in_unit in G.
  do 5 (eapply always_bind;
        [apply mutate_scalar_near; [exact U | tauto] | intros ? ?]).
  apply always_bind with (P := api_in_unit);
    [apply mutate_api_unit; [exact U | unfold api_in_unit; tauto]
    | intros api Hapi].
  do 4 (eapply always_bind;
        [apply mutate_scalar_near; [exact U | tauto] | intros ? ?]).
  apply always_ret. unfold scalars_near. simpl. tauto.
Qed.

Lemma mutate_small_steps_witness :
  near (1 # 2)
       (explorationBias
          (genes (fst (mutate default_config
                              (Sample.uniform_strategy 1 0 (1 # 2))
                              (fun _ => 1 # 10) 0%nat)))).
Proof.
  refine (proj1 (proj1 (mutate_small_steps default_config
                          (Sample.uniform_strategy 1 0 (1 # 2))
                          (fun _ => 1 # 10) 0%nat _ _))).
  - intros k. split; [discriminate | reflexivity].
  - unfold genes_in_unit, in_unit. simpl. repeat split; discriminate.
Defined.

(** *** A fresh population *)

Lemma createRandomStrategy_unit (now gen : Z) (rnd : nat -> Q) :
  Rand.unit_interval rnd ->
  always rnd (createRandomStrategy now gen)
         (fun s => genes_in_unit (genes s)).
Proof.
  intros U n. unfold createRandomStrategy, generateId.
  rewrite !bind_eq. unfold Rand.ret, Rand.random. cbn [fst snd].
  assert (I : forall k, in_unit (rnd k)).
  { intros k. destruct (U k) as [L H]. split; [exact L|].
    now apply Qlt_le_weak. }
  unfold genes_in_unit. simpl. repeat split; apply I.
Qed.

Lemma createRandomStrategy_draws (now gen : Z) (rnd : nat -> Q) (n : nat) :
  snd (createRandomStrategy now gen rnd n) = (n + 14)%nat.
Proof.
  unfold createRandomStrategy, generateId.
  rewrite !bind_eq. unfold Rand.ret, Rand.random. cbn [fst snd]. lia.
Qed.

Lemma initialize_loop_fresh (now gen : Z) (rnd : nat -> Q) (count : nat) :
  Rand.unit_interval rnd ->
  forall n,
    List.length (fst (initialize_loop now gen count rnd n)) = count
    /\ population_in_unit (fst (initialize_loop now gen count rnd n))
    /\ Forall (newborn now gen) (fst (initialize_loop now gen count rnd n))
    /\ snd (initialize_loop now gen count rnd n) = (n + 14 * count)%nat.
Proof.
  intros U. induction count as [|count IH]; intros n;
    cbn [initialize_loop].
  - unfold Rand.ret. simpl. repeat split; try constructor. lia.
  - rewrite !bind_eq. unfold Rand.ret. cbn [fst snd].
    destruct (IH (snd (createRandomStrategy now gen rnd n)))
      as (L & G & F & D).
    repeat split.
    + cbn [List.length]. now rewrite L.
    + constructor; [now apply createRandomStrategy_unit | exact G].
    + constructor; [apply createRandomStrategy_newborn | exact F].
    + rewrite D, createRandomStrategy_draws. lia.
Qed.

(** X22. [initializePopulation] replaces the population by
    [populationSize] fresh strategies of the current generation: no
    fitness, no history, and every gene in [[0,1]] when the random
    source draws from [[0,1)]; it draws fourteen random numbers per
    strategy and leaves the generation counter and the history as they
    were. *)
Theorem initializePopulation_fresh (cfg : Config) (now : Z) (e : Evolution)
    (rnd : nat -> Q) (n : nat) :
  Rand.unit_interval rnd ->
  let e' := fst (initializePopulation cfg now e rnd n) in
  List.length (population e') = populationSize cfg
  /\ population_in_unit (population e')
  /\ Forall (newborn now (current_generation e)) (population e')
  /\ current_generation e' = current_generation e
  /\ evolutionHistory e' = evolutionHistory e
  /\ snd (initializePopulation cfg now e rnd n)
     = (n + 14 * populationSize cfg)%nat.
Proof.
  intros U e'. unfold e', initializePopulation. rewrite !bind_eq.
  unfold Rand.ret. cbn [fst snd population current_generation
                        evolutionHistory].
  destruct (initialize_loop_fresh now (current_generation e) rnd
              (populationSize cfg) U n) as (L & G & F & D).
  now repeat split.
Qed.

Lemma initializePopulation_witness :
  List.length
    (population
       (fst (initializePopulation default_config 100 Sample.trio
                                  (fun _ => 1 # 2) 0%nat)))
  = 10%nat.
Proof.
  refine (proj1 (initializePopulation_fresh default_config 100 Sample.trio
                   (fun _ => 1 # 2) 0%nat _)).
  intros k. split; [discriminate | reflexivity].
Defined.

(** *** Selecting a strategy *)

Lemma draw_member_In (population : list Strategy) (rnd : nat -> Q) (n : nat) :
  Rand.unit_interval rnd -> population <> [] ->
  exists s,
    fst (draw_member population rnd n) = Some s /\ In s population.
Proof.
  intros U Ne. unfold draw_member. rewrite bind_eq.
  unfold Rand.ret, Rand.random. cbn [fst snd].
  destruct (U n) as [U0 U1].
  destruct (ReplayProps.at_floor_unit population (rnd n) U0 U1 Ne)
    as [s Hs].
  exists s. split; [exact Hs|]. eapply LinkProps.at_floor_In, Hs.
Qed.

(** X23. [selectStrategy] returns a strategy of the population when the
    random source draws from [[0,1)] and the population is not empty
    or, being empty, is first initialised with at least one strategy;
    a population that is not empty is left as it is. *)
Theorem selectStrategy_member (cfg : Config) (now : Z) (e : Evolution)
    (rnd : nat -> Q) (n : nat) :
  Rand.unit_interval rnd ->
  population e <> [] \/ (0 < populationSize cfg)%nat ->
  exists e' s,
    fst (selectStrategy cfg now e rnd n) = (e', Some s)
    /\ In s (population e')
    /\ (population e <> [] -> e' = e).
Proof.
  intros U H. unfold selectStrategy. rewrite bind_eq.
  set (init := if (List.length (population e) =? 0)%nat
               then initializePopulation cfg now e else Rand.ret e).
  assert (I : population (fst (init rnd n)) <> []
              /\ (population e <> [] -> fst (init rnd n) = e)).
  { unfold init. destruct (population e) as [|s0 rest] eqn:Ep.
    - simpl. split; [|congruence].
      destruct H as [H | H]; [congruence|].
      destruct (initializePopulation_fresh cfg now e rnd n U) as (L & _).
      intros C. rewrite C in L. simpl in L. lia.
    - simpl. unfold Rand.ret. simpl. rewrite Ep. split; [discriminate|].
      reflexivity. }
  destruct I as [Ne Same].
  set (e1 := fst (init rnd n)) in *.
  rewrite !bind_eq.
  set (n1 := snd (init rnd n)).
  destruct (draw_member_In (population e1) rnd n1 U Ne) as (a & Ea & Ia).
  rewrite Ea.
  set (n2 := snd (draw_member (population e1) rnd n1)).
  destruct (draw_member_In (population e1) rnd n2 U Ne) as (b & Eb & Ib).
  rewrite Eb.
  set (n3 := snd (draw_member (population e1) rnd n2)).
  destruct (draw_member_In (population e1) rnd n3 U Ne) as (c & Ec & Ic).
  rewrite Ec.
  unfold sort_tournament. cbn [defined flat_map app filter].
  assert (F : Forall (fun s => In s (population e1))
                     (sort_by_fitness [a; b; c]))
    by (apply sort_by_fitness_Forall; repeat constructor; assumption).
  pose proof (sort_by_fitness_length [a; b; c]) as L3.
  destruct (sort_by_fitness [a; b; c]) as [|x [|y [|z [|w l]]]];
    try discriminate L3.
  inversion F as [|? ? Fx F1]; subst.
  inversion F1 as [|? ? Fy F2]; subst.
  inversion F2 as [|? ? Fz _]; subst.
  unfold Rand.ret, or_first. cbn [fst map app nth].
  destruct (ltb _ (7 # 10)); [|destruct (ltb _ (9 # 10))];
    eexists; eexists; (split; [reflexivity|]); (split; assumption).
Qed.

Lemma selectStrategy_witness :
  exists s,
    snd (fst (selectStrategy default_config 100 Sample.trio
                             (fun _ => 1 # 2) 0%nat)) = Some s
    /\ In s (population Sample.trio).
Proof.
  destruct (selectStrategy_member default_config 100 Sample.trio
              (fun _ => 1 # 2) 0%nat) as (e' & s & E & I & Same).
  - intros k. split; [discriminate | reflexivity].
  - left. discriminate.
  - exists s. rewrite E. split; [reflexivity|].
    rewrite <- Same; [exact I | discriminate].
Defined.

(** *** The parameters of an exploration *)

Lemma insert_by_preference_perm (prefs : ApiPreferences) (x : string)
    (l : list string) :
  Permutation (insert_by_preference prefs x l) (x :: l).
Proof.
  induction l as [|y l IH]; simpl; [reflexivity|].
  destruct (ltb _ _); [|reflexivity].
  rewrite IH. apply perm_swap.
Qed.

Lemma insert_by_preference_sorted (prefs : ApiPreferences) (x : string)
    (l : list string) :
  StronglySorted (fun a b => api_preference prefs b <= api_preference prefs a)
                 l ->
  StronglySorted (fun a b => api_preference prefs b <= api_preference prefs a)
                 (insert_by_preference prefs x l).
Proof.
  induction 1 as [|y l Hl IH Hy]; simpl.
  - repeat constructor.
  - destruct (ltb (api_preference prefs x) (api_preference prefs y)) eqn:E.
    + apply ltb_true in E. constructor; [exact IH|].
      apply Forall_forall. intros z Hz.
      apply (Permutation_in _ (insert_by_preference_perm prefs x l)) in Hz.
      destruct Hz as [<- | Hz]; [now apply Qlt_le_weak|].
      apply (proj1 (Forall_forall _ _) Hy z Hz).
    + apply ltb_false in E. constructor; [now constructor|].
      constructor; [exact E|].
      apply Forall_forall. intros z Hz.
      eapply Qle_trans; [|exact E].
      apply (proj1 (Forall_forall _ _) Hy z Hz).
Qed.

(** X24. The parameters [applyStrategy] derives from a strategy: the
    API order is the four API names, each once, by decreasing
    preference, and the result limit is between 3 and 10 when the
    breadth gene is in [[0,1]]. *)
Theorem applyStrategy_parameters (strategy : Strategy) :
  Permutation (selectApiOrder strategy)
              ["wikipedia"; "hackerNews"; "reddit"; "openLibrary"]%string
  /\ StronglySorted
       (fun a b =>
          api_preference (apiPreferences (genes strategy)) b
          <= api_preference (apiPreferences (genes strategy)) a)
       (selectApiOrder strategy)
  /\ (in_unit (breadthPreference (genes strategy)) ->
      (3 <= resultLimit strategy <= 10)%Z).
Proof.
  unfold selectApiOrder. split; [|split].
  - cbn [fold_right]. rewrite !insert_by_preference_perm. reflexivity.
  - cbn [fold_right].
    repeat apply insert_by_preference_sorted. constructor.
  - intros [B0 B1]. unfold resultLimit. split.
    + refine (Qfloor_resp_le 3 _ _). lra.
    + refine (Qfloor_resp_le _ 10 _). lra.
Qed.

(** *** The dominant trait *)

Lemma max_scan (rest : list (string * Q)) :
  forall t0,
    let r := fold_left (fun max t => if gtb (snd t) (snd max) then t else max)
                       rest t0 in
    In r (t0 :: rest) /\ forall t, In t (t0 :: rest) -> snd t <= snd r.
Proof.
  induction rest as [|t1 rest IH]; intros t0; simpl.
  - split; [now left|]. intros t [<- | []]. apply Qle_refl.
  - destruct (IH (if gtb (snd t1) (snd t0) then t1 else t0)) as [I M].
    split.
    + destruct I as [I | I]; [|tauto].
      destruct (gtb (snd t1) (snd t0)); rewrite <- I; tauto.
    + intros t Ht.
      assert (B : snd t0 <= snd (if gtb (snd t1) (snd t0) then t1 else t0)
                  /\ snd t1 <= snd (if gtb (snd t1) (snd t0) then t1 else t0)).
      { destruct (gtb (snd t1) (snd t0)) eqn:E.
        - apply (ltb_true (snd t0) (snd t1)) in E.
          split; [now apply Qlt_le_weak | apply Qle_refl].
        - apply (ltb_false (snd t0) (snd t1)) in E.
          split; [apply Qle_refl | exact E]. }
      destruct B as [B0 B1].
      destruct Ht as [<- | [<- | Ht]].
      * eapply Qle_trans; [exact B0|]. apply M. now left.
      * eapply Qle_trans; [exact B1|]. apply M. now left.
      * apply M. now right.
Qed.

(** X25. [getDominantTrait] names a trait of the strategy whose value
    no other trait exceeds (the value of 'Deep Diver' being one minus
    the breadth gene). *)
Theorem getDominantTrait_maximal (strategy : Strategy) :
  exists v,
    In (getDominantTrait strategy, v) (traits (genes strategy))
    /\ forall t, In t (traits (genes strategy)) -> snd t <= v.
Proof.
  unfold getDominantTrait.
  destruct (traits (genes strategy)) as [|t0 rest] eqn:E;
    [discriminate|].
  destruct (max_scan rest t0) as [I M]. cbv zeta in I, M.
  exists (snd (fold_left
                 (fun max t => if gtb (snd t) (snd max) then t else max)
                 rest t0)).
  split; [|exact M]. now rewrite <- surjective_pairing.
Qed.

End StrategyProps.

(** ** The decision engine *)

Module AutonomyProps.
Import Js JsFacts JsMapFacts Brain Spec GraphProps HysteresisProps RandFacts.
Import Autonomy.

Lemma gtb_true (x y : Q) : gtb x y = true <-> y < x.
Proof.
  unfold gtb. rewrite negb_true_iff. split; intros H.
  - apply Qnot_le_lt. intros C. apply Qle_bool_iff in C. congruence.
  - destruct (Qle_bool x y) eqn:E; [|reflexivity].
    apply Qle_bool_iff in E. exfalso. eapply Qlt_not_le; eassumption.
Qed.

Ltac decide_guards :=
  repeat match goal with
         | H : (_ && _)%bool = true |- _ => apply andb_true_iff in H; destruct H
         | H : (_ && _)%bool = false |- _ =>
             apply andb_false_iff in H; destruct H
         | H : (_ =? _)%nat = true |- _ => apply Nat.eqb_eq in H
         | H : (_ =? _)%nat = false |- _ => apply Nat.eqb_neq in H
         | H : (_ <? _)%nat = true |- _ => apply Nat.ltb_lt in H
         | H : (_ <? _)%nat = false |- _ => apply Nat.ltb_ge in H
         | H : (_ <=? _)%nat = true |- _ => apply Nat.leb_le in H
         | H : (_ <=? _)%nat = false |- _ => apply Nat.leb_gt in H
         | H : (_ <? _)%Z = true |- _ => apply Z.ltb_lt in H
         | H : (_ <? _)%Z = false |- _ => apply Z.ltb_ge in H
         end.

Ltac settle_decision :=
  decide_guards;
  repeat split; try discriminate; intros; try reflexivity;
  try assumption; try (left; split; assumption);
  try (right; split; assumption); try lia.

Ltac walk_decision cfg now last interests rnd n :=
  unfold makeDecision; fold interests;
  destruct ((interests =? 0)%nat && (10000 <? now - last_seed last)%Z)
    eqn:P1; [simpl; settle_decision|];
  rewrite bind_eq;
  destruct (exploreInterval cfg <? now - last_explore last)%Z eqn:P2;
  destruct (0 <? interests)%nat eqn:I0;
  unfold Rand.bind, Rand.ret, Rand.random; simpl;
  try destruct (gtb (rnd n) (5 # 10)) eqn:R1; simpl;
  try (settle_decision; fail);
  (destruct ((dreamInterval cfg <? now - last_dream last)%Z
             && (minInterestsForDream cfg <=? interests)%nat) eqn:P3;
   simpl; [settle_decision|]);
  (destruct ((evolveInterval cfg <? now - last_evolve last)%Z
             && (minInterestsForEvolve cfg <=? interests)%nat) eqn:P4;
   simpl; [settle_decision|]);
  destruct (seedInterval cfg <? now - last_seed last)%Z eqn:P5;
  destruct (interests <? maxInterests cfg)%nat eqn:I5; simpl;
  try match goal with
      | |- context [gtb ?r (7 # 10)] => destruct (gtb r (7 # 10)) eqn:R5
      end; simpl;
  settle_decision.

Lemma makeDecision_dream (cfg : Autonomy.Config) (now : Z)
    (last : LastActions) (brain : option Engine) (rnd : nat -> Q)
    (n : nat) :
  fst (makeDecision cfg now last brain rnd n) = Some Dream ->
  (minInterestsForDream cfg <= interest_count brain)%nat.
Proof.
  set (interests := interest_count brain).
  walk_decision cfg now last interests rnd n.
Qed.

(** X26. What [makeDecision] answers is licensed by its guards: 'dream'
    and 'evolve' only once their interval has passed and the graph has
    the configured number of interests, 'explore' only once its interval
    has passed, 'seed' only on an empty graph or on one below
    [maxInterests] whose seed interval has passed.  An empty graph not
    seeded in the last ten seconds is always seeded, and a graph that
    has interests explores as soon as the explore interval has passed,
    whatever else is due. *)
Theorem makeDecision_guards (cfg : Autonomy.Config) (now : Z)
    (last : LastActions) (brain : option Engine) (rnd : nat -> Q)
    (n : nat) :
  let interests := interest_count brain in
  let decision := fst (makeDecision cfg now last brain rnd n) in
  (decision = Some Dream ->
   (dreamInterval cfg < now - last_dream last)%Z
   /\ (minInterestsForDream cfg <= interests)%nat)
  /\ (decision = Some Evolve ->
      (evolveInterval cfg < now - last_evolve last)%Z
      /\ (minInterestsForEvolve cfg <= interests)%nat)
  /\ (decision = Some Explore ->
      (exploreInterval cfg < now - last_explore last)%Z)
  /\ (decision = Some Seed ->
      (interests = 0%nat /\ (10000 < now - last_seed last)%Z)
      \/ ((interests < maxInterests cfg)%nat
          /\ (seedInterval cfg < now - last_seed last)%Z))
  /\ (interests = 0%nat -> (10000 < now - last_seed last)%Z ->
      decision = Some Seed)
  /\ ((0 < interests)%nat ->
      (exploreInterval cfg < now - last_explore last)%Z ->
      decision = Some Explore).
Proof.
  intros interests decision. unfold decision.
  walk_decision cfg now last interests rnd n.
Qed.

(** *** Seeding *)

Lemma splice_floor_unit (unused : list string) (r : Q) :
  0 <= r -> r < 1 -> unused <> [] ->
  exists t,
    fst (splice_floor unused (r * of_nat (List.length unused))) = Some t
    /\ Permutation
         (t :: snd (splice_floor unused (r * of_nat (List.length unused))))
         unused.
Proof.
  intros H0 H1 Ha.
  destruct (ReplayProps.at_floor_unit unused r H0 H1 Ha) as [v Hv].
  unfold Dreamer.at_floor in Hv. unfold splice_floor.
  destruct (_ <? 0)%Z; [discriminate|]. cbn [fst snd].
  exists v. split; [exact Hv|].
  remember (Z.to_nat (Qfloor (r * of_nat (List.length unused)))) as i
    eqn:Ei.
  clear Ei. destruct (nth_error_split _ _ Hv) as (l1 & l2 & E & L).
  subst i unused.
  rewrite firstn_app, firstn_all, Nat.sub_diag. cbn [firstn].
  rewrite app_nil_r.
  change (v :: l2) with ([v] ++ l2). rewrite app_assoc.
  replace (S (List.length l1)) with (List.length (l1 ++ [v]))
    by (rewrite length_app; simpl; lia).
  rewrite skipn_app, skipn_all, Nat.sub_diag. simpl.
  rewrite <- app_assoc. apply Permutation_middle.
Qed.

Section Seeding.
Variable rnd : nat -> Q.
Hypothesis rnd_unit : Rand.unit_interval rnd.

(** The picks of the selection loop are elements of the array, each
    taken out of it once. *)
Lemma select_topics_shape (count : nat) :
  forall steps i unused n,
  exists ts rest,
    fst (select_topics steps i count unused rnd n) = map Some ts
    /\ snd (select_topics steps i count unused rnd n)
       = (n + List.length ts)%nat
    /\ Permutation (ts ++ rest) unused
    /\ ((i + steps <= count)%nat ->
        (i + 2 * steps <= List.length unused + 1)%nat ->
        List.length ts = steps)
    /\ ((0 < steps)%nat -> (i < Nat.min count (List.length unused))%nat ->
        ts <> []).
Proof.
  induction steps as [|steps IH]; intros i unused n.
  { exists [], unused. simpl.
    repeat split; try reflexivity; intros; lia. }
  cbn [select_topics].
  destruct (i <? Nat.min count (List.length unused))%nat eqn:G.
  - apply Nat.ltb_lt in G.
    assert (Ne : unused <> []).
    { intros ->. simpl in G. lia. }
    destruct (rnd_unit n) as [R0 R1].
    destruct (splice_floor_unit unused (rnd n) R0 R1 Ne) as (t & Et & Pt).
    rewrite bind_eq. unfold Rand.random. cbn [fst snd].
    destruct (splice_floor unused (rnd n * of_nat (List.length unused)))
      as [picked unused'].
    cbn [fst snd] in Et, Pt. subst picked.
    destruct (IH (S i) unused' (S n)) as (ts & rest & E & N & P & L & _).
    rewrite bind_eq, E, N. unfold Rand.ret. cbn [fst snd].
    exists (t :: ts), rest. repeat split.
    + simpl. lia.
    + simpl. rewrite <- Pt. now constructor.
    + intros H1 H2. simpl. f_equal. apply L; [lia|].
      apply Permutation_length in Pt. simpl in Pt. lia.
    + discriminate.
  - apply Nat.ltb_ge in G. exists [], unused. unfold Rand.ret. simpl.
    repeat split; try reflexivity; intros; lia.
Qed.

End Seeding.

Lemma seed_all_graph (bcfg : Brain.Config) (now : Z) (ts : list string) :
  forall b,
  exists b',
    seed_all bcfg now (map Some ts) (Some b) = Some (Some b')
    /\ (reachable bcfg b -> reachable bcfg b').
Proof.
  induction ts as [|t ts IH]; intros b; simpl.
  - exists b. split; [reflexivity | tauto].
  - destruct (IH (fst (addInterest bcfg now t (25 # 100) b)))
      as (b' & E & R).
    exists b'. split; [exact E|]. intros Hr. apply R.
    eapply reach_step; [exact Hr|]. apply op_graph. constructor.
Qed.

Lemma addInterest_appends (cfg : Brain.Config) (now : Z) (t : string)
    (strength : Q) (b : Engine) :
  JsMap.get (trim (toLowerCase t)) (interests b) = None ->
  (JsMap.size (interests b) < maxShortTermInterests cfg)%nat ->
  JsMap.keys (interests (fst (addInterest cfg now t strength b)))
  = JsMap.keys (interests b) ++ [trim (toLowerCase t)].
Proof.
  intros Hk Hsize.
  destruct (InsertionProps.addInterest_new cfg now t strength b Hk)
    as (b0 & E0 & A0 & E).
  rewrite E. unfold updateCoreStatus. simpl. rewrite keys_map_values.
  rewrite (proj2 (findAndCreateConnections_carried _ _ _ _)). simpl.
  assert (L : (maxShortTermInterests cfg <=? JsMap.size (interests b))%nat
              = false) by (apply Nat.leb_gt; exact Hsize).
  rewrite L in E0. subst b0.
  rewrite (set_absent _ _ _ A0). unfold JsMap.keys. now rewrite map_app.
Qed.

Lemma seed_all_fresh (bcfg : Brain.Config) (now : Z) (ts : list string) :
  forall b,
    NoDup (map (fun t => trim (toLowerCase t)) ts) ->
    (forall t, In t ts ->
               ~ In (trim (toLowerCase t)) (JsMap.keys (interests b))) ->
    (JsMap.size (interests b) + List.length ts
     <= maxShortTermInterests bcfg)%nat ->
    exists b',
      seed_all bcfg now (map Some ts) (Some b) = Some (Some b')
      /\ JsMap.keys (interests b')
         = JsMap.keys (interests b)
           ++ map (fun t => trim (toLowerCase t)) ts.
Proof.
  induction ts as [|t ts IH]; intros b N F S; simpl.
  - exists b. now rewrite app_nil_r.
  - simpl in S. inversion N as [|? ? Nt N']; subst.
    assert (A : JsMap.get (trim (toLowerCase t)) (interests b) = None).
    { destruct (JsMap.get _ (interests b)) as [x|] eqn:Hx; [|reflexivity].
      exfalso. apply (F t); [now left|]. eapply get_In_keys, Hx. }
    pose proof (addInterest_appends bcfg now t (25 # 100) b A
                  ltac:(lia)) as K.
    destruct (IH (fst (addInterest bcfg now t (25 # 100) b)))
      as (b' & E & K').
    + exact N'.
    + intros t' Ht'. rewrite K, in_app_iff. intros [C | [C | []]].
      * apply (F t'); [now right | exact C].
      * apply Nt. rewrite C.
        apply (in_map (fun t => trim (toLowerCase t))), Ht'.
    + rewrite (InsertionProps.size_keys (interests (fst _))), K, length_app,
        <- InsertionProps.size_keys.
      simpl. lia.
    + exists b'. split; [exact E|]. rewrite K', K, <- app_assoc.
      reflexivity.
Qed.

Lemma trendingTopics_distinct :
  NoDup (map (fun t => trim (toLowerCase t)) trendingTopics).
Proof.
  apply (NoDup_count_occ string_dec). intros x.
  pose proof (count_occ_In string_dec
                (map (fun t => trim (toLowerCase t)) trendingTopics) x)
    as C.
  destruct (in_dec string_dec x
              (map (fun t => trim (toLowerCase t)) trendingTopics))
    as [H | H].
  - vm_compute in H.
    repeat (destruct H as [<- | H]; [vm_compute; lia|]). destruct H.
  - apply (count_occ_not_In string_dec) in H. lia.
Qed.

(** X27. [actionSeed] under the contract of [Math.random].  With a
    graph it does not throw, and a graph reachable by the operations
    stays one.  On an empty graph whose capacity is at least three it
    seeds exactly three trending topics, distinct ones, whose normalized
    names become the keys of the graph in the order picked, and draws
    three random numbers.  Without a graph the first [addInterest]
    throws. *)
Theorem actionSeed_seeds (bcfg : Brain.Config) (now : Z) (rnd : nat -> Q)
    (n : nat) :
  Rand.unit_interval rnd ->
  (forall b,
      exists b',
        fst (actionSeed bcfg now (Some b) rnd n) = Some (Some b')
        /\ (reachable bcfg b -> reachable bcfg b'))
  /\ (forall b,
         JsMap.size (interests b) = 0%nat ->
         (3 <= maxShortTermInterests bcfg)%nat ->
         exists t1 t2 t3 b',
           actionSeed bcfg now (Some b) rnd n
           = (Some (Some b'), (n + 3)%nat)
           /\ JsMap.keys (interests b')
              = [trim (toLowerCase t1); trim (toLowerCase t2);
                 trim (toLowerCase t3)]
           /\ incl [t1; t2; t3] trendingTopics
           /\ NoDup [trim (toLowerCase t1); trim (toLowerCase t2);
                     trim (toLowerCase t3)])
  /\ fst (actionSeed bcfg now None rnd n) = None.
Proof.
  intros U. split; [|split].
  - intros b. unfold actionSeed.
    destruct (List.length _ =? 0)%nat; [exists b; split; [reflexivity|tauto]|].
    rewrite bind_eq.
    match goal with
    | |- context [select_topics ?s ?i ?c ?u rnd n] =>
        destruct (select_topics_shape rnd U c s i u n)
          as (ts & rest & E & _)
    end.
    rewrite E. unfold Rand.ret. cbn [fst].
    apply seed_all_graph.
  - intros b Hb Hcap.
    assert (Eb : interests b = []).
    { destruct (interests b); [reflexivity | discriminate]. }
    unfold actionSeed, interest_count. rewrite Hb. cbn [Nat.eqb].
    assert (Fu : filter (fun t => negb (JsMap.has t (interests b)))
                        trendingTopics = trendingTopics).
    { rewrite Eb. reflexivity. }
    rewrite Fu. change (List.length trendingTopics =? 0)%nat with false.
    cbv iota. rewrite bind_eq.
    destruct (select_topics_shape rnd U 3 3 0 trendingTopics n)
      as (ts & rest & E & N & P & L & _).
    rewrite E, N. unfold Rand.ret. cbn [fst snd].
    specialize (L ltac:(lia) ltac:(vm_compute; lia)).
    destruct ts as [|t1 [|t2 [|t3 [|? ?]]]]; try discriminate.
    assert (D : NoDup (map (fun t => trim (toLowerCase t)) [t1; t2; t3])).
    { pose proof trendingTopics_distinct as D.
      rewrite <- (Permutation_map _ P), map_app in D.
      now apply NoDup_app_remove_r in D. }
    destruct (seed_all_fresh bcfg now [t1; t2; t3] b D) as (b' & Es & K).
    + intros t _. rewrite Eb. intros [].
    + rewrite Hb. simpl. lia.
    + exists t1, t2, t3, b'. rewrite Es. split; [reflexivity|].
      rewrite Eb in K. split; [exact K|]. split; [|exact D].
      intros t Ht. apply (Permutation_in _ P). rewrite in_app_iff. now left.
  - unfold actionSeed, interest_count. cbn [Nat.eqb].
    change (filter (fun _ : string => true) trendingTopics)
      with trendingTopics.
    change (List.length trendingTopics =? 0)%nat with false.
    cbv iota. rewrite bind_eq.
    destruct (select_topics_shape rnd U 3 3 0 trendingTopics n)
      as (ts & rest & E & _ & _ & _ & Ne).
    rewrite E. unfold Rand.ret. cbn [fst].
    specialize (Ne ltac:(lia) ltac:(vm_compute; lia)).
    destruct ts; [congruence | reflexivity].
Qed.

Lemma actionSeed_witness :
  exists b',
    fst (actionSeed Brain.default_config 100 (Some new_engine)
                    (fun _ => 0) 0%nat) = Some (Some b')
    /\ JsMap.size (interests b') = 3%nat.
Proof.
  destruct (actionSeed_seeds Brain.default_config 100 (fun _ => 0) 0%nat)
    as (_ & S3 & _).
  - intros k. split; [discriminate | reflexivity].
  - destruct (S3 new_engine) as (t1 & t2 & t3 & b' & E & K & _).
    + reflexivity.
    + vm_compute. lia.
    + exists b'. rewrite E. split; [reflexivity|].
      rewrite InsertionProps.size_keys, K. reflexivity.
Defined.

(** X28. The decision engine and the dreamer agree on when a dream can
    run.  Whenever [makeDecision] answers 'dream' under a configuration
    that asks for at least three interests, as the default one does, the
    dream session that [actionDream] starts on an idle dreamer succeeds
    and leaves the topics of the graph as they are; and on a graph with
    fewer than three interests the decision is never 'dream', a dream
    there being refused. *)
Theorem decided_dream_runs (acfg : Autonomy.Config) (now : Z)
    (last : LastActions) (b : Engine) (rnd : nat -> Q) (n : nat)
    (dcfg : Dreamer.Config) (now' : Z)
    (explorer : option (list Dreamer.Discovery)) (d : Dreamer.DreamState)
    (rnd' : nat -> Q) (n' : nat) :
  (3 <= minInterestsForDream acfg)%nat ->
  Dreamer.isDreaming d = false ->
  Rand.unit_interval rnd' ->
  (fst (makeDecision acfg now last (Some b) rnd n) = Some Dream ->
   exists d' b' session n'',
     Dreamer.dream dcfg now' explorer d (Some b) rnd' n'
     = (d', Some b', Dreamer.Success session, n'')
     /\ JsMap.keys (interests b') = JsMap.keys (interests b))
  /\ ((JsMap.size (interests b) < 3)%nat ->
      fst (makeDecision acfg now last (Some b) rnd n) <> Some Dream
      /\ snd (fst (Dreamer.dream dcfg now' explorer d (Some b) rnd' n'))
         = Dreamer.Failure Dreamer.NeedThreeInterests).
Proof.
  intros Hmin Hd U.
  assert (G : fst (makeDecision acfg now last (Some b) rnd n) = Some Dream ->
              (3 <= JsMap.size (interests b))%nat).
  { intros D.
    pose proof (makeDecision_dream acfg now last (Some b) rnd n D) as G.
    simpl in G. lia. }
  split.
  - intros D. specialize (G D). unfold Dreamer.dream. rewrite Hd.
    assert (L : (List.length (JsMap.values (interests b)) <? 3)%nat = false).
    { apply Nat.ltb_ge. unfold JsMap.values. rewrite length_map. exact G. }
    rewrite L, bind_eq.
    assert (Ne : JsMap.values (interests b) <> []).
    { intros C. rewrite C in L. discriminate. }
    pose proof (ReplayProps.dream_chains_completes dcfg now' explorer rnd'
                  (Dreamer.chainsPerDream dcfg) U
                  (Dreamer.mkRunning b (Dreamer.discoveredConnections d)
                                     [] [] []) n' Ne) as [C _].
    pose proof (dream_chains_steady dcfg now' explorer
                  (Dreamer.chainsPerDream dcfg)
                  (Dreamer.mkRunning b (Dreamer.discoveredConnections d)
                                     [] [] []) rnd' n') as [K _].
    destruct (Dreamer.dream_chains _ _ _ _ _ _ _) as [[completed st] n1].
    simpl in C, K |- *. subst completed.
    eexists. eexists. eexists. eexists. split; [reflexivity | exact K].
  - intros Hs. split; [intros D; specialize (G D); lia|].
    unfold Dreamer.dream. rewrite Hd.
    assert (L : (List.length (JsMap.values (interests b)) <? 3)%nat = true).
    { apply Nat.ltb_lt. unfold JsMap.values. rewrite length_map. exact Hs. }
    now rewrite L.
Qed.

Lemma decided_dream_witness :
  exists d' b' session n'',
    Dreamer.dream Dreamer.default_config 100 None Dreamer.new_dreamer
                  (Some Sample.square) (fun _ => 0) 0%nat
    = (d', Some b', Dreamer.Success session, n'').
Proof.
  destruct (decided_dream_runs Autonomy.default_config 1000000
              (mkLastActions 999000 0 0 0) Sample.square (fun _ => 0) 0%nat
              Dreamer.default_config 100 None Dreamer.new_dreamer
              (fun _ => 0) 0%nat) as [D _].
  - vm_compute. lia.
  - reflexivity.
  - intros k. split; [discriminate | reflexivity].
  - destruct D as (d' & b' & session & n'' & E & _);
      [vm_compute; reflexivity|].
    exists d', b', session, n''. exact E.
Defined.

End AutonomyProps.

(** ** The store of discoveries *)

Module ExplorerProps.
Import Js JsFacts Brain Spec Explorer.

Lemma filter_length_all {A : Type} (f : A -> bool) (l : list A) :
  List.length (filter f l) = List.length l
  <-> forall x, In x l -> f x = true.
Proof.
  induction l as [|y l IH]; simpl; [tauto|].
  pose proof (filter_length_le f l) as Le.
  destruct (f y) eqn:E; simpl.
  - split.
    + intros H x [<- | Hx]; [exact E|]. apply IH; [lia | exact Hx].
    + intros H. f_equal. apply IH. intros x Hx. apply H. now right.
  - split; [lia|]. intros H. specialize (H y (or_introl eq_refl)).
    congruence.
Qed.

Lemma filter_length_none {A : Type} (f : A -> bool) (l : list A) :
  List.length (filter f l) = 0%nat
  <-> forall x, In x l -> f x = false.
Proof.
  induction l as [|y l IH]; simpl; [tauto|].
  destruct (f y) eqn:E; simpl.
  - split; [lia|]. intros H. specialize (H y (or_introl eq_refl)).
    congruence.
  - rewrite IH. split.
    + intros H x [<- | Hx]; [exact E | now apply H].
    + intros H x Hx. apply H. now right.
Qed.

Lemma split_ws_from_length (s : string) :
  forall acc in_ws, (0 < List.length (split_ws_from acc in_ws s))%nat.
Proof.
  induction s as [|c s IH]; intros acc in_ws; simpl; [lia|].
  destruct (is_ws c); [destruct in_ws; [apply IH | simpl; lia] | apply IH].
Qed.

Lemma ratio_one (m l : nat) :
  (0 < l)%nat -> (of_nat m / of_nat l == 1 <-> m = l).
Proof.
  intros L. pose proof (of_nat_pos l L) as Lq. split.
  - intros H.
    assert (E : of_nat m == of_nat l).
    { rewrite <- (Qmult_1_l (of_nat l)), <- H. field.
      intros C. rewrite C in Lq. now apply Qlt_irrefl in Lq. }
    unfold of_nat in E. apply (proj1 (inject_Z_injective _ _)) in E. lia.
  - intros ->. field.
    intros C. rewrite C in Lq. now apply Qlt_irrefl in Lq.
Qed.

Lemma ratio_zero (m l : nat) :
  (0 < l)%nat -> (of_nat m / of_nat l == 0 <-> m = 0%nat).
Proof.
  intros L. pose proof (of_nat_pos l L) as Lq. split.
  - intros H.
    assert (E : of_nat m == of_nat 0).
    { change (of_nat 0) with 0.
      rewrite <- (Qmult_0_l (of_nat l)), <- H. field.
      intros C. rewrite C in Lq. now apply Qlt_irrefl in Lq. }
    unfold of_nat in E. apply (proj1 (inject_Z_injective _ _)) in E. lia.
  - intros ->. change (of_nat 0) with 0. field.
    intros C. rewrite C in Lq. now apply Qlt_irrefl in Lq.
Qed.

(** X29. [calculateRelevance] is the share of the words of the topic
    that occur in the title: a number between 0 and 1, which is 0 when
    the title or the topic is missing or empty, 1 exactly when every
    word of the topic is a word of the title, and 0 exactly when none
    is.  Both are compared in lower case. *)
Theorem calculateRelevance_share (title topic : option string) :
  let r := calculateRelevance title topic in
  (0 <= r /\ r <= 1)
  /\ (title = None \/ title = Some EmptyString
      \/ topic = None \/ topic = Some EmptyString -> r = 0)
  /\ forall c t c' t',
       title = Some (String c t) -> topic = Some (String c' t') ->
       let titleWords := split_ws (toLowerCase (String c t)) in
       let topicWords := split_ws (toLowerCase (String c' t')) in
       (r == 1 <-> forall w, In w topicWords -> In w titleWords)
       /\ (r == 0 <-> forall w, In w topicWords -> ~ In w titleWords).
Proof.
  intros r.
  assert (Shape : forall c t c' t',
             calculateRelevance (Some (String c t)) (Some (String c' t'))
             = of_nat (List.length
                         (filter (fun word =>
                                    includes word
                                      (set_of (split_ws
                                                 (toLowerCase (String c t)))))
                                 (split_ws (toLowerCase (String c' t')))))
               / of_nat (List.length
                           (split_ws (toLowerCase (String c' t'))))).
  { intros c t c' t'. unfold calculateRelevance.
    pose proof (split_ws_from_length (toLowerCase (String c' t'))
                  EmptyString false) as L.
    fold (split_ws (toLowerCase (String c' t'))) in L.
    apply Nat.ltb_lt in L. now rewrite L. }
  assert (Len : forall s, (0 < List.length (split_ws s))%nat)
    by (intros s; apply split_ws_from_length).
  split; [|split].
  - unfold r.
    destruct title as [[|c t]|]; try (simpl; split; discriminate).
    destruct topic as [[|c' t']|]; try (simpl; split; discriminate).
    rewrite Shape.
    set (topicWords := split_ws (toLowerCase (String c' t'))).
    set (f := fun word => includes word _).
    pose proof (filter_length_le f topicWords) as Le.
    pose proof (of_nat_pos _ (Len (toLowerCase (String c' t')))) as Lq.
    fold topicWords in Lq.
    pose proof (of_nat_nonneg (List.length (filter f topicWords))) as Mq.
    pose proof (of_nat_le _ _ Le) as Mle.
    split.
    + apply Qle_shift_div_l; [exact Lq|]. now rewrite Qmult_0_l.
    + apply Qle_shift_div_r; [exact Lq|]. now rewrite Qmult_1_l.
  - unfold r. intros [-> | [-> | [-> | ->]]]; try reflexivity;
      destruct title as [[|? ?]|]; reflexivity.
  - intros c t c' t' -> ->. intros titleWords topicWords.
    unfold r. rewrite Shape. fold titleWords topicWords.
    split.
    + etransitivity; [apply ratio_one, Len|]. rewrite filter_length_all.
      split; intros H w Hw.
      * apply set_of_In, includes_In, H, Hw.
      * apply includes_In, set_of_In, H, Hw.
    + etransitivity; [apply ratio_zero, Len|]. rewrite filter_length_none.
      split; intros H w Hw.
      * intros C. apply set_of_In, includes_In in C.
        rewrite (H w Hw) in C. discriminate.
      * destruct (includes w (set_of titleWords)) eqn:E; [|reflexivity].
        exfalso. apply (H w Hw). now apply set_of_In, includes_In.
Qed.

(** *** Merging *)

(** Filtering discoveries keeps their ids distinct. *)
Lemma filtered_ids_distinct (keep : Discovery -> bool)
    (ds : list Discovery) :
  NoDup (map id ds) -> NoDup (map id (filter keep ds)).
Proof.
  induction ds as [|d ds IH]; simpl; [tauto|].
  intros N. inversion N as [|? ? Hd N']; subst.
  destruct (keep d); simpl; [|now apply IH].
  constructor; [|now apply IH].
  intros C. apply Hd. apply in_map_iff in C.
  destruct C as (y & E & Hy). apply filter_In in Hy.
  rewrite <- E. apply in_map. tauto.
Qed.

Lemma NoDup_firstn {A : Type} (n : nat) (l : list A) :
  NoDup l -> NoDup (firstn n l).
Proof.
  intros N. rewrite <- (firstn_skipn n l) in N.
  now apply NoDup_app_remove_r in N.
Qed.

Lemma seeded_reachable (bcfg : Brain.Config) (now : Z) (strength : Q)
    (keywords : list string) :
  forall b,
    reachable bcfg b ->
    reachable bcfg
      (fold_left (fun b2 keyword =>
                    fst (addInterest bcfg now keyword strength b2))
                 keywords b).
Proof.
  induction keywords as [|k ks IH]; intros b R; simpl; [exact R|].
  apply IH. eapply reach_step; [exact R|]. apply op_graph. constructor.
Qed.

(** X30. The store of discoveries is bounded and merged by id.
    [addDiscoveries] puts the new discoveries in front and keeps the
    first hundred, and the keywords it feeds to the graph leave a
    reachable graph reachable.  [import] refuses a version other than 1
    and changes nothing then; otherwise it keeps at most a hundred
    discoveries, adds only discoveries whose id was not stored, so that
    distinct ids stay distinct, and when everything fits a second import
    of the same snapshot adds nothing. *)
Theorem discoveries_merge (bcfg : Brain.Config) (now : Z)
    (newDiscoveries : list Discovery) (brain : option Engine)
    (data : Snapshot) (x : State) :
  (let '(x', brain') := addDiscoveries bcfg now newDiscoveries x brain in
   discoveries x' = firstn 100 (newDiscoveries ++ discoveries x)
   /\ (List.length (discoveries x') <= 100)%nat
   /\ match brain, brain' with
      | Some b, Some b' => reachable bcfg b -> reachable bcfg b'
      | None, None => True
      | _, _ => False
      end)
  /\ (snap_version data <> 1%Z -> import data x = (x, IncompatibleVersion))
  /\ (snap_version data = 1%Z ->
      let x' := fst (import data x) in
      (List.length (discoveries x') <= 100)%nat
      /\ (forall d,
             In d (discoveries x') ->
             In d (discoveries x)
             \/ (In d (snap_discoveries data)
                 /\ ~ In (id d) (map id (discoveries x))))
      /\ (NoDup (map id (discoveries x)) ->
          NoDup (map id (snap_discoveries data)) ->
          NoDup (map id (discoveries x')))
      /\ ((List.length (discoveries x)
           + List.length (snap_discoveries data) <= 100)%nat ->
          incl (discoveries x) (discoveries x')
          /\ incl (map id (snap_discoveries data)) (map id (discoveries x'))
          /\ import data x' = (x', Imported 0))).
Proof.
  split; [|split].
  - unfold addDiscoveries. cbn [discoveries]. split; [|split].
    + destruct (100 <? _)%nat eqn:E; [reflexivity|].
      apply Nat.ltb_ge in E. now rewrite firstn_all2.
    + destruct (100 <? _)%nat eqn:E.
      * rewrite length_firstn. lia.
      * now apply Nat.ltb_ge in E.
    + destruct brain as [b|]; [|exact I].
      revert b. induction newDiscoveries as [|d ds IH]; intros b R;
        simpl; [exact R|].
      apply IH. now apply seeded_reachable.
  - intros H. unfold import. apply Z.eqb_neq in H. now rewrite H.
  - intros V x'. unfold x', import. rewrite V. cbn [Z.eqb Pos.eqb fst].
    cbn [discoveries].
    set (fresh := filter (fun d => negb (includes (id d)
                                           (set_of (map id (discoveries x)))))
                         (snap_discoveries data)).
    assert (Fresh : forall d,
               In d fresh <->
               In d (snap_discoveries data)
               /\ ~ In (id d) (map id (discoveries x))).
    { intros d. unfold fresh. rewrite filter_In, negb_true_iff.
      rewrite <- (set_of_In (id d)), <- includes_In.
      destruct (includes _ _); intuition congruence. }
    split; [|split; [|split]].
    + rewrite length_firstn. lia.
    + intros d Hd. apply ReplayProps.firstn_In, in_app_iff in Hd.
      destruct Hd as [Hd | Hd]; [right; now apply Fresh | now left].
    + intros N1 N2. rewrite <- firstn_map. apply NoDup_firstn.
      rewrite map_app. apply NoDup_app.
      * now apply filtered_ids_distinct.
      * exact N1.
      * intros i Hi C. apply in_map_iff in Hi.
        destruct Hi as (d & <- & Hd). now apply Fresh in Hd.
    + intros Fit.
      pose proof (filter_length_le
                    (fun d => negb (includes (id d)
                                      (set_of (map id (discoveries x)))))
                    (snap_discoveries data)) as Le.
      fold fresh in Le.
      assert (All : firstn 100 (fresh ++ discoveries x)
                    = fresh ++ discoveries x).
      { apply firstn_all2. rewrite length_app. lia. }
      rewrite All.
      assert (Known : forall d,
                 In d (snap_discoveries data) ->
                 In (id d) (map id (fresh ++ discoveries x))).
      { intros d Hd. rewrite map_app, in_app_iff.
        destruct (in_dec string_dec (id d) (map id (discoveries x)))
          as [K | K]; [now right | left].
        apply in_map, Fresh. tauto. }
      split; [|split].
      * intros d Hd. rewrite in_app_iff. now right.
      * intros i Hi. apply in_map_iff in Hi.
        destruct Hi as (d & <- & Hd). now apply Known.
      * assert (None_new :
                  filter (fun d =>
                            negb (includes (id d)
                                    (set_of (map id
                                               (fresh ++ discoveries x)))))
                         (snap_discoveries data) = []).
        { apply length_zero_iff_nil, filter_length_none.
          intros d Hd. apply negb_false_iff, includes_In, set_of_In.
          now apply Known. }
        rewrite None_new. cbn [app List.length]. rewrite All.
        destruct (snap_explorationLog data); reflexivity.
Qed.

End ExplorerProps.
